(** * minivtun: the datagram encryption layer of [src/library.c]

    The development has two layers.

    - A functional model of the part of libcrypto (OpenSSL) that
      [library.c] links against: the MD5 digest, the five ciphers of the
      table [cipher_pairs] and the EVP calls made by the engine.  The
      algorithms follow their public definitions (RFC 1321, FIPS 197,
      FIPS 46-3, the DESX whitening of [DES_xcbc_encrypt], RC4) and are
      checked against known answers.
    - The functions of [library.c] themselves: [get_crypto_type],
      [CRYPTO_DATA_PADDING], [datagram_encrypt], [datagram_decrypt] and
      [fill_with_string_md5sum], then [v4pair_to_sockaddr] and
      [do_daemonize] with the library and system calls they make; the
      answers of the resolver and of the system are arguments of the
      model.

    Conventions.  A C buffer is the list of its bytes, its capacity
    being the length of the list; a function that writes through a
    pointer returns the new contents of the buffer.  A call yields a
    [result]: it returns, aborts on a failed [assert], or is undefined
    when it reads or writes outside a buffer.  A C string is a [string]
    read up to its first NUL.  The [int] that libcrypto takes lengths in
    is 32 bits wide, and the conversions from and to [size_t] are
    written out. *)

From Stdlib Require Import Strings.String Strings.Ascii Strings.Byte.
From Stdlib Require Import List NArith ZArith Bool Lia Btauto.
From Equations Require Import Equations.
Import ListNotations.

Local Open Scope nat_scope.

(* ================================================================== *)
(** * Bytes, bit vectors and buffers *)
(* ================================================================== *)

Module Bytes.

(** The eight bits of a byte, least significant first, as
    [Byte.to_bits] yields them. *)
Definition bits8 : Type :=
  (bool * (bool * (bool * (bool * (bool * (bool * (bool * bool)))))))%type.

Definition bits8_xor (x y : bits8) : bits8 :=
  let '(x0, (x1, (x2, (x3, (x4, (x5, (x6, x7))))))) := x in
  let '(y0, (y1, (y2, (y3, (y4, (y5, (y6, y7))))))) := y in
  (xorb x0 y0, (xorb x1 y1, (xorb x2 y2, (xorb x3 y3,
  (xorb x4 y4, (xorb x5 y5, (xorb x6 y6, xorb x7 y7))))))).

(** [a ^ b] on [unsigned char]. *)
Definition byte_xor (a b : byte) : byte :=
  Byte.of_bits (bits8_xor (Byte.to_bits a) (Byte.to_bits b)).

(** Byte-wise xor of two buffers, over their common length. *)
Fixpoint xor_bytes (a b : list byte) : list byte :=
  match a, b with
  | x :: a', y :: b' => byte_xor x y :: xor_bytes a' b'
  | _, _ => []
  end.

(** The low eight bits of a number, as a byte. *)
Definition byte_of_N (n : N) : byte :=
  match Byte.of_N (n mod 256) with
  | Some b => b
  | None => Byte.x00
  end.

Definition nat_of_byte (b : byte) : nat := N.to_nat (Byte.to_N b).

(** Hexadecimal notation for constants and test vectors. *)
Definition hex_digit (c : ascii) : N :=
  let n := N_of_ascii c in
  if (48 <=? n)%N && (n <=? 57)%N then n - 48
  else if (97 <=? n)%N && (n <=? 102)%N then n - 87
  else if (65 <=? n)%N && (n <=? 70)%N then n - 55
  else 0.

Fixpoint bytes_of_hex (s : string) : list byte :=
  match s with
  | String h (String l s') =>
      byte_of_N (16 * hex_digit h + hex_digit l) :: bytes_of_hex s'
  | _ => []
  end.

(** Split a buffer into consecutive chunks of [n] bytes; a shorter
    tail is kept as the last chunk.  [fuel] bounds the number of
    chunks and [length l] always suffices. *)
Fixpoint chunks_fuel {A} (fuel n : nat) (l : list A) : list (list A) :=
  match fuel, l with
  | _, [] => []
  | 0, _ => []
  | S f, _ => firstn n l :: chunks_fuel f n (skipn n l)
  end.

Definition chunks {A} (n : nat) (l : list A) : list (list A) :=
  chunks_fuel (length l) n l.

End Bytes.
Import Bytes.

(* ================================================================== *)
(** * libcrypto: MD5 (RFC 1321) *)
(* ================================================================== *)

Module MD5.

Local Open Scope N_scope.

Definition mask32 : N := 0xFFFFFFFF.
Definition add32 (a b : N) : N := (a + b) mod 0x100000000.
Definition not32 (a : N) : N := N.lxor (N.land a mask32) mask32.
Definition rotl32 (x c : N) : N :=
  N.lor (N.land (N.shiftl x c) mask32) (N.shiftr (N.land x mask32) (32 - c)).

(** Little-endian encoding of 32-bit words. *)
Definition decode_word (l : list byte) : N :=
  fold_right (fun b acc => Byte.to_N b + 256 * acc) 0 l.

Definition encode_word (w : N) : list byte :=
  [byte_of_N w; byte_of_N (N.shiftr w 8);
   byte_of_N (N.shiftr w 16); byte_of_N (N.shiftr w 24)].

(** Big-endian reading of a hexadecimal constant. *)
Definition word_of_hex (l : list byte) : N :=
  fold_left (fun acc b => 256 * acc + Byte.to_N b) l 0.

(** T[i] = floor (2^32 * abs (sin (i + 1))). *)
Definition T : list N :=
  map word_of_hex (chunks 4 (bytes_of_hex
    ("d76aa478e8c7b756242070dbc1bdceeef57c0faf4787c62aa8304613fd469501" ++
     "698098d88b44f7afffff5bb1895cd7be6b901122fd987193a679438e49b40821" ++
     "f61e2562c040b340265e5a51e9b6c7aad62f105d02441453d8a1e681e7d3fbc8" ++
     "21e1cde6c33707d6f4d50d87455a14eda9e3e905fcefa3f8676f02d98d2a4c8a" ++
     "fffa39428771f6816d9d6122fde5380ca4beea444bdecfa9f6bb4b60bebfbc70" ++
     "289b7ec6eaa127fad4ef308504881d05d9d4d039e6db99e51fa27cf8c4ac5665" ++
     "f4292244432aff97ab9423a7fc93a039655b59c38f0ccc92ffeff47d85845dd1" ++
     "6fa87e4ffe2ce6e0a30143144e0811a1f7537e82bd3af2352ad7d2bbeb86d391")%string)).

(** Per-round left-rotation amounts. *)
Definition S : list N :=
  [7; 12; 17; 22; 7; 12; 17; 22; 7; 12; 17; 22; 7; 12; 17; 22;
   5;  9; 14; 20; 5;  9; 14; 20; 5;  9; 14; 20; 5;  9; 14; 20;
   4; 11; 16; 23; 4; 11; 16; 23; 4; 11; 16; 23; 4; 11; 16; 23;
   6; 10; 15; 21; 6; 10; 15; 21; 6; 10; 15; 21; 6; 10; 15; 21].

Definition md_buffer : Type := (N * N * N * N)%type.

Definition init_buffer : md_buffer :=
  (0x67452301, 0xefcdab89, 0x98badcfe, 0x10325476).

(** One of the 64 operations on the block [M] of sixteen words. *)
Definition step (M : list N) (st : md_buffer) (i : nat) : md_buffer :=
  let '(a, b, c, d) := st in
  let '(f, g) :=
    if (i <? 16)%nat then
      (N.lor (N.land b c) (N.land (not32 b) d), i)
    else if (i <? 32)%nat then
      (N.lor (N.land d b) (N.land (not32 d) c), (5 * i + 1) mod 16)%nat
    else if (i <? 48)%nat then
      (N.lxor (N.lxor b c) d, (3 * i + 5) mod 16)%nat
    else
      (N.lxor c (N.lor b (not32 d)), (7 * i) mod 16)%nat in
  let x := add32 (add32 (add32 a f) (nth i T 0)) (nth g M 0) in
  (d, add32 b (rotl32 x (nth i S 0)), b, c).

Definition process_block (st : md_buffer) (block : list byte) : md_buffer :=
  let M := map decode_word (chunks 4 block) in
  let '(a, b, c, d) := st in
  let '(a', b', c', d') := fold_left (step M) (seq 0 64) st in
  (add32 a a', add32 b b', add32 c c', add32 d d').

(** Message padding: a one bit, zero bits up to 56 mod 64 bytes, then
    the bit length on 64 bits, low-order byte first. *)
Definition pad (msg : list byte) : list byte :=
  let n := length msg in
  let zeros := ((119 - n mod 64) mod 64)%nat in
  let bitlen := (8 * N.of_nat n) mod 0x10000000000000000 in
  msg ++ Byte.x80 :: repeat Byte.x00 zeros
      ++ encode_word (bitlen mod 0x100000000)
      ++ encode_word (N.shiftr bitlen 32).

Definition digest_of_buffer (st : md_buffer) : list byte :=
  let '(a, b, c, d) := st in
  encode_word a ++ encode_word b ++ encode_word c ++ encode_word d.

(** The 16-byte digest of a message. *)
Definition md5 (msg : list byte) : list byte :=
  digest_of_buffer (fold_left process_block (chunks 64 (pad msg)) init_buffer).

(** [MD5_CTX]: the context is represented by the bytes absorbed so far. *)
Definition MD5_CTX : Type := list byte.
Definition MD5_Init : MD5_CTX := [].
Definition MD5_Update (ctx : MD5_CTX) (data : list byte) : MD5_CTX :=
  ctx ++ data.
Definition MD5_Final (ctx : MD5_CTX) : list byte := md5 ctx.

End MD5.

(* ================================================================== *)
(** * libcrypto: RC4 *)
(* ================================================================== *)

Module RC4.

(** [RC4_KEY]: the two indices and the 256-entry permutation. *)
Record RC4_KEY : Type := mkRC4 { x : nat; y : nat; data : list nat }.

Definition upd (l : list nat) (i v : nat) : list nat :=
  firstn i l ++ v :: skipn (S i) l.

(** Key schedule: [RC4_set_key (key, len, data)]. *)
Definition ksa_step (key : list byte) (st : nat * list nat) (i : nat)
  : nat * list nat :=
  let '(j, d) := st in
  let si := nth i d 0 in
  let k := nat_of_byte (nth (i mod length key) key Byte.x00) in
  let j' := (j + si + k) mod 256 in
  (j', upd (upd d i (nth j' d 0)) j' si).

Definition RC4_set_key (key : list byte) : RC4_KEY :=
  mkRC4 0 0 (snd (fold_left (ksa_step key) (seq 0 256) (0, seq 0 256))).

(** One step of the generator: the next state and the key-stream byte. *)
Definition next (k : RC4_KEY) : RC4_KEY * byte :=
  let x' := (x k + 1) mod 256 in
  let tx := nth x' (data k) 0 in
  let y' := (tx + y k) mod 256 in
  let ty := nth y' (data k) 0 in
  let d' := upd (upd (data k) x' ty) y' tx in
  (mkRC4 x' y' d', byte_of_N (N.of_nat (nth ((tx + ty) mod 256) d' 0))).

(** [RC4 (key, len, indata, outdata)]. *)
Fixpoint RC4 (k : RC4_KEY) (indata : list byte) : RC4_KEY * list byte :=
  match indata with
  | [] => (k, [])
  | b :: rest =>
      let '(k1, ks) := next k in
      let '(k2, out) := RC4 k1 rest in
      (k2, byte_xor ks b :: out)
  end.

End RC4.

(* ================================================================== *)
(** * libcrypto: AES (FIPS 197) *)
(* ================================================================== *)

Module AES.

(** Multiplication by x in GF(2^8) modulo x^8 + x^4 + x^3 + x + 1. *)
Definition bits8_xtime (b : bits8) : bits8 :=
  let '(b0, (b1, (b2, (b3, (b4, (b5, (b6, b7))))))) := b in
  (b7, (xorb b0 b7, (b1, (xorb b2 b7, (xorb b3 b7, (b4, (b5, b6))))))).

Definition xtime (b : byte) : byte :=
  Byte.of_bits (bits8_xtime (Byte.to_bits b)).

Definition bits_list (b : byte) : list bool :=
  let '(b0, (b1, (b2, (b3, (b4, (b5, (b6, b7))))))) := Byte.to_bits b in
  [b0; b1; b2; b3; b4; b5; b6; b7].

Fixpoint gmul_bits (a : byte) (bs : list bool) : byte :=
  match bs with
  | [] => Byte.x00
  | bit :: rest =>
      byte_xor (if bit then a else Byte.x00) (xtime (gmul_bits a rest))
  end.

(** The product of the field. *)
Definition gmul (a b : byte) : byte := gmul_bits a (bits_list b).

Definition gsquare (a : byte) : byte := gmul a a.

(** The multiplicative inverse, a^254, with 0 mapped to 0. *)
Definition ginv (a : byte) : byte :=
  let a2 := gsquare a in
  let a4 := gsquare a2 in
  let a8 := gsquare a4 in
  let a16 := gsquare a8 in
  let a32 := gsquare a16 in
  let a64 := gsquare a32 in
  let a128 := gsquare a64 in
  gmul a128 (gmul a64 (gmul a32 (gmul a16 (gmul a8 (gmul a4 a2))))).

(** The affine transformation of the S-box (FIPS 197, 5.1.1). *)
Definition affine (b : byte) : byte :=
  let '(b0, (b1, (b2, (b3, (b4, (b5, (b6, b7))))))) := Byte.to_bits b in
  let x4 (p q r s t : bool) := xorb (xorb (xorb (xorb p q) r) s) t in
  Byte.of_bits
    (negb (x4 b0 b4 b5 b6 b7), (negb (x4 b1 b5 b6 b7 b0),
    (x4 b2 b6 b7 b0 b1, (x4 b3 b7 b0 b1 b2,
    (x4 b4 b0 b1 b2 b3, (negb (x4 b5 b1 b2 b3 b4),
    (negb (x4 b6 b2 b3 b4 b5), x4 b7 b3 b4 b5 b6))))))).

Definition all_bytes : list byte :=
  map (fun n => byte_of_N (N.of_nat n)) (seq 0 256).

Definition sbox_table : list byte :=
  Eval vm_compute in map (fun b => affine (ginv b)) all_bytes.

Definition sbox (b : byte) : byte := nth (nat_of_byte b) sbox_table Byte.x00.

Definition inv_sbox_table : list byte :=
  Eval vm_compute in
    map (fun c =>
           match find (fun b => Byte.eqb (sbox b) c) all_bytes with
           | Some b => b
           | None => Byte.x00
           end) all_bytes.

Definition inv_sbox (b : byte) : byte :=
  nth (nat_of_byte b) inv_sbox_table Byte.x00.

(** A column of the state is a 32-bit word; the state is four columns. *)
Definition word : Type := (byte * byte * byte * byte)%type.
Definition state : Type := (word * word * word * word)%type.

Definition word_map (f : byte -> byte) (w : word) : word :=
  let '(a, b, c, d) := w in (f a, f b, f c, f d).

Definition word_xor (v w : word) : word :=
  let '(a, b, c, d) := v in
  let '(a', b', c', d') := w in
  (byte_xor a a', byte_xor b b', byte_xor c c', byte_xor d d').

Definition state_map (f : word -> word) (s : state) : state :=
  let '(c0, c1, c2, c3) := s in (f c0, f c1, f c2, f c3).

Definition SubBytes : state -> state := state_map (word_map sbox).
Definition InvSubBytes : state -> state := state_map (word_map inv_sbox).

Definition ShiftRows (s : state) : state :=
  let '((a0, a1, a2, a3), (b0, b1, b2, b3),
        (c0, c1, c2, c3), (d0, d1, d2, d3)) := s in
  ((a0, b1, c2, d3), (b0, c1, d2, a3), (c0, d1, a2, b3), (d0, a1, b2, c3)).

Definition InvShiftRows (s : state) : state :=
  let '((a0, a1, a2, a3), (b0, b1, b2, b3),
        (c0, c1, c2, c3), (d0, d1, d2, d3)) := s in
  ((a0, d1, c2, b3), (b0, a1, d2, c3), (c0, b1, a2, d3), (d0, c1, b2, a3)).

Definition x3 (b : byte) : byte := byte_xor (xtime b) b.
Definition x9 (b : byte) : byte := byte_xor (xtime (xtime (xtime b))) b.
Definition x11 (b : byte) : byte :=
  byte_xor (byte_xor (xtime (xtime (xtime b))) (xtime b)) b.
Definition x13 (b : byte) : byte :=
  byte_xor (byte_xor (xtime (xtime (xtime b))) (xtime (xtime b))) b.
Definition x14 (b : byte) : byte :=
  byte_xor (byte_xor (xtime (xtime (xtime b))) (xtime (xtime b))) (xtime b).

Definition xor4 (a b c d : byte) : byte :=
  byte_xor (byte_xor (byte_xor a b) c) d.

Definition mix_column (w : word) : word :=
  let '(a0, a1, a2, a3) := w in
  (xor4 (xtime a0) (x3 a1) a2 a3,
   xor4 a0 (xtime a1) (x3 a2) a3,
   xor4 a0 a1 (xtime a2) (x3 a3),
   xor4 (x3 a0) a1 a2 (xtime a3)).

Definition inv_mix_column (w : word) : word :=
  let '(a0, a1, a2, a3) := w in
  (xor4 (x14 a0) (x11 a1) (x13 a2) (x9 a3),
   xor4 (x9 a0) (x14 a1) (x11 a2) (x13 a3),
   xor4 (x13 a0) (x9 a1) (x14 a2) (x11 a3),
   xor4 (x11 a0) (x13 a1) (x9 a2) (x14 a3)).

Definition MixColumns : state -> state := state_map mix_column.
Definition InvMixColumns : state -> state := state_map inv_mix_column.

Definition AddRoundKey (k s : state) : state :=
  let '(k0, k1, k2, k3) := k in
  let '(c0, c1, c2, c3) := s in
  (word_xor c0 k0, word_xor c1 k1, word_xor c2 k2, word_xor c3 k3).

(** Key expansion (FIPS 197, 5.2). *)
Definition zero_word : word := (Byte.x00, Byte.x00, Byte.x00, Byte.x00).

Definition RotWord (w : word) : word :=
  let '(a, b, c, d) := w in (b, c, d, a).

Definition SubWord : word -> word := word_map sbox.

(** Rcon[j] = (x^(j-1), 0, 0, 0). *)
Definition Rcon (j : nat) : word :=
  (Nat.iter (j - 1) xtime Byte.x01, Byte.x00, Byte.x00, Byte.x00).

Fixpoint words_of_bytes (l : list byte) : list word :=
  match l with
  | a :: b :: c :: d :: l' => (a, b, c, d) :: words_of_bytes l'
  | _ => []
  end.

Definition expand_step (Nk : nat) (w : list word) : list word :=
  let i := length w in
  let prev := nth (i - 1) w zero_word in
  let temp :=
    if i mod Nk =? 0 then word_xor (SubWord (RotWord prev)) (Rcon (i / Nk))
    else if (6 <? Nk) && (i mod Nk =? 4) then SubWord prev
    else prev in
  w ++ [word_xor (nth (i - Nk) w zero_word) temp].

Fixpoint round_keys_of_words (w : list word) : list state :=
  match w with
  | a :: b :: c :: d :: w' => (a, b, c, d) :: round_keys_of_words w'
  | _ => []
  end.

(** The Nr + 1 round keys of a key of Nk words (Nk = 4 or 8). *)
Definition KeyExpansion (key : list byte) : list state :=
  let Nk := length key / 4 in
  let Nr := Nk + 6 in
  round_keys_of_words
    (Nat.iter (4 * (Nr + 1) - Nk) (expand_step Nk) (words_of_bytes key)).

Fixpoint enc_rounds (ks : list state) (s : state) : state :=
  match ks with
  | [] => s
  | [k] => AddRoundKey k (ShiftRows (SubBytes s))
  | k :: ks' => enc_rounds ks' (AddRoundKey k (MixColumns (ShiftRows (SubBytes s))))
  end.

Fixpoint dec_rounds (ks : list state) (s : state) : state :=
  match ks with
  | [] => s
  | [k] => InvSubBytes (InvShiftRows (AddRoundKey k s))
  | k :: ks' =>
      InvSubBytes (InvShiftRows (InvMixColumns (AddRoundKey k (dec_rounds ks' s))))
  end.

Definition Cipher (ks : list state) (s : state) : state :=
  match ks with
  | [] => s
  | k0 :: ks' => enc_rounds ks' (AddRoundKey k0 s)
  end.

Definition InvCipher (ks : list state) (s : state) : state :=
  match ks with
  | [] => s
  | k0 :: ks' => AddRoundKey k0 (dec_rounds ks' s)
  end.

Definition state_of_bytes (l : list byte) : state :=
  match words_of_bytes l with
  | [c0; c1; c2; c3] => (c0, c1, c2, c3)
  | _ => (zero_word, zero_word, zero_word, zero_word)
  end.

Definition bytes_of_word (w : word) : list byte :=
  let '(a, b, c, d) := w in [a; b; c; d].

Definition bytes_of_state (s : state) : list byte :=
  let '(c0, c1, c2, c3) := s in
  bytes_of_word c0 ++ bytes_of_word c1 ++ bytes_of_word c2 ++ bytes_of_word c3.

(** [AES_KEY]: the expanded key, as [AES_set_encrypt_key] and
    [AES_set_decrypt_key] prepare it. *)
Definition AES_KEY : Type := list state.

Definition AES_set_key (key : list byte) : AES_KEY := KeyExpansion key.

(** [AES_encrypt] and [AES_decrypt] on one 16-byte block. *)
Definition AES_encrypt (ks : AES_KEY) (block : list byte) : list byte :=
  bytes_of_state (Cipher ks (state_of_bytes block)).

Definition AES_decrypt (ks : AES_KEY) (block : list byte) : list byte :=
  bytes_of_state (InvCipher ks (state_of_bytes block)).

End AES.

(* ================================================================== *)
(** * libcrypto: DES (FIPS 46-3) and the DESX whitening *)
(* ================================================================== *)

Module DES.

(** Bit strings are numbered from 1, most significant bit first, as in
    the standard. *)
Definition bits_of_byte (b : byte) : list bool :=
  let '(b0, (b1, (b2, (b3, (b4, (b5, (b6, b7))))))) := Byte.to_bits b in
  [b7; b6; b5; b4; b3; b2; b1; b0].

Definition bits_of_bytes (l : list byte) : list bool :=
  flat_map bits_of_byte l.

Fixpoint bytes_of_bits (l : list bool) : list byte :=
  match l with
  | b7 :: b6 :: b5 :: b4 :: b3 :: b2 :: b1 :: b0 :: l' =>
      Byte.of_bits (b0, (b1, (b2, (b3, (b4, (b5, (b6, b7)))))))
        :: bytes_of_bits l'
  | _ => []
  end.

Definition permute (t : list nat) (l : list bool) : list bool :=
  map (fun i => nth (i - 1) l false) t.

Fixpoint xor_bits (a b : list bool) : list bool :=
  match a, b with
  | x :: a', y :: b' => xorb x y :: xor_bits a' b'
  | _, _ => []
  end.

Definition rotl (n : nat) (l : list bool) : list bool :=
  skipn n l ++ firstn n l.

Definition IP : list nat :=
  [58; 50; 42; 34; 26; 18; 10; 2;  60; 52; 44; 36; 28; 20; 12; 4;
   62; 54; 46; 38; 30; 22; 14; 6;  64; 56; 48; 40; 32; 24; 16; 8;
   57; 49; 41; 33; 25; 17;  9; 1;  59; 51; 43; 35; 27; 19; 11; 3;
   61; 53; 45; 37; 29; 21; 13; 5;  63; 55; 47; 39; 31; 23; 15; 7].

Definition FP : list nat :=
  [40; 8; 48; 16; 56; 24; 64; 32;  39; 7; 47; 15; 55; 23; 63; 31;
   38; 6; 46; 14; 54; 22; 62; 30;  37; 5; 45; 13; 53; 21; 61; 29;
   36; 4; 44; 12; 52; 20; 60; 28;  35; 3; 43; 11; 51; 19; 59; 27;
   34; 2; 42; 10; 50; 18; 58; 26;  33; 1; 41;  9; 49; 17; 57; 25].

Definition E : list nat :=
  [32;  1;  2;  3;  4;  5;   4;  5;  6;  7;  8;  9;
    8;  9; 10; 11; 12; 13;  12; 13; 14; 15; 16; 17;
   16; 17; 18; 19; 20; 21;  20; 21; 22; 23; 24; 25;
   24; 25; 26; 27; 28; 29;  28; 29; 30; 31; 32;  1].

Definition P : list nat :=
  [16;  7; 20; 21; 29; 12; 28; 17;   1; 15; 23; 26;  5; 18; 31; 10;
    2;  8; 24; 14; 32; 27;  3;  9;  19; 13; 30;  6; 22; 11;  4; 25].

Definition PC1 : list nat :=
  [57; 49; 41; 33; 25; 17;  9;   1; 58; 50; 42; 34; 26; 18;
   10;  2; 59; 51; 43; 35; 27;  19; 11;  3; 60; 52; 44; 36;
   63; 55; 47; 39; 31; 23; 15;   7; 62; 54; 46; 38; 30; 22;
   14;  6; 61; 53; 45; 37; 29;  21; 13;  5; 28; 20; 12;  4].

Definition PC2 : list nat :=
  [14; 17; 11; 24;  1;  5;   3; 28; 15;  6; 21; 10;
   23; 19; 12;  4; 26;  8;  16;  7; 27; 20; 13;  2;
   41; 52; 31; 37; 47; 55;  30; 40; 51; 45; 33; 48;
   44; 49; 39; 56; 34; 53;  46; 42; 50; 36; 29; 32].

Definition shifts : list nat :=
  [1; 1; 2; 2; 2; 2; 2; 2; 1; 2; 2; 2; 2; 2; 2; 1].

(** The eight selection functions S1..S8: four rows of sixteen
    hexadecimal digits each. *)
Definition Sboxes : list (list ascii) :=
  map list_ascii_of_string
    ["e4d12fb83a6c59070f74e2d1a6cb953841e8d62bfc973a50fc8249175b3ea06d";
     "f18e6b34972dc05a3d47f28ec01a69b50e7ba4d158c6932fd8a13f42b67c05e9";
     "a09e63f51dc7b428d709346a285ecbf1d6498f30b12c5ae71ad069874fe3b52c";
     "7de3069a1285bc4fd8b56f03472c1ae9a690cb7df13e52843f06a1d8945bc72e";
     "2c417ab6853fd0e9eb2c47d150fa3986421bad78f9c5630eb8c71e2d6f09a453";
     "c1af92680d34e75baf427c9561de0b389ef528c3704a1db6432c95fabe17608d";
     "4b2ef08d3c975a61d0b7491ae35c2f8614bdc37eaf6805926bd814a7950fe23c";
     "d2846fb1a93e50c71fd8a374c56b0e927b419ce206adf35821e74a8dfc90356b"]%string.

Definition nat_of_bits (l : list bool) : nat :=
  fold_left (fun acc (b : bool) => 2 * acc + (if b then 1 else 0)) l 0.

(** Six bits b1..b6 select row b1 b6 and column b2 b3 b4 b5. *)
Definition select (i : nat) (b : list bool) : list bool :=
  let row := nat_of_bits [nth 0 b false; nth 5 b false] in
  let col := nat_of_bits (firstn 4 (skipn 1 b)) in
  let v := hex_digit (nth (16 * row + col) (nth i Sboxes []) "0"%char) in
  [N.testbit v 3; N.testbit v 2; N.testbit v 1; N.testbit v 0].

(** The cipher function f (R, K). *)
Definition f (r k : list bool) : list bool :=
  let x := xor_bits (permute E r) k in
  permute P (flat_map (fun i => select i (firstn 6 (skipn (6 * i) x))) (seq 0 8)).

(** [DES_key_schedule]: the sixteen 48-bit round keys. *)
Definition DES_key_schedule : Type := list (list bool).

Fixpoint schedule (sh : list nat) (c d : list bool) : DES_key_schedule :=
  match sh with
  | [] => []
  | s :: sh' =>
      let c' := rotl s c in
      let d' := rotl s d in
      permute PC2 (c' ++ d') :: schedule sh' c' d'
  end.

Definition DES_set_key_unchecked (key : list byte) : DES_key_schedule :=
  let k := permute PC1 (bits_of_bytes key) in
  schedule shifts (firstn 28 k) (skipn 28 k).

Fixpoint feistel (ks : DES_key_schedule) (l r : list bool)
  : list bool * list bool :=
  match ks with
  | [] => (l, r)
  | k :: ks' => feistel ks' r (xor_bits l (f r k))
  end.

Definition crypt_bits (ks : DES_key_schedule) (x : list bool) : list bool :=
  let x' := permute IP x in
  let '(l, r) := feistel ks (firstn 32 x') (skipn 32 x') in
  permute FP (r ++ l).

(** [DES_encrypt1 (data, ks, enc)] on one 8-byte block: decryption runs
    the round keys in the opposite order. *)
Definition DES_encrypt1 (ks : DES_key_schedule) (enc : bool)
           (block : list byte) : list byte :=
  bytes_of_bits (crypt_bits (if enc then ks else rev ks) (bits_of_bytes block)).

(** DESX on one block, as in [DES_xcbc_encrypt]: the input is xored
    with [inw] before DES and the result with [outw] after it. *)
Definition DESX_encrypt (ks : DES_key_schedule) (inw outw : list byte)
           (block : list byte) : list byte :=
  xor_bytes (DES_encrypt1 ks true (xor_bytes block inw)) outw.

Definition DESX_decrypt (ks : DES_key_schedule) (inw outw : list byte)
           (block : list byte) : list byte :=
  xor_bytes (DES_encrypt1 ks false (xor_bytes block outw)) inw.

End DES.

(* ================================================================== *)
(** * Outcomes of C code, C integers and buffers *)
(* ================================================================== *)

(** A call returns, aborts the process through a failed [assert], or has
    undefined behaviour (an access outside a buffer, a division by
    zero, a null dereference). *)
Inductive result (A : Type) : Type :=
| Ok (a : A)
| Abort
| Undefined.

Arguments Ok {A} a.
Arguments Abort {A}.
Arguments Undefined {A}.

Definition bind {A B : Type} (r : result A) (k : A -> result B) : result B :=
  match r with
  | Ok a => k a
  | Abort => Abort
  | Undefined => Undefined
  end.

Notation "x <- r ;; k" := (bind r (fun x => k))
  (at level 61, r at next level, right associativity).
Notation "' p <- r ;; k" := (bind r (fun x => let 'p := x in k))
  (at level 61, p pattern, r at next level, right associativity).

(** [assert (e)] of <assert.h>, compiled without NDEBUG. *)
Definition assert (e : bool) : result unit :=
  if e then Ok tt else Abort.

(** [int] is 32 bits wide and [size_t] 64 bits wide. *)
Definition INT_MAX : Z := 2147483647.

Definition int_of_size_t (n : nat) : Z :=
  let z := (Z.of_nat n mod 2 ^ 32)%Z in
  if (z <=? INT_MAX)%Z then z else (z - 2 ^ 32)%Z.

Definition size_t_of_int (z : Z) : nat := Z.to_nat (z mod 2 ^ 64).

Module Buffer.

(** A buffer is the list of the bytes of a C object; its capacity is the
    length of the list.  Offsets and sizes within one object are below
    SIZE_MAX, so that [size_t] arithmetic on them does not wrap. *)
Definition read (buf : list byte) (off n : nat) : result (list byte) :=
  if off + n <=? length buf then Ok (firstn n (skipn off buf)) else Undefined.

Definition write (buf : list byte) (off : nat) (src : list byte)
  : result (list byte) :=
  if off + length src <=? length buf
  then Ok (firstn off buf ++ src ++ skipn (off + length src) buf)
  else Undefined.

(** [memset (buf + off, c, n)]. *)
Definition memset (buf : list byte) (off : nat) (c : byte) (n : nat)
  : result (list byte) :=
  write buf off (repeat c n).

(** [memcpy (dst + off, src, n)]. *)
Definition memcpy (dst : list byte) (off : nat) (src : list byte) (n : nat)
  : result (list byte) :=
  data <- read src 0 n ;;
  write dst off data.

End Buffer.

(* ================================================================== *)
(** * libcrypto: the EVP cipher interface *)
(* ================================================================== *)

Module EVP.

(** The ciphers [library.c] refers to. *)
Inductive EVP_CIPHER : Type :=
| aes_128_cbc
| aes_256_cbc
| des_cbc
| desx_cbc
| rc4.

Definition EVP_aes_128_cbc (_ : unit) : EVP_CIPHER := aes_128_cbc.
Definition EVP_aes_256_cbc (_ : unit) : EVP_CIPHER := aes_256_cbc.
Definition EVP_des_cbc (_ : unit) : EVP_CIPHER := des_cbc.
Definition EVP_desx_cbc (_ : unit) : EVP_CIPHER := desx_cbc.
Definition EVP_rc4 (_ : unit) : EVP_CIPHER := rc4.

Definition EVP_CIPHER_block_size (c : EVP_CIPHER) : nat :=
  match c with
  | aes_128_cbc | aes_256_cbc => 16
  | des_cbc | desx_cbc => 8
  | rc4 => 1
  end.

Definition EVP_CIPHER_key_length (c : EVP_CIPHER) : nat :=
  match c with
  | aes_128_cbc => 16
  | aes_256_cbc => 32
  | des_cbc => 8
  | desx_cbc => 24
  | rc4 => 16
  end.

Definition EVP_CIPHER_iv_length (c : EVP_CIPHER) : nat :=
  match c with
  | aes_128_cbc | aes_256_cbc => 16
  | des_cbc | desx_cbc => 8
  | rc4 => 0
  end.

(** The algorithm state behind [ctx->cipher_data]. *)
Inductive cipher_state : Type :=
| no_data
| aes_data (ks : AES.AES_KEY)
| des_data (ks : DES.DES_key_schedule)
| desx_data (ks : DES.DES_key_schedule) (inw outw : list byte)
| rc4_data (k : RC4.RC4_KEY).

(** [EVP_CIPHER_CTX]: [buf] holds the bytes of an incomplete block
    ([buf_len] is its length), [final] the block held back by a padded
    decryption. *)
Record EVP_CIPHER_CTX : Type := mkCTX {
  ctx_cipher : option EVP_CIPHER;
  encrypt : bool;
  no_padding : bool;
  iv : list byte;
  buf : list byte;
  final : list byte;
  final_used : bool;
  cipher_data : cipher_state
}.

Definition set_buf (ctx : EVP_CIPHER_CTX) (b : list byte) : EVP_CIPHER_CTX :=
  mkCTX (ctx_cipher ctx) (encrypt ctx) (no_padding ctx) (iv ctx) b
        (final ctx) (final_used ctx) (cipher_data ctx).

Definition set_iv (ctx : EVP_CIPHER_CTX) (v : list byte) : EVP_CIPHER_CTX :=
  mkCTX (ctx_cipher ctx) (encrypt ctx) (no_padding ctx) v (buf ctx)
        (final ctx) (final_used ctx) (cipher_data ctx).

Definition set_data (ctx : EVP_CIPHER_CTX) (d : cipher_state) : EVP_CIPHER_CTX :=
  mkCTX (ctx_cipher ctx) (encrypt ctx) (no_padding ctx) (iv ctx) (buf ctx)
        (final ctx) (final_used ctx) d.

Definition set_final (ctx : EVP_CIPHER_CTX) (f : list byte) (used : bool)
  : EVP_CIPHER_CTX :=
  mkCTX (ctx_cipher ctx) (encrypt ctx) (no_padding ctx) (iv ctx) (buf ctx)
        f used (cipher_data ctx).

Definition EVP_CIPHER_CTX_init : EVP_CIPHER_CTX :=
  mkCTX None false false [] [] [] false no_data.

(** The [init] method of each cipher, on the [key_len] bytes of the key. *)
Definition init_key (c : EVP_CIPHER) (key : list byte) : cipher_state :=
  match c with
  | aes_128_cbc | aes_256_cbc => aes_data (AES.AES_set_key key)
  | des_cbc => des_data (DES.DES_set_key_unchecked key)
  | desx_cbc =>
      desx_data (DES.DES_set_key_unchecked (firstn 8 key))
                (firstn 8 (skipn 8 key)) (firstn 8 (skipn 16 key))
  | rc4 => rc4_data (RC4.RC4_set_key key)
  end.

(** [EVP_CipherInit_ex (ctx, cipher, NULL, key, iv, enc)] with [key] and
    [iv] not null: the flags are cleared, [iv_len] bytes of [iv] become
    the working IV and the key is set up from [key_len] bytes of [key]. *)
Definition EVP_CipherInit_ex (ctx : EVP_CIPHER_CTX) (c : EVP_CIPHER)
           (key iv : list byte) (enc : bool) : result (Z * EVP_CIPHER_CTX) :=
  v <- Buffer.read iv 0 (EVP_CIPHER_iv_length c) ;;
  k <- Buffer.read key 0 (EVP_CIPHER_key_length c) ;;
  Ok (1%Z, mkCTX (Some c) enc false v [] (final ctx) false (init_key c k)).

Definition EVP_EncryptInit_ex (ctx : EVP_CIPHER_CTX) (c : EVP_CIPHER)
           (key iv : list byte) : result (Z * EVP_CIPHER_CTX) :=
  EVP_CipherInit_ex ctx c key iv true.

Definition EVP_DecryptInit_ex (ctx : EVP_CIPHER_CTX) (c : EVP_CIPHER)
           (key iv : list byte) : result (Z * EVP_CIPHER_CTX) :=
  EVP_CipherInit_ex ctx c key iv false.

(** [EVP_CIPHER_CTX_set_padding (ctx, pad)]. *)
Definition EVP_CIPHER_CTX_set_padding (ctx : EVP_CIPHER_CTX) (pad : Z)
  : EVP_CIPHER_CTX :=
  mkCTX (ctx_cipher ctx) (encrypt ctx) (pad =? 0)%Z (iv ctx) (buf ctx)
        (final ctx) (final_used ctx) (cipher_data ctx).

Definition block_encrypt (d : cipher_state) (b : list byte) : list byte :=
  match d with
  | aes_data ks => AES.AES_encrypt ks b
  | des_data ks => DES.DES_encrypt1 ks true b
  | desx_data ks inw outw => DES.DESX_encrypt ks inw outw b
  | _ => b
  end.

Definition block_decrypt (d : cipher_state) (b : list byte) : list byte :=
  match d with
  | aes_data ks => AES.AES_decrypt ks b
  | des_data ks => DES.DES_encrypt1 ks false b
  | desx_data ks inw outw => DES.DESX_decrypt ks inw outw b
  | _ => b
  end.

(** Cipher block chaining over whole blocks; the second component is
    the chaining value left in [ctx->iv]. *)
Fixpoint cbc_encrypt (d : cipher_state) (v : list byte)
         (blocks : list (list byte)) : list byte * list byte :=
  match blocks with
  | [] => ([], v)
  | p :: rest =>
      let c := block_encrypt d (xor_bytes p v) in
      let '(out, v') := cbc_encrypt d c rest in
      (c ++ out, v')
  end.

Fixpoint cbc_decrypt (d : cipher_state) (v : list byte)
         (blocks : list (list byte)) : list byte * list byte :=
  match blocks with
  | [] => ([], v)
  | c :: rest =>
      let p := xor_bytes (block_decrypt d c) v in
      let '(out, v') := cbc_decrypt d c rest in
      (p ++ out, v')
  end.

(** The [do_cipher] method; the EVP layer only passes whole blocks to
    the block ciphers. *)
Definition do_cipher (ctx : EVP_CIPHER_CTX) (input : list byte)
  : EVP_CIPHER_CTX * list byte :=
  match ctx_cipher ctx, cipher_data ctx with
  | Some rc4, rc4_data k =>
      let '(k', out) := RC4.RC4 k input in
      (set_data ctx (rc4_data k'), out)
  | Some c, d =>
      let blocks := chunks (EVP_CIPHER_block_size c) input in
      let '(out, v') :=
        if encrypt ctx then cbc_encrypt d (iv ctx) blocks
        else cbc_decrypt d (iv ctx) blocks in
      (set_iv ctx v', out)
  | None, _ => (ctx, [])
  end.

Local Open Scope Z_scope.

(** The common tail of [EVP_EncryptUpdate]: the whole blocks of [src]
    are processed and the remaining bytes are kept in [ctx->buf]. *)
Definition update_blocks (ctx : EVP_CIPHER_CTX) (bl : nat) (src : list byte)
           (out0 : list byte) (outl0 : Z)
  : result (Z * EVP_CIPHER_CTX * list byte * Z) :=
  let inl := Z.of_nat (length src) in
  let i := Z.land inl (Z.of_nat bl - 1) in
  let n := inl - i in
  let '(ctx1, out1) :=
    if 0 <? n then do_cipher ctx (firstn (Z.to_nat n) src) else (ctx, []) in
  Ok (1, set_buf ctx1 (skipn (Z.to_nat n) src), out0 ++ out1,
      if 0 <? n then outl0 + n else outl0).

(** [EVP_EncryptUpdate (ctx, out, &outl, in, inl)]: the return value,
    the context, the bytes written at [out] and [outl]. *)
Definition EVP_EncryptUpdate (ctx : EVP_CIPHER_CTX) (input : list byte)
           (inl : Z) : result (Z * EVP_CIPHER_CTX * list byte * Z) :=
  match ctx_cipher ctx with
  | None => Undefined
  | Some c =>
      if inl <=? 0 then Ok ((if inl =? 0 then 1 else 0), ctx, [], 0)
      else
        src <- Buffer.read input 0 (Z.to_nat inl) ;;
        let bl := EVP_CIPHER_block_size c in
        let i := length (buf ctx) in
        if (i =? 0)%nat && (Z.land inl (Z.of_nat bl - 1) =? 0) then
          let '(ctx', out) := do_cipher ctx src in
          Ok (1, ctx', out, inl)
        else if (i =? 0)%nat then
          update_blocks ctx bl src [] 0
        else if inl <? Z.of_nat (bl - i) then
          Ok (1, set_buf ctx (buf ctx ++ src), [], 0)
        else
          let j := (bl - i)%nat in
          let '(ctx1, out1) := do_cipher ctx (buf ctx ++ firstn j src) in
          update_blocks ctx1 bl (skipn j src) out1 (Z.of_nat bl)
  end.

(** [EVP_EncryptFinal_ex (ctx, out, &outl)]. *)
Definition EVP_EncryptFinal_ex (ctx : EVP_CIPHER_CTX)
  : result (Z * EVP_CIPHER_CTX * list byte * Z) :=
  match ctx_cipher ctx with
  | None => Undefined
  | Some c =>
      let b := EVP_CIPHER_block_size c in
      let bl := length (buf ctx) in
      if (b =? 1)%nat then Ok (1, ctx, [], 0)
      else if no_padding ctx then
        if (bl =? 0)%nat then Ok (1, ctx, [], 0) else Ok (0, ctx, [], 0)
      else
        let n := (b - bl)%nat in
        let '(ctx', out) :=
          do_cipher ctx (buf ctx ++ repeat (byte_of_N (N.of_nat n)) n) in
        Ok (1, ctx', out, Z.of_nat b)
  end.

(** [EVP_DecryptUpdate (ctx, out, &outl, in, inl)]. *)
Definition EVP_DecryptUpdate (ctx : EVP_CIPHER_CTX) (input : list byte)
           (inl : Z) : result (Z * EVP_CIPHER_CTX * list byte * Z) :=
  match ctx_cipher ctx with
  | None => Undefined
  | Some c =>
      if inl <=? 0 then Ok ((if inl =? 0 then 1 else 0), ctx, [], 0)
      else if no_padding ctx then EVP_EncryptUpdate ctx input inl
      else
        let b := EVP_CIPHER_block_size c in
        let held := if final_used ctx then final ctx else [] in
        '(ret, ctx1, out1, outl1) <- EVP_EncryptUpdate ctx input inl ;;
        if ret =? 0 then Ok (0, ctx1, held ++ out1, outl1)
        else
          let keep := (1 <? b)%nat && (length (buf ctx1) =? 0)%nat in
          let outl2 := if keep then outl1 - Z.of_nat b else outl1 in
          let ctx2 :=
            if keep
            then set_final ctx1 (firstn b (skipn (Z.to_nat outl2) out1)) true
            else set_final ctx1 (final ctx1) false in
          Ok (1, ctx2, held ++ out1,
              if final_used ctx then outl2 + Z.of_nat b else outl2)
  end.

(** [EVP_DecryptFinal_ex (ctx, out, &outl)]. *)
Definition EVP_DecryptFinal_ex (ctx : EVP_CIPHER_CTX)
  : result (Z * EVP_CIPHER_CTX * list byte * Z) :=
  match ctx_cipher ctx with
  | None => Undefined
  | Some c =>
      let b := EVP_CIPHER_block_size c in
      if no_padding ctx then
        if (length (buf ctx) =? 0)%nat then Ok (1, ctx, [], 0)
        else Ok (0, ctx, [], 0)
      else if (1 <? b)%nat then
        if negb (length (buf ctx) =? 0)%nat || negb (final_used ctx)
        then Ok (0, ctx, [], 0)
        else
          let n := nat_of_byte (nth (b - 1) (final ctx) Byte.x00) in
          if (n =? 0)%nat || (b <? n)%nat then Ok (0, ctx, [], 0)
          else if forallb (fun x => (nat_of_byte x =? n)%nat)
                          (skipn (b - n) (firstn b (final ctx)))
          then Ok (1, ctx, firstn (b - n) (final ctx), Z.of_nat (b - n))
          else Ok (0, ctx, [], 0)
      else Ok (1, ctx, [], 0)
  end.

End EVP.

(* ================================================================== *)
(** * libc: strings *)
(* ================================================================== *)

Module Libc.

Local Open Scope Z_scope.

(** A [string] stands for the C string it starts with: the characters
    before the first NUL, the end of the [string] being read as the
    terminator. *)
Definition char_at (s : string) : Z :=
  match s with
  | EmptyString => 0
  | String c _ => Z.of_N (N_of_ascii c)
  end.

(** [tolower] in the C locale. *)
Definition tolower (c : Z) : Z :=
  if (65 <=? c) && (c <=? 90) then c + 32 else c.

(** [strcasecmp (s1, s2)]: the difference of the first two characters
    that differ once lowered, 0 when there is none. *)
Fixpoint strcasecmp (s1 s2 : string) : Z :=
  let c1 := tolower (char_at s1) in
  let c2 := tolower (char_at s2) in
  if c1 =? c2 then
    match s1, s2 with
    | String _ t1, String _ t2 => if c1 =? 0 then 0 else strcasecmp t1 t2
    | _, _ => 0
    end
  else c1 - c2.

Fixpoint strlen (s : string) : nat :=
  match s with
  | EmptyString => 0%nat
  | String c t => if char_at s =? 0 then 0%nat else S (strlen t)
  end.

(** The bytes of the C string, without the terminator. *)
Definition bytes_of_c_string (s : string) : list byte :=
  firstn (strlen s) (list_byte_of_string s).

(** [strncpy (dst, src, n)]: the characters of [src], at most [n] of
    them, then NULs up to [n] bytes in all; no terminator is written
    when [src] has [n] characters or more. *)
Definition strncpy (dst : list byte) (src : string) (n : nat)
  : result (list byte) :=
  let s := bytes_of_c_string src in
  Buffer.write dst 0 (firstn n s ++ repeat Byte.x00 (n - length s)).

(** [strchr (buf + off, c)] as an offset into [buf]: the first byte equal
    to [c] up to and including the terminator; [None] is the NULL
    pointer. *)
Fixpoint strchr_from (l : list byte) (i : nat) (c : byte)
  : result (option nat) :=
  match l with
  | [] => Undefined
  | b :: t =>
      if Byte.eqb b c then Ok (Some i)
      else if Byte.eqb b Byte.x00 then Ok None
      else strchr_from t (S i) c
  end.

Definition strchr (buf : list byte) (off : nat) (c : byte)
  : result (option nat) :=
  strchr_from (skipn off buf) off c.

(** The C string that a callee reads at [buf + off]. *)
Fixpoint c_string_from (l : list byte) : result string :=
  match l with
  | [] => Undefined
  | b :: t =>
      if Byte.eqb b Byte.x00 then Ok EmptyString
      else s <- c_string_from t ;; Ok (String (ascii_of_byte b) s)
  end.

Definition c_string_at (buf : list byte) (off : nat) : result string :=
  c_string_from (skipn off buf).

End Libc.

(* ================================================================== *)
(** * library.c *)
(* ================================================================== *)

Import EVP.

(** Modelled from the spec: [library.h], which defines the macro, is not
    among the sources.  The spec describes MAX_KEY_SIZE as the static
    upper bound of every key length; 32, the key length of aes-256, is
    the least such bound. *)
Definition CRYPTO_MAX_KEY_SIZE : nat := 32.

(** Modelled from the spec: [library.h], which defines the macro, is not
    among the sources.  It is the declared size of
    [crypto_ivec_initdata], which the spec gives as 32 bytes. *)
Definition CRYPTO_MAX_BLOCK_SIZE : nat := 32.

(** An entry of the table: [cipher] is the libcrypto function that
    returns the descriptor. *)

Record name_cipher_pair : Type := mkPair {
  name : string;
  cipher : unit -> EVP_CIPHER
}.

Definition cipher_pairs : list name_cipher_pair :=
  [ mkPair "aes-128" EVP_aes_128_cbc;
    mkPair "aes-256" EVP_aes_256_cbc;
    mkPair "des" EVP_des_cbc;
    mkPair "desx" EVP_desx_cbc;
    mkPair "rc4" EVP_rc4 ].

(** The loop of [get_crypto_type]: the first entry whose name matches. *)
Fixpoint find_cipher (pairs : list name_cipher_pair) (nm : string)
  : option EVP_CIPHER :=
  match pairs with
  | [] => None
  | p :: rest =>
      if (Libc.strcasecmp (name p) nm =? 0)%Z then Some (cipher p tt)
      else find_cipher rest nm
  end.

(** [get_crypto_type]: [None] is the NULL pointer. *)
Definition get_crypto_type (nm : string) : result (option EVP_CIPHER) :=
  match find_cipher cipher_pairs nm with
  | Some c =>
      _ <- assert (EVP_CIPHER_key_length c <=? CRYPTO_MAX_KEY_SIZE) ;;
      _ <- assert (EVP_CIPHER_iv_length c <=? CRYPTO_MAX_BLOCK_SIZE) ;;
      Ok (Some c)
  | None => Ok None
  end.

(** [get_crypto_type] again, with the values of the two macros of
    [library.h] as parameters: whatever they are, the two [assert] stand
    between the table and the caller. *)
Definition get_crypto_type_with (max_key_size max_block_size : nat)
           (nm : string) : result (option EVP_CIPHER) :=
  match find_cipher cipher_pairs nm with
  | Some c =>
      _ <- assert (EVP_CIPHER_key_length c <=? max_key_size) ;;
      _ <- assert (EVP_CIPHER_iv_length c <=? max_block_size) ;;
      Ok (Some c)
  | None => Ok None
  end.

Definition crypto_ivec_initdata : list byte :=
  [ Byte.xab; Byte.xcd; Byte.xef; Byte.x12; Byte.x34; Byte.x56; Byte.x78; Byte.x90;
    Byte.xab; Byte.xcd; Byte.xef; Byte.x12; Byte.x34; Byte.x56; Byte.x78; Byte.x90;
    Byte.xab; Byte.xcd; Byte.xef; Byte.x12; Byte.x34; Byte.x56; Byte.x78; Byte.x90;
    Byte.xab; Byte.xcd; Byte.xef; Byte.x12; Byte.x34; Byte.x56; Byte.x78; Byte.x90 ].

(** The macro [CRYPTO_DATA_PADDING (data, dlen, bs)]: the buffer and the
    length it leaves. *)
Definition CRYPTO_DATA_PADDING (data : list byte) (dlen bs : nat)
  : result (list byte * nat) :=
  if bs =? 0 then Undefined
  else
    let last_len := dlen mod bs in
    if negb (last_len =? 0) then
      let padding_len := bs - last_len in
      data' <- Buffer.memset data dlen Byte.x00 padding_len ;;
      Ok (data', dlen + padding_len)
    else Ok (data, dlen).

(** The local array [iv] of both engines is not initialised; [junk]
    gives the indeterminate value of each of its bytes. *)
Definition uninitialised (junk : nat -> byte) (n : nat) : list byte :=
  map junk (seq 0 n).

(** [datagram_encrypt (key, cptype, in, out, dlen)], with [cptype] not
    null and [in] and [out] two distinct buffers: the contents of [in]
    and [out] and the value of [*dlen] on return.  [EVP_CIPHER_CTX_cleanup]
    only releases the context. *)
Definition datagram_encrypt (junk : nat -> byte) (key : list byte)
           (cptype : EVP_CIPHER) (in_ out : list byte) (dlen : nat)
  : result (list byte * list byte * nat) :=
  let iv_len := EVP_CIPHER_iv_length cptype in
  let iv := uninitialised junk CRYPTO_MAX_KEY_SIZE in
  let iv_len := if iv_len =? 0 then 16 else iv_len in
  iv <- Buffer.memcpy iv 0 crypto_ivec_initdata iv_len ;;
  '(in_, dlen) <- CRYPTO_DATA_PADDING in_ dlen iv_len ;;
  let ctx := EVP_CIPHER_CTX_init in
  '(r, ctx) <- EVP_EncryptInit_ex ctx cptype key iv ;;
  _ <- assert (negb (r =? 0)%Z) ;;
  let ctx := EVP_CIPHER_CTX_set_padding ctx 0 in
  '(r, ctx, written, outl) <- EVP_EncryptUpdate ctx in_ (int_of_size_t dlen) ;;
  out <- Buffer.write out 0 written ;;
  _ <- assert (negb (r =? 0)%Z) ;;
  '(r, ctx, written, outl2) <- EVP_EncryptFinal_ex ctx ;;
  out <- Buffer.write out (Z.to_nat outl) written ;;
  _ <- assert (negb (r =? 0)%Z) ;;
  Ok (in_, out, size_t_of_int (outl + outl2)).

(** [datagram_decrypt (key, cptype, in, out, dlen)]. *)
Definition datagram_decrypt (junk : nat -> byte) (key : list byte)
           (cptype : EVP_CIPHER) (in_ out : list byte) (dlen : nat)
  : result (list byte * list byte * nat) :=
  let iv_len := EVP_CIPHER_iv_length cptype in
  let iv := uninitialised junk CRYPTO_MAX_KEY_SIZE in
  let iv_len := if iv_len =? 0 then 16 else iv_len in
  iv <- Buffer.memcpy iv 0 crypto_ivec_initdata iv_len ;;
  '(in_, dlen) <- CRYPTO_DATA_PADDING in_ dlen iv_len ;;
  let ctx := EVP_CIPHER_CTX_init in
  '(r, ctx) <- EVP_DecryptInit_ex ctx cptype key iv ;;
  _ <- assert (negb (r =? 0)%Z) ;;
  let ctx := EVP_CIPHER_CTX_set_padding ctx 0 in
  '(r, ctx, written, outl) <- EVP_DecryptUpdate ctx in_ (int_of_size_t dlen) ;;
  out <- Buffer.write out 0 written ;;
  _ <- assert (negb (r =? 0)%Z) ;;
  '(r, ctx, written, outl2) <- EVP_DecryptFinal_ex ctx ;;
  out <- Buffer.write out (Z.to_nat outl) written ;;
  _ <- assert (negb (r =? 0)%Z) ;;
  Ok (in_, out, size_t_of_int (outl + outl2)).

Unset Equations With Funext.

(** The loop of [fill_with_string_md5sum]; [outp] and [oute] are offsets
    into [out], and the distance from [outp] to [oute] decreases. *)
Equations? fill_loop (out : list byte) (outp oute : nat)
  : result (list byte) by wf (oute - outp) lt :=
  fill_loop out outp oute with lt_dec outp oute => {
    | right _ := Ok out
    | left _ with Buffer.memcpy out outp out
                    (if 16 <=? oute - outp then 16 else oute - outp) => {
        | Ok out' := fill_loop out' (outp + 16) oute
        | Abort := Abort
        | Undefined := Undefined } }.
Proof. lia. Qed.

(** [fill_with_string_md5sum (in, out, outlen)]: the contents of [out] on
    return. *)
Definition fill_with_string_md5sum (in_ : string) (out : list byte)
           (outlen : nat) : result (list byte) :=
  let outp := 0 in
  let oute := outp + outlen in
  let ctx := MD5.MD5_Init in
  let ctx := MD5.MD5_Update ctx (Libc.bytes_of_c_string in_) in
  out <- Buffer.write out 0 (MD5.MD5_Final ctx) ;;
  fill_loop out (outp + 16) oute.

(* ================================================================== *)
(** * libc: sockets and name resolution *)
(* ================================================================== *)

Module Netdb.

Local Open Scope Z_scope.

(** The values of <errno.h>, <sys/socket.h> and <netdb.h> on Linux. *)
Definition EAGAIN : Z := 11.
Definition EINVAL : Z := 22.
Definition AF_INET : Z := 2.
Definition SOCK_STREAM : Z := 1.
Definition AI_PASSIVE : Z := 1.

(** [struct sockaddr_in]; [sin_addr] is the member [s_addr]. *)
Record sockaddr_in : Type := mkAddr {
  sin_family : Z;
  sin_port : Z;
  sin_addr : Z;
  sin_zero : list byte
}.

(** [struct addrinfo]; a chain linked by [ai_next] is a list, and
    [None] is the NULL pointer. *)
Record addrinfo : Type := mkInfo {
  ai_flags : Z;
  ai_family : Z;
  ai_socktype : Z;
  ai_protocol : Z;
  ai_addrlen : Z;
  ai_addr : option sockaddr_in;
  ai_canonname : option string
}.

(** What [getaddrinfo (node, service, hints, &res)] answers: the value
    returned and the chain left in [res].  The answer depends on the
    resolver of the host. *)
Definition resolver : Type := string -> string -> addrinfo -> Z * list addrinfo.

End Netdb.

(* ================================================================== *)
(** * library.c: addresses *)
(* ================================================================== *)

Import Netdb.

(** [v4pair_to_sockaddr (pair, sep, addr)]: the value returned and the
    contents of [*addr]; [None] is the NULL pointer. *)
Definition v4pair_to_sockaddr (getaddrinfo : resolver) (junk : nat -> byte)
           (pair : option string) (sep : byte) (addr : sockaddr_in)
  : result (Z * sockaddr_in) :=
  let host := uninitialised junk 64 in
  match pair with
  | None => Ok (0%Z, mkAddr AF_INET 0 0 (sin_zero addr))
  | Some str =>
      host <- Libc.strncpy host str 64 ;;
      host <- Buffer.write host (64 - 1) [Byte.x00] ;;
      portp <- Libc.strchr host 0 sep ;;
      match portp with
      | None => Ok ((- EINVAL)%Z, addr)
      | Some portp =>
          host <- Buffer.write host portp [Byte.x00] ;;
          let portp := portp + 1 in
          let hints := mkInfo AI_PASSIVE AF_INET SOCK_STREAM 0 0 None None in
          node <- Libc.c_string_at host 0 ;;
          service <- Libc.c_string_at host portp ;;
          let '(rc, res) := getaddrinfo node service hints in
          if (rc =? 0)%Z then
            match res with
            | ai :: _ =>
                match ai_addr ai with
                | Some a => Ok (0%Z, a)
                | None => Undefined
                end
            | [] => Undefined
            end
          else Ok ((- EAGAIN)%Z, addr)
      end
  end.

(* ================================================================== *)
(** * The process and the system calls of [do_daemonize] *)
(* ================================================================== *)

Module Unistd.

Local Open Scope Z_scope.

(** What [do_daemonize] acts on in the process that runs it: the file
    each descriptor is open on, the working directory, whether the
    process leads a session, and what was printed on [stderr]. *)
Record process : Type := mkProc {
  fdtab : nat -> option string;
  cwd : string;
  session_leader : bool;
  stderr : list string
}.

(** What the system answers to the calls that can fail: the value of
    [fork] in this process and the text of [strerror (errno)] after it,
    the values of [chdir] and of [open]. *)
Record system : Type := mkSys {
  fork_result : Z;
  fork_error : string;
  chdir_result : Z;
  open_result : Z
}.

(** A call returns to its caller or ends the process. *)
Inductive outcome : Type :=
| Returned (rv : Z) (p : process)
| Exited (status : Z) (p : process).

Definition set_fd (p : process) (fd : nat) (f : option string) : process :=
  mkProc (fun n => if Nat.eqb n fd then f else fdtab p n)
         (cwd p) (session_leader p) (stderr p).

(** [setsid ()] in a process that does not lead a process group. *)
Definition setsid (p : process) : process :=
  mkProc (fdtab p) (cwd p) true (stderr p).

(** [chdir (path)]. *)
Definition chdir (sys : system) (p : process) (path : string) : Z * process :=
  if chdir_result sys =? 0
  then (0, mkProc (fdtab p) path (session_leader p) (stderr p))
  else (chdir_result sys, p).

(** [open (path, flags)]: a descriptor for the file, or -1. *)
Definition open (sys : system) (p : process) (path : string) : Z * process :=
  let fd := open_result sys in
  if 0 <=? fd then (fd, set_fd p (Z.to_nat fd) (Some path)) else (fd, p).

(** [dup2 (oldfd, newfd)]: [newfd] is made to refer to the file of
    [oldfd]; nothing happens when [oldfd] is not open. *)
Definition dup2 (p : process) (oldfd newfd : nat) : process :=
  match fdtab p oldfd with
  | Some f => set_fd p newfd (Some f)
  | None => p
  end.

(** [close (fd)]. *)
Definition close (p : process) (fd : nat) : process := set_fd p fd None.

(** [fprintf (stderr, ...)] with the text once formatted. *)
Definition fprintf_stderr (p : process) (text : string) : process :=
  mkProc (fdtab p) (cwd p) (session_leader p) (stderr p ++ [text]).

End Unistd.

(* ================================================================== *)
(** * library.c: the daemon *)
(* ================================================================== *)

Import Unistd.

(** [do_daemonize ()] in the process that called it, or in its child once
    [fork] has returned 0 there. *)
Definition do_daemonize (sys : system) (p : process) : outcome :=
  let pid := fork_result sys in
  if (pid <? 0)%Z then
    let p := fprintf_stderr p ("*** fork() error: " ++ fork_error sys ++ "."
                               ++ String (ascii_of_nat 10) EmptyString) in
    Returned (-1) p
  else if (0 <? pid)%Z then
    Exited 0 p
  else
    let p := setsid p in
    let '(_, p) := chdir sys p "/tmp" in
    let '(fd, p) := open sys p "/dev/null" in
    let p :=
      if (0 <=? fd)%Z then
        let p := dup2 p (Z.to_nat fd) 0 in
        let p := dup2 p (Z.to_nat fd) 1 in
        let p := dup2 p (Z.to_nat fd) 2 in
        if (2 <? fd)%Z then close p (Z.to_nat fd) else p
      else p in
    Returned 0 p.

(* ================================================================== *)
(** * Vocabulary of the specification and of the proofs *)
(* ================================================================== *)

(** The IV length both engines work with: 16 for a cipher without IV. *)
Definition effective_iv_length (c : EVP_CIPHER) : nat :=
  if EVP_CIPHER_iv_length c =? 0 then 16 else EVP_CIPHER_iv_length c.

(** The number of bytes that separate [len] from the next multiple of
    [bs], and that multiple. *)
Definition padding_length (len bs : nat) : nat := (bs - len mod bs) mod bs.

Definition padded_length (len bs : nat) : nat := len + padding_length len bs.

(** [pad_to_block]: a plaintext followed by zero bytes up to the next
    multiple of [bs]. *)
Definition pad_to_block (bs : nat) (P : list byte) : list byte :=
  P ++ repeat Byte.x00 (padding_length (length P) bs).

(** A buffer whose first [dlen] bytes are the datagram, once padded in
    place: the bytes behind the padding are untouched. *)
Definition padded_buffer (data : list byte) (dlen bs : nat) : list byte :=
  pad_to_block bs (firstn dlen data) ++ skipn (padded_length dlen bs) data.

(** The block functions behind a context keep the block length, and
    decryption undoes encryption. *)
Record good_blocks (d : cipher_state) (bs : nat) : Prop := mkGood {
  enc_length : forall b, length (block_encrypt d b) = bs;
  dec_length : forall b, length (block_decrypt d b) = bs;
  dec_enc : forall b, length b = bs -> block_decrypt d (block_encrypt d b) = b
}.

(** A context between two calls in which nothing is held back. *)
Definition flushed (c : EVP_CIPHER) (ctx : EVP_CIPHER_CTX) : Prop :=
  ctx_cipher ctx = Some c /\ buf ctx = [] /\ no_padding ctx = true.

(** The context both engines work with once initialised: cipher [c],
    the first [key_len] bytes of [key], the first [iv_len] bytes of [v]
    as IV, padding switched off, nothing buffered. *)
Definition ready_ctx (c : EVP_CIPHER) (key v : list byte) (enc : bool)
  : EVP_CIPHER_CTX :=
  mkCTX (Some c) enc true (firstn (EVP_CIPHER_iv_length c) v) [] [] false
        (init_key c (firstn (EVP_CIPHER_key_length c) key)).

(** The local array [iv] once both engines have copied the constant
    into it: the bytes behind the copy keep their indeterminate value. *)
Definition iv_array (junk : nat -> byte) (c : EVP_CIPHER) : list byte :=
  firstn (effective_iv_length c) crypto_ivec_initdata
  ++ skipn (effective_iv_length c) (uninitialised junk CRYPTO_MAX_KEY_SIZE).

(** What either engine leaves at [out]: the padded datagram run through
    the cipher, under the IV taken from [crypto_ivec_initdata]. *)
Definition engine_output (c : EVP_CIPHER) (key : list byte) (enc : bool)
           (in_ : list byte) (dlen : nat) : list byte :=
  snd (do_cipher (ready_ctx c key crypto_ivec_initdata enc)
                 (pad_to_block (effective_iv_length c) (firstn dlen in_))).

(** What a call of either engine requires of its arguments: [key] holds
    the key of the cipher, [in] and [out] have room for the padded
    datagram, whose length fits the [int] that libcrypto takes. *)
Record engine_pre (key : list byte) (c : EVP_CIPHER) (in_ out : list byte)
       (dlen : nat) : Prop := mkPre {
  pre_key : EVP_CIPHER_key_length c <= length key;
  pre_in : padded_length dlen (effective_iv_length c) <= length in_;
  pre_out : padded_length dlen (effective_iv_length c) <= length out;
  pre_int : (Z.of_nat (padded_length dlen (effective_iv_length c)) <= INT_MAX)%Z
}.

(** The key the spec describes: the seed repeated to fill [n] bytes, the
    last copy cut short. *)
Definition tiled (seed : list byte) (n : nat) : list byte :=
  firstn n (concat (repeat seed (S (n / 16)))).

(** The name a caller passes, as the registry reads it: the C string,
    letters lowered. *)
Definition lower_char (c : ascii) : ascii :=
  let n := N_of_ascii c in
  if (65 <=? n)%N && (n <=? 90)%N then ascii_of_N (n + 32) else c.

Fixpoint lower_c_string (s : string) : string :=
  match s with
  | EmptyString => EmptyString
  | String c t =>
      if (N_of_ascii c =? 0)%N then EmptyString
      else String (lower_char c) (lower_c_string t)
  end.

(** The registry as the spec lists it. *)
Definition registry (nm : string) : option EVP_CIPHER :=
  if String.eqb nm "aes-128" then Some aes_128_cbc
  else if String.eqb nm "aes-256" then Some aes_256_cbc
  else if String.eqb nm "des" then Some des_cbc
  else if String.eqb nm "desx" then Some desx_cbc
  else if String.eqb nm "rc4" then Some rc4
  else None.

(** A caller of the three components, as the spec's properties use
    them: the cipher is resolved by name (the caller stops on an unknown
    name), the key is derived from the passphrase into a buffer of
    CRYPTO_MAX_KEY_SIZE bytes, and the plaintext is encrypted from a
    buffer with room for the padding.  The result is the ciphertext and
    its reported length. *)
Definition encrypt_with (nm pass : string) (P : list byte)
  : result (list byte * nat) :=
  cptype <- get_crypto_type nm ;;
  match cptype with
  | None => Abort
  | Some c =>
      key <- fill_with_string_md5sum pass (repeat Byte.x00 CRYPTO_MAX_KEY_SIZE)
                                     (EVP_CIPHER_key_length c) ;;
      '(_, out, n) <- datagram_encrypt (fun _ => Byte.x00) key c
                        (P ++ repeat Byte.x00 16)
                        (repeat Byte.x00 (length P + 16)) (length P) ;;
      Ok (firstn n out, n)
  end.

(** The padding property with its example as the spec words it: a
    buffer one byte short of a boundary would gain [bs - 1] bytes. *)
Definition padding_boundary_as_stated : Prop :=
  forall (data : list byte) (dlen bs : nat),
    0 < bs -> padded_length dlen bs <= length data ->
    exists data' dlen',
      CRYPTO_DATA_PADDING data dlen bs = Ok (data', dlen')
      /\ (dlen mod bs = 0 -> data' = data /\ dlen' = dlen)
      /\ (dlen mod bs <> 0 -> dlen' = dlen + (bs - dlen mod bs))
      /\ ((dlen + 1) mod bs = 0 -> dlen' = dlen + (bs - 1)).

(** Cross-cipher isolation as the spec words it: different lengths and
    different content under aes-128 and aes-256. *)
Definition cross_cipher_as_stated : Prop :=
  forall (pass : string) (P : list byte),
    exists ct1 n1 ct2 n2,
      encrypt_with "aes-128" pass P = Ok (ct1, n1)
      /\ encrypt_with "aes-256" pass P = Ok (ct2, n2)
      /\ n1 <> n2 /\ ct1 <> ct2.

(** The round trip as the spec words it: for every plaintext, whatever
    its length. *)
Definition round_trip_as_stated : Prop :=
  forall (junk junk' : nat -> byte) (nm pass : string) (c : EVP_CIPHER)
         (keybuf in_ out out2 : list byte) (dlen : nat),
    get_crypto_type nm = Ok (Some c) ->
    16 <= length keybuf -> EVP_CIPHER_key_length c <= length keybuf ->
    let n := padded_length dlen (effective_iv_length c) in
    n <= length in_ -> n <= length out -> n <= length out2 ->
    exists key in' ct ct' pt,
      fill_with_string_md5sum pass keybuf (EVP_CIPHER_key_length c) = Ok key
      /\ datagram_encrypt junk key c in_ out dlen = Ok (in', ct, n)
      /\ datagram_decrypt junk' key c ct out2 n = Ok (ct', pt, n)
      /\ firstn n pt = pad_to_block (effective_iv_length c) (firstn dlen in_).

(** The output length as the spec words it: every call that returns
    reports the padded length. *)
Definition output_length_as_stated : Prop :=
  forall (junk : nat -> byte) (key : list byte) (c : EVP_CIPHER)
         (in_ out : list byte) (dlen : nat) (in' out' : list byte) (m : nat),
    datagram_encrypt junk key c in_ out dlen = Ok (in', out', m) ->
    m = padded_length dlen (effective_iv_length c).

(** A buffer that holds no NUL byte. *)
Definition no_nul (l : list byte) : Prop := Forall (fun b => b <> Byte.x00) l.

(** What the array [host] of [v4pair_to_sockaddr] keeps of a name: its
    first 63 bytes. *)
Definition host_part (s : string) : list byte :=
  firstn 63 (Libc.bytes_of_c_string s).

(** The [hints] that [v4pair_to_sockaddr] gives to the resolver. *)
Definition v4_hints : addrinfo :=
  mkInfo AI_PASSIVE AF_INET SOCK_STREAM 0 0 None None.

(* ================================================================== *)
(** * Properties of the libcrypto model *)
(* ================================================================== *)

(** ** Known answers

    The standard test vectors of the algorithms, and the ciphertexts
    that OpenSSL produces for one datagram under the five ciphers, with
    the key derived from the passphrase "secret" and the IV taken from
    [crypto_ivec_initdata]. *)

Module KnownAnswers.

Example md5_empty :
  MD5.md5 [] = bytes_of_hex "d41d8cd98f00b204e9800998ecf8427e".
Proof. vm_compute. reflexivity. Qed.

Example md5_secret :
  MD5.md5 (list_byte_of_string "secret")
  = bytes_of_hex "5ebe2294ecd0e0f08eab7690d2a6ee69".
Proof. vm_compute. reflexivity. Qed.

Example md5_two_blocks :
  MD5.md5 (list_byte_of_string
    "12345678901234567890123456789012345678901234567890123456789012345678901234567890")
  = bytes_of_hex "57edf4a22be3c955ac49da2e2107b67a".
Proof. vm_compute. reflexivity. Qed.

Example rc4_key_plaintext :
  snd (RC4.RC4 (RC4.RC4_set_key (list_byte_of_string "Key"))
               (list_byte_of_string "Plaintext"))
  = bytes_of_hex "bbf316e8d940af0ad3".
Proof. vm_compute. reflexivity. Qed.

Example aes_128_fips197 :
  AES.AES_encrypt
    (AES.AES_set_key (bytes_of_hex "000102030405060708090a0b0c0d0e0f"))
    (bytes_of_hex "00112233445566778899aabbccddeeff")
  = bytes_of_hex "69c4e0d86a7b0430d8cdb78070b4c55a".
Proof. vm_compute. reflexivity. Qed.

Example aes_256_fips197 :
  AES.AES_encrypt
    (AES.AES_set_key (bytes_of_hex
       "000102030405060708090a0b0c0d0e0f101112131415161718191a1b1c1d1e1f"))
    (bytes_of_hex "00112233445566778899aabbccddeeff")
  = bytes_of_hex "8ea2b7ca516745bfeafc49904b496089".
Proof. vm_compute. reflexivity. Qed.

Example aes_256_fips197_inverse :
  AES.AES_decrypt
    (AES.AES_set_key (bytes_of_hex
       "000102030405060708090a0b0c0d0e0f101112131415161718191a1b1c1d1e1f"))
    (bytes_of_hex "8ea2b7ca516745bfeafc49904b496089")
  = bytes_of_hex "00112233445566778899aabbccddeeff".
Proof. vm_compute. reflexivity. Qed.

Example des_block :
  DES.DES_encrypt1 (DES.DES_set_key_unchecked (bytes_of_hex "133457799bbcdff1"))
                   true (bytes_of_hex "0123456789abcdef")
  = bytes_of_hex "85e813540f0ab405".
Proof. vm_compute. reflexivity. Qed.

Example encrypt_aes_128_known_answer :
  encrypt_with "aes-128" "secret"
    (list_byte_of_string "The quick brown fox jumps over the lazy dog")
  = Ok (bytes_of_hex
       ("476076415870a78e7c0987f88d4f165fc12ca09d3ac775fcaf0b156264a0a0ac" ++
        "e4ada63b5f41ed4da11fd96f2a483638")%string, 48).
Proof. vm_compute. reflexivity. Qed.

Example encrypt_aes_256_known_answer :
  encrypt_with "aes-256" "secret"
    (list_byte_of_string "The quick brown fox jumps over the lazy dog")
  = Ok (bytes_of_hex
       ("a188ddd0f9e6dedb70980083809b0c609f1469bd10698cd107a73ed5976d5e59" ++
        "18932577fab202ef2b4e87f11cd9de8b")%string, 48).
Proof. vm_compute. reflexivity. Qed.

Example encrypt_des_known_answer :
  encrypt_with "des" "secret"
    (list_byte_of_string "The quick brown fox jumps over the lazy dog")
  = Ok (bytes_of_hex
       ("fe0f627783a06c02552e5c347c56b627fddcce1d8db6013ec1c957a4addb246b" ++
        "d14a4d1d9c45a3d86cd7c5f67c4d5fb5")%string, 48).
Proof. vm_compute. reflexivity. Qed.

Example encrypt_desx_known_answer :
  encrypt_with "desx" "secret"
    (list_byte_of_string "The quick brown fox jumps over the lazy dog")
  = Ok (bytes_of_hex
       ("54cfea9f6eb959632ed133acbdc3e2ac490bc436c5d307ddbb49cd6cabe5472a" ++
        "53150c1a948c26a30c701797821663b1")%string, 48).
Proof. vm_compute. reflexivity. Qed.

Example encrypt_rc4_known_answer :
  encrypt_with "rc4" "secret"
    (list_byte_of_string "The quick brown fox jumps over the lazy dog")
  = Ok (bytes_of_hex
       ("c2749dffca0ac6e51635dd8b7b08695d635b3bc0fc7d6b51645956bb1ac7bd33" ++
        "81e2021562faac68845d23106b6387e6")%string, 48).
Proof. vm_compute. reflexivity. Qed.


Example resolve_ignores_case : get_crypto_type "AES-256" = Ok (Some aes_256_cbc).
Proof. reflexivity. Qed.

End KnownAnswers.

Module BytesFacts.

Lemma bits8_xor_involutive (x y : bits8) : bits8_xor (bits8_xor x y) y = x.
Proof.
  destruct x as (x0 & x1 & x2 & x3 & x4 & x5 & x6 & x7).
  destruct y as (y0 & y1 & y2 & y3 & y4 & y5 & y6 & y7).
  cbn. repeat f_equal; btauto.
Qed.

Lemma to_bits_byte_xor (a b : byte) :
  Byte.to_bits (byte_xor a b) = bits8_xor (Byte.to_bits a) (Byte.to_bits b).
Proof. unfold byte_xor. apply Byte.to_bits_of_bits. Qed.

Lemma to_bits_inj (a b : byte) : Byte.to_bits a = Byte.to_bits b -> a = b.
Proof.
  intros H. rewrite <- (Byte.of_bits_to_bits a), <- (Byte.of_bits_to_bits b).
  now rewrite H.
Qed.

Lemma byte_xor_involutive (a b : byte) : byte_xor (byte_xor a b) b = a.
Proof.
  apply to_bits_inj. rewrite !to_bits_byte_xor. apply bits8_xor_involutive.
Qed.

Lemma xor_bytes_length (a b : list byte) :
  length (xor_bytes a b) = Nat.min (length a) (length b).
Proof.
  revert b. induction a as [|x a IH]; intros [|y b]; cbn; auto.
Qed.

Lemma xor_bytes_involutive (a b : list byte) :
  length a <= length b -> xor_bytes (xor_bytes a b) b = a.
Proof.
  revert b. induction a as [|x a IH]; intros [|y b] H; cbn in *; try lia; auto.
  rewrite byte_xor_involutive, IH by lia. reflexivity.
Qed.

End BytesFacts.

Module AESFacts.
Import AES BytesFacts.

Lemma inv_sbox_sbox (b : byte) : inv_sbox (sbox b) = b.
Proof. destruct b; vm_compute; reflexivity. Qed.

Lemma InvSubBytes_SubBytes (s : state) : InvSubBytes (SubBytes s) = s.
Proof.
  destruct s as [[[[[[a0 a1] a2] a3] [[[b0 b1] b2] b3]] [[[c0 c1] c2] c3]] [[[d0 d1] d2] d3]].
  unfold InvSubBytes, SubBytes, state_map, word_map.
  now rewrite !inv_sbox_sbox.
Qed.

Lemma InvShiftRows_ShiftRows (s : state) : InvShiftRows (ShiftRows s) = s.
Proof.
  destruct s as [[[[[[a0 a1] a2] a3] [[[b0 b1] b2] b3]] [[[c0 c1] c2] c3]] [[[d0 d1] d2] d3]].
  reflexivity.
Qed.

Lemma to_bits_xtime (b : byte) : Byte.to_bits (xtime b) = bits8_xtime (Byte.to_bits b).
Proof. unfold xtime. apply Byte.to_bits_of_bits. Qed.

Lemma inv_mix_column_mix_column (w : word) : inv_mix_column (mix_column w) = w.
Proof.
  destruct w as [[[a0 a1] a2] a3].
  unfold inv_mix_column, mix_column.
  repeat f_equal; apply to_bits_inj;
    unfold xor4, x3, x9, x11, x13, x14;
    repeat (rewrite ?to_bits_byte_xor, ?to_bits_xtime);
    destruct (Byte.to_bits a0) as (p0 & p1 & p2 & p3 & p4 & p5 & p6 & p7);
    destruct (Byte.to_bits a1) as (q0 & q1 & q2 & q3 & q4 & q5 & q6 & q7);
    destruct (Byte.to_bits a2) as (r0 & r1 & r2 & r3 & r4 & r5 & r6 & r7);
    destruct (Byte.to_bits a3) as (s0 & s1 & s2 & s3 & s4 & s5 & s6 & s7);
    cbn; repeat f_equal; btauto.
Qed.

Lemma InvMixColumns_MixColumns (s : state) : InvMixColumns (MixColumns s) = s.
Proof.
  destruct s as [[[c0 c1] c2] c3]. unfold InvMixColumns, MixColumns, state_map.
  now rewrite !inv_mix_column_mix_column.
Qed.

Lemma word_xor_involutive (v w : word) : word_xor (word_xor v w) w = v.
Proof.
  destruct v as [[[a b] c] d], w as [[[a' b'] c'] d']. unfold word_xor.
  now rewrite !byte_xor_involutive.
Qed.

Lemma AddRoundKey_involutive (k s : state) : AddRoundKey k (AddRoundKey k s) = s.
Proof.
  destruct k as [[[k0 k1] k2] k3], s as [[[c0 c1] c2] c3]. unfold AddRoundKey.
  now rewrite !word_xor_involutive.
Qed.

Lemma dec_rounds_enc_rounds (ks : list state) (s : state) :
  dec_rounds ks (enc_rounds ks s) = s.
Proof.
  revert s. induction ks as [|k ks IH]; intros s; [reflexivity|].
  destruct ks as [|k' ks].
  - cbn [dec_rounds enc_rounds].
    now rewrite AddRoundKey_involutive, InvShiftRows_ShiftRows, InvSubBytes_SubBytes.
  - change (enc_rounds (k :: k' :: ks) s)
      with (enc_rounds (k' :: ks) (AddRoundKey k (MixColumns (ShiftRows (SubBytes s))))).
    change (dec_rounds (k :: k' :: ks) ?c)
      with (InvSubBytes (InvShiftRows (InvMixColumns
              (AddRoundKey k (dec_rounds (k' :: ks) c))))).
    rewrite IH.
    now rewrite AddRoundKey_involutive, InvMixColumns_MixColumns,
      InvShiftRows_ShiftRows, InvSubBytes_SubBytes.
Qed.

Lemma InvCipher_Cipher (ks : list state) (s : state) :
  InvCipher ks (Cipher ks s) = s.
Proof.
  destruct ks as [|k0 ks]; [reflexivity|]. unfold InvCipher, Cipher.
  now rewrite dec_rounds_enc_rounds, AddRoundKey_involutive.
Qed.

Lemma state_of_bytes_of_state (s : state) : state_of_bytes (bytes_of_state s) = s.
Proof.
  destruct s as [[[[[[a0 a1] a2] a3] [[[b0 b1] b2] b3]] [[[c0 c1] c2] c3]] [[[d0 d1] d2] d3]].
  reflexivity.
Qed.

Lemma bytes_of_state_of_bytes (l : list byte) :
  length l = 16 -> bytes_of_state (state_of_bytes l) = l.
Proof.
  intros H.
  do 16 (destruct l as [|? l]; [discriminate H|]).
  destruct l; [reflexivity|discriminate H].
Qed.

Lemma bytes_of_state_length (s : state) : length (bytes_of_state s) = 16.
Proof.
  destruct s as [[[[[[a0 a1] a2] a3] [[[b0 b1] b2] b3]] [[[c0 c1] c2] c3]] [[[d0 d1] d2] d3]].
  reflexivity.
Qed.

Lemma AES_encrypt_length (ks : AES_KEY) (b : list byte) :
  length (AES_encrypt ks b) = 16.
Proof. apply bytes_of_state_length. Qed.

Lemma AES_decrypt_length (ks : AES_KEY) (b : list byte) :
  length (AES_decrypt ks b) = 16.
Proof. apply bytes_of_state_length. Qed.

Lemma AES_decrypt_encrypt (ks : AES_KEY) (b : list byte) :
  length b = 16 -> AES_decrypt ks (AES_encrypt ks b) = b.
Proof.
  intros H. unfold AES_decrypt, AES_encrypt.
  now rewrite state_of_bytes_of_state, InvCipher_Cipher, bytes_of_state_of_bytes.
Qed.

End AESFacts.

Module DESFacts.
Import DES BytesFacts.

Lemma xor_bits_length (a b : list bool) :
  length (xor_bits a b) = Nat.min (length a) (length b).
Proof. revert b. induction a as [|x a IH]; intros [|y b]; cbn; auto. Qed.

Lemma xor_bits_involutive (a b : list bool) :
  length a <= length b -> xor_bits (xor_bits a b) b = a.
Proof.
  revert b. induction a as [|x a IH]; intros [|y b] H; cbn in *; try lia; auto.
  rewrite IH by lia. f_equal. btauto.
Qed.

Lemma permute_length (t : list nat) (l : list bool) : length (permute t l) = length t.
Proof. apply length_map. Qed.

Lemma f_length (r k : list bool) : length (f r k) = 32.
Proof. unfold f. now rewrite permute_length. Qed.

Lemma feistel_app (ks1 ks2 : DES_key_schedule) (l r : list bool) :
  feistel (ks1 ++ ks2) l r =
  let '(l1, r1) := feistel ks1 l r in feistel ks2 l1 r1.
Proof.
  revert l r. induction ks1 as [|k ks1 IH]; intros l r; cbn [feistel app]; [reflexivity|].
  apply IH.
Qed.

Lemma feistel_length (ks : DES_key_schedule) (l r l' r' : list bool) :
  length l = 32 -> length r = 32 ->
  feistel ks l r = (l', r') ->
  length l' = 32 /\ length r' = 32.
Proof.
  revert l r. induction ks as [|k ks IH]; intros l r Hl Hr H; cbn [feistel] in H.
  - inversion H; subst; auto.
  - apply IH in H; auto. rewrite xor_bits_length, f_length, Hl. reflexivity.
Qed.

(** A Feistel network is undone by running the round keys backwards on
    the swapped halves. *)
Lemma feistel_rev (ks : DES_key_schedule) (l r l' r' : list bool) :
  length l = 32 -> length r = 32 ->
  feistel ks l r = (l', r') ->
  feistel (rev ks) r' l' = (r, l).
Proof.
  revert l r. induction ks as [|k ks IH]; intros l r Hl Hr H; cbn [feistel] in H.
  - inversion H; subst; reflexivity.
  - apply IH in H; auto.
    + cbn [rev]. rewrite feistel_app, H. cbn [feistel].
      rewrite xor_bits_involutive; [reflexivity|]. rewrite f_length. lia.
    + rewrite xor_bits_length, f_length, Hl. reflexivity.
Qed.

Tactic Notation "destruct_list" ident(l) integer(n) hyp(H) :=
  do n (destruct l as [|? l]; [discriminate H|]);
  destruct l; [|discriminate H].

Lemma FP_IP (x : list bool) : length x = 64 -> permute FP (permute IP x) = x.
Proof. intros H. destruct_list x 64 H. reflexivity. Qed.

Lemma IP_FP (x : list bool) : length x = 64 -> permute IP (permute FP x) = x.
Proof. intros H. destruct_list x 64 H. reflexivity. Qed.

Lemma crypt_bits_length (ks : DES_key_schedule) (x : list bool) :
  length (crypt_bits ks x) = 64.
Proof.
  unfold crypt_bits. destruct (feistel ks _ _). apply permute_length.
Qed.

Lemma crypt_bits_rev (ks : DES_key_schedule) (x : list bool) :
  length x = 64 -> crypt_bits (rev ks) (crypt_bits ks x) = x.
Proof.
  intros Hx. unfold crypt_bits at 2.
  assert (Hip : length (permute IP x) = 64) by apply permute_length.
  destruct (feistel ks (firstn 32 (permute IP x)) (skipn 32 (permute IP x)))
    as [l' r'] eqn:E.
  assert (Hl : length (firstn 32 (permute IP x)) = 32)
    by (rewrite length_firstn; lia).
  assert (Hr : length (skipn 32 (permute IP x)) = 32)
    by (rewrite length_skipn; lia).
  destruct (feistel_length _ _ _ _ _ Hl Hr E) as [Hl' Hr'].
  unfold crypt_bits.
  rewrite IP_FP by (rewrite length_app; lia).
  rewrite firstn_app, skipn_app, Hr'. 
  rewrite firstn_all2, skipn_all2 by lia.
  cbn [Nat.sub firstn skipn]. rewrite app_nil_r. cbn [app].
  rewrite (feistel_rev _ _ _ _ _ Hl Hr E).
  rewrite firstn_skipn. now apply FP_IP.
Qed.

Lemma bytes_of_bits_of_bytes (l : list byte) : bytes_of_bits (bits_of_bytes l) = l.
Proof.
  induction l as [|b l IH]; [reflexivity|].
  unfold bits_of_bytes. cbn [flat_map]. unfold bits_of_byte at 1.
  rewrite <- (Byte.of_bits_to_bits b) at 2.
  destruct (Byte.to_bits b) as (b0 & b1 & b2 & b3 & b4 & b5 & b6 & b7).
  cbn [app bytes_of_bits]. f_equal. exact IH.
Qed.

Lemma bits_of_bytes_of_bits_64 (x : list bool) :
  length x = 64 -> bits_of_bytes (bytes_of_bits x) = x.
Proof.
  intros H. destruct_list x 64 H.
  cbn [bytes_of_bits bits_of_bytes flat_map]. unfold bits_of_byte.
  rewrite !Byte.to_bits_of_bits. reflexivity.
Qed.

Lemma bits_of_bytes_length (l : list byte) :
  length (bits_of_bytes l) = 8 * length l.
Proof.
  induction l as [|b l IH]; [reflexivity|].
  unfold bits_of_bytes in *. cbn [flat_map]. rewrite length_app, IH.
  unfold bits_of_byte.
  destruct (Byte.to_bits b) as (b0 & b1 & b2 & b3 & b4 & b5 & b6 & b7).
  cbn [length]. lia.
Qed.

Lemma bytes_of_bits_length_64 (x : list bool) :
  length x = 64 -> length (bytes_of_bits x) = 8.
Proof. intros H. destruct_list x 64 H. reflexivity. Qed.

Lemma DES_encrypt1_length (ks : DES_key_schedule) (enc : bool) (b : list byte) :
  length (DES_encrypt1 ks enc b) = 8.
Proof. apply bytes_of_bits_length_64, crypt_bits_length. Qed.

Lemma DES_decrypt_encrypt (ks : DES_key_schedule) (b : list byte) :
  length b = 8 -> DES_encrypt1 ks false (DES_encrypt1 ks true b) = b.
Proof.
  intros H. unfold DES_encrypt1.
  rewrite bits_of_bytes_of_bits_64 by apply crypt_bits_length.
  rewrite crypt_bits_rev by (rewrite bits_of_bytes_length; lia).
  apply bytes_of_bits_of_bytes.
Qed.

Lemma DESX_encrypt_length (ks : DES_key_schedule) (inw outw b : list byte) :
  length outw = 8 -> length (DESX_encrypt ks inw outw b) = 8.
Proof.
  intros H. unfold DESX_encrypt.
  rewrite xor_bytes_length, DES_encrypt1_length, H. reflexivity.
Qed.

Lemma DESX_decrypt_length (ks : DES_key_schedule) (inw outw b : list byte) :
  length inw = 8 -> length (DESX_decrypt ks inw outw b) = 8.
Proof.
  intros H. unfold DESX_decrypt.
  rewrite xor_bytes_length, DES_encrypt1_length, H. reflexivity.
Qed.

Lemma DESX_decrypt_encrypt (ks : DES_key_schedule) (inw outw b : list byte) :
  length inw = 8 -> length outw = 8 -> length b = 8 ->
  DESX_decrypt ks inw outw (DESX_encrypt ks inw outw b) = b.
Proof.
  intros Hi Ho Hb. unfold DESX_decrypt, DESX_encrypt.
  rewrite xor_bytes_involutive by (rewrite DES_encrypt1_length; lia).
  rewrite DES_decrypt_encrypt by (rewrite xor_bytes_length; lia).
  apply xor_bytes_involutive. lia.
Qed.

End DESFacts.
Module RC4Facts.
Import RC4 BytesFacts.

Lemma bits8_xor_cancel (x y : bits8) : bits8_xor x (bits8_xor x y) = y.
Proof.
  destruct x as (x0 & x1 & x2 & x3 & x4 & x5 & x6 & x7).
  destruct y as (y0 & y1 & y2 & y3 & y4 & y5 & y6 & y7).
  cbn. repeat f_equal; btauto.
Qed.

Lemma byte_xor_cancel (a b : byte) : byte_xor a (byte_xor a b) = b.
Proof.
  apply to_bits_inj. rewrite !to_bits_byte_xor. apply bits8_xor_cancel.
Qed.

Lemma RC4_length (k : RC4_KEY) (p : list byte) : length (snd (RC4 k p)) = length p.
Proof.
  revert k. induction p as [|b p IH]; intros k; [reflexivity|].
  cbn [RC4]. destruct (next k) as [k1 ks]. specialize (IH k1).
  destruct (RC4 k1 p) as [k2 out]. cbn in *. now rewrite IH.
Qed.

(** The key stream does not depend on the data, so that applying RC4
    twice from the same state gives the data back. *)
Lemma RC4_involutive (k : RC4_KEY) (p : list byte) :
  snd (RC4 k (snd (RC4 k p))) = p.
Proof.
  revert k. induction p as [|b p IH]; intros k; [reflexivity|].
  cbn [RC4]. destruct (next k) as [k1 ks] eqn:E. specialize (IH k1).
  destruct (RC4 k1 p) as [k2 out]. cbn [snd RC4] in *. rewrite E.
  destruct (RC4 k1 out) as [k3 out']. cbn [snd] in *.
  now rewrite byte_xor_cancel, IH.
Qed.

End RC4Facts.

Module ChunksFacts.

Lemma chunks_fuel_enough {A} (n : nat) (l : list A) (fuel1 fuel2 : nat) :
  0 < n -> length l <= fuel1 -> length l <= fuel2 ->
  chunks_fuel fuel1 n l = chunks_fuel fuel2 n l.
Proof.
  intros Hn. revert l fuel2.
  induction fuel1 as [|f1 IH]; intros l fuel2 H1 H2.
  - destruct l; [|cbn in H1; lia]. now destruct fuel2.
  - destruct l as [|a l]; [now destruct fuel2|].
    destruct fuel2 as [|f2]; [cbn in H2; lia|].
    cbn [chunks_fuel]. f_equal.
    apply IH; rewrite length_skipn; cbn [length] in *; lia.
Qed.

Lemma chunks_nil {A} (n : nat) : chunks n (@nil A) = [].
Proof. reflexivity. Qed.

Lemma chunks_app {A} (n : nat) (c rest : list A) :
  0 < n -> length c = n -> chunks n (c ++ rest) = c :: chunks n rest.
Proof.
  intros Hn Hc. unfold chunks.
  destruct c as [|a c]; [cbn in Hc; lia|].
  cbn [app length chunks_fuel].
  change (a :: c ++ rest) with ((a :: c) ++ rest).
  rewrite firstn_app, skipn_app, Hc, Nat.sub_diag.
  rewrite firstn_all2, skipn_all2 by lia. cbn [firstn skipn app].
  rewrite app_nil_r. f_equal.
  apply chunks_fuel_enough; auto. rewrite length_app. lia.
Qed.

(** A buffer of k whole blocks splits into k blocks. *)
Lemma chunks_whole {A} (n k : nat) (l : list A) :
  0 < n -> length l = k * n ->
  Forall (fun c => length c = n) (chunks n l) /\ concat (chunks n l) = l.
Proof.
  intros Hn. revert l. induction k as [|k IH]; intros l Hl.
  - destruct l; [|discriminate Hl]. split; [constructor|reflexivity].
  - rewrite <- (firstn_skipn n l).
    assert (Hf : length (firstn n l) = n) by (rewrite length_firstn; lia).
    rewrite chunks_app by auto.
    destruct (IH (skipn n l)) as [IH1 IH2]; [rewrite length_skipn; lia|].
    split; [constructor; auto|]. cbn [concat]. now rewrite IH2.
Qed.

End ChunksFacts.
Module EVPFacts.
Import EVP BytesFacts ChunksFacts.

Lemma EVP_CIPHER_eq_dec (c c' : EVP_CIPHER) : {c = c'} + {c <> c'}.
Proof. decide equality. Defined.

Lemma init_key_good (c : EVP_CIPHER) (key : list byte) :
  c <> rc4 -> length key = EVP_CIPHER_key_length c ->
  good_blocks (init_key c key) (EVP_CIPHER_block_size c).
Proof.
  intros Hc Hk.
  destruct c; try congruence;
    cbn [init_key EVP_CIPHER_block_size EVP_CIPHER_key_length] in *.
  - constructor; [apply AESFacts.AES_encrypt_length | apply AESFacts.AES_decrypt_length
                 | apply AESFacts.AES_decrypt_encrypt].
  - constructor; [apply AESFacts.AES_encrypt_length | apply AESFacts.AES_decrypt_length
                 | apply AESFacts.AES_decrypt_encrypt].
  - constructor; [apply DESFacts.DES_encrypt1_length | apply DESFacts.DES_encrypt1_length
                 | apply DESFacts.DES_decrypt_encrypt].
  - assert (H1 : length (firstn 8 (skipn 8 key)) = 8)
      by (rewrite length_firstn, length_skipn; lia).
    assert (H2 : length (firstn 8 (skipn 16 key)) = 8)
      by (rewrite length_firstn, length_skipn; lia).
    constructor; intros.
    + now apply DESFacts.DESX_encrypt_length.
    + now apply DESFacts.DESX_decrypt_length.
    + now apply DESFacts.DESX_decrypt_encrypt.
Qed.

Section CBC.

Variables (d : cipher_state) (bs : nat).
Hypothesis Hgood : good_blocks d bs.
Hypothesis Hbs : 0 < bs.

Lemma cbc_encrypt_length (v : list byte) (blocks : list (list byte)) :
  length (fst (cbc_encrypt d v blocks)) = length blocks * bs.
Proof.
  revert v. induction blocks as [|p rest IH]; intros v; [reflexivity|].
  cbn [cbc_encrypt]. specialize (IH (block_encrypt d (xor_bytes p v))).
  destruct (cbc_encrypt d _ rest) as [out v']. cbn [fst length] in *.
  rewrite length_app, IH, (enc_length _ _ Hgood). lia.
Qed.

Lemma cbc_decrypt_length (v : list byte) (blocks : list (list byte)) :
  length v = bs -> Forall (fun c => length c = bs) blocks ->
  length (fst (cbc_decrypt d v blocks)) = length blocks * bs.
Proof.
  revert v. induction blocks as [|c rest IH]; intros v Hv Hb; [reflexivity|].
  apply Forall_cons_iff in Hb as [Hc Hrest].
  cbn [cbc_decrypt]. specialize (IH c Hc Hrest).
  destruct (cbc_decrypt d c rest) as [out v']. cbn [fst length] in *.
  rewrite length_app, IH, xor_bytes_length, (dec_length _ _ Hgood), Hv. lia.
Qed.

(** Decrypting the chained ciphertext block by block gives the
    plaintext blocks back, and leaves the same chaining value. *)
Lemma cbc_roundtrip (v : list byte) (blocks : list (list byte)) :
  length v = bs -> Forall (fun p => length p = bs) blocks ->
  cbc_decrypt d v (chunks bs (fst (cbc_encrypt d v blocks)))
  = (concat blocks, snd (cbc_encrypt d v blocks)).
Proof.
  revert v. induction blocks as [|p rest IH]; intros v Hv Hb; [reflexivity|].
  apply Forall_cons_iff in Hb as [Hp Hrest].
  cbn [cbc_encrypt].
  pose proof (enc_length _ _ Hgood (xor_bytes p v)) as Hc.
  specialize (IH (block_encrypt d (xor_bytes p v)) Hc Hrest).
  destruct (cbc_encrypt d (block_encrypt d (xor_bytes p v)) rest) as [out v'].
  cbn [fst snd] in *.
  rewrite chunks_app by auto. cbn [cbc_decrypt]. rewrite IH.
  rewrite (dec_enc _ _ Hgood) by (rewrite xor_bytes_length; lia).
  rewrite xor_bytes_involutive by lia. reflexivity.
Qed.

End CBC.


Lemma concat_length_blocks {A} (n : nat) (ls : list (list A)) :
  Forall (fun c => length c = n) ls -> length (concat ls) = length ls * n.
Proof.
  induction 1 as [|c ls Hc _ IH]; [reflexivity|].
  cbn [concat length]. rewrite length_app, IH, Hc. lia.
Qed.

Lemma chunks_aligned {A} (n : nat) (l : list A) :
  0 < n -> length l mod n = 0 ->
  Forall (fun c => length c = n) (chunks n l) /\ concat (chunks n l) = l
  /\ length (chunks n l) * n = length l.
Proof.
  intros Hn Hm.
  destruct (chunks_whole n (length l / n) l Hn) as [H1 H2].
  { apply Nat.Div0.div_exact in Hm. lia. }
  repeat split; auto.
  rewrite <- (concat_length_blocks n _ H1). now rewrite H2.
Qed.

Lemma ready_ctx_flushed (c : EVP_CIPHER) (key v : list byte) (enc : bool) :
  flushed c (ready_ctx c key v enc).
Proof. repeat split. Qed.

Lemma do_cipher_flushed (c : EVP_CIPHER) (ctx : EVP_CIPHER_CTX) (x : list byte) :
  flushed c ctx -> flushed c (fst (do_cipher ctx x)).
Proof.
  intros (Hc & Hb & Hp). unfold do_cipher. rewrite Hc.
  destruct c, (cipher_data ctx);
    repeat match goal with
           | |- context [let '(_, _) := ?e in _] => destruct e
           end; repeat split; assumption.
Qed.

Lemma do_cipher_block (c : EVP_CIPHER) (key v : list byte) (enc : bool)
      (x : list byte) :
  c <> rc4 ->
  snd (do_cipher (ready_ctx c key v enc) x) =
  fst ((if enc then cbc_encrypt else cbc_decrypt)
         (init_key c (firstn (EVP_CIPHER_key_length c) key))
         (firstn (EVP_CIPHER_iv_length c) v)
         (chunks (EVP_CIPHER_block_size c) x)).
Proof.
  intros Hc. unfold do_cipher, ready_ctx. cbn [ctx_cipher cipher_data encrypt iv].
  destruct c; try congruence; cbn [init_key]; destruct enc;
    match goal with
    | |- context [let '(_, _) := ?e in _] => destruct e
    end; reflexivity.
Qed.

Lemma do_cipher_stream (key v : list byte) (enc : bool) (x : list byte) :
  snd (do_cipher (ready_ctx rc4 key v enc) x) =
  snd (RC4.RC4 (RC4.RC4_set_key (firstn 16 key)) x).
Proof.
  unfold do_cipher, ready_ctx. cbn [ctx_cipher cipher_data init_key EVP_CIPHER_key_length].
  destruct (RC4.RC4 _ x). reflexivity.
Qed.

Lemma block_size_pos (c : EVP_CIPHER) : 0 < EVP_CIPHER_block_size c.
Proof. destruct c; cbn; lia. Qed.

Lemma block_size_iv_length (c : EVP_CIPHER) :
  c <> rc4 -> EVP_CIPHER_iv_length c = EVP_CIPHER_block_size c.
Proof. destruct c; try congruence; reflexivity. Qed.

Lemma crypto_key_length (c : EVP_CIPHER) (key : list byte) :
  EVP_CIPHER_key_length c <= length key ->
  length (firstn (EVP_CIPHER_key_length c) key) = EVP_CIPHER_key_length c.
Proof. intros H. rewrite length_firstn. lia. Qed.

(** [do_cipher] keeps the length of whole blocks. *)
Lemma do_cipher_length (c : EVP_CIPHER) (key v : list byte) (enc : bool)
      (x : list byte) :
  EVP_CIPHER_key_length c <= length key ->
  EVP_CIPHER_iv_length c <= length v ->
  length x mod EVP_CIPHER_block_size c = 0 ->
  length (snd (do_cipher (ready_ctx c key v enc) x)) = length x.
Proof.
  intros Hk Hv Hx.
  destruct (EVP_CIPHER_eq_dec c rc4) as [->|Hc].
  - rewrite do_cipher_stream. apply RC4Facts.RC4_length.
  - rewrite do_cipher_block by assumption.
    pose proof (init_key_good c _ Hc (crypto_key_length c key Hk)) as G.
    destruct (chunks_aligned _ x (block_size_pos c) Hx) as (H1 & H2 & H3).
    destruct enc.
    + rewrite (cbc_encrypt_length _ _ G (block_size_pos c)). exact H3.
    + rewrite (cbc_decrypt_length _ _ G (block_size_pos c)); auto.
      rewrite length_firstn, <- block_size_iv_length by assumption. lia.
Qed.

(** Decryption undoes encryption under the same key and IV. *)
Lemma do_cipher_roundtrip (c : EVP_CIPHER) (key v : list byte) (x : list byte) :
  EVP_CIPHER_key_length c <= length key ->
  EVP_CIPHER_iv_length c <= length v ->
  length x mod EVP_CIPHER_block_size c = 0 ->
  snd (do_cipher (ready_ctx c key v false)
         (snd (do_cipher (ready_ctx c key v true) x))) = x.
Proof.
  intros Hk Hv Hx.
  destruct (EVP_CIPHER_eq_dec c rc4) as [->|Hc].
  - rewrite !do_cipher_stream. apply RC4Facts.RC4_involutive.
  - rewrite !do_cipher_block by assumption.
    pose proof (init_key_good c _ Hc (crypto_key_length c key Hk)) as G.
    destruct (chunks_aligned _ x (block_size_pos c) Hx) as (H1 & H2 & H3).
    rewrite (cbc_roundtrip _ _ G (block_size_pos c)); auto.
    rewrite length_firstn, <- block_size_iv_length by assumption. lia.
Qed.

Lemma land_block_mask (c : EVP_CIPHER) (n : nat) :
  n mod EVP_CIPHER_block_size c = 0 ->
  Z.land (Z.of_nat n) (Z.of_nat (EVP_CIPHER_block_size c) - 1) = 0%Z.
Proof.
  intros H.
  assert (E : exists k, (Z.of_nat (EVP_CIPHER_block_size c) - 1 = Z.ones k
                         /\ 0 <= k /\ 2 ^ k = Z.of_nat (EVP_CIPHER_block_size c))%Z).
  { destruct c; [exists 4%Z|exists 4%Z|exists 3%Z|exists 3%Z|exists 0%Z];
      cbn; repeat split; lia. }
  destruct E as (k & -> & Hk & Hp).
  rewrite Z.land_ones, Hp by assumption.
  rewrite <- Nat2Z.inj_mod, H. reflexivity.
Qed.

Lemma EVP_EncryptUpdate_ready (c : EVP_CIPHER) (key v : list byte) (enc : bool)
      (input : list byte) (n : nat) :
  n mod EVP_CIPHER_block_size c = 0 -> n <= length input ->
  let ctx := ready_ctx c key v enc in
  EVP_EncryptUpdate ctx input (Z.of_nat n) =
  Ok (1%Z, fst (do_cipher ctx (firstn n input)),
      snd (do_cipher ctx (firstn n input)), Z.of_nat n).
Proof.
  intros Hn Hl ctx. unfold EVP_EncryptUpdate.
  change (ctx_cipher ctx) with (Some c). cbv iota beta.
  destruct n as [|n].
  - cbn [Z.of_nat Z.leb Z.compare Z.eqb firstn].
    subst ctx. destruct c, enc; reflexivity.
  - rewrite (proj2 (Z.leb_gt _ _)) by lia.
    rewrite Nat2Z.id. unfold Buffer.read.
    replace (0 + S n <=? length input) with true
      by (symmetry; apply Nat.leb_le; lia).
    cbn [bind skipn].
    change (length (buf ctx)) with 0. cbn [Nat.eqb andb].
    rewrite land_block_mask by assumption. cbn [Z.eqb].
    destruct (do_cipher ctx (firstn (S n) input)). reflexivity.
Qed.

Lemma EVP_DecryptUpdate_ready (c : EVP_CIPHER) (key v : list byte) (enc : bool)
      (input : list byte) (n : nat) :
  n mod EVP_CIPHER_block_size c = 0 -> n <= length input ->
  let ctx := ready_ctx c key v enc in
  EVP_DecryptUpdate ctx input (Z.of_nat n) =
  Ok (1%Z, fst (do_cipher ctx (firstn n input)),
      snd (do_cipher ctx (firstn n input)), Z.of_nat n).
Proof.
  intros Hn Hl ctx. unfold EVP_DecryptUpdate.
  change (ctx_cipher ctx) with (Some c). cbv iota beta.
  destruct (Z.of_nat n <=? 0)%Z eqn:E.
  - assert (n = 0) by lia. subst n. cbn [Z.of_nat Z.eqb firstn].
    subst ctx. destruct c, enc; reflexivity.
  - change (no_padding ctx) with true. cbv iota.
    now apply EVP_EncryptUpdate_ready.
Qed.

Lemma EVP_EncryptFinal_flushed (c : EVP_CIPHER) (ctx : EVP_CIPHER_CTX) :
  flushed c ctx -> EVP_EncryptFinal_ex ctx = Ok (1%Z, ctx, [], 0%Z).
Proof.
  intros (Hc & Hb & Hp). unfold EVP_EncryptFinal_ex. rewrite Hc, Hb, Hp.
  now destruct (EVP_CIPHER_block_size c =? 1).
Qed.

Lemma EVP_DecryptFinal_flushed (c : EVP_CIPHER) (ctx : EVP_CIPHER_CTX) :
  flushed c ctx -> EVP_DecryptFinal_ex ctx = Ok (1%Z, ctx, [], 0%Z).
Proof.
  intros (Hc & Hb & Hp). unfold EVP_DecryptFinal_ex. now rewrite Hc, Hb, Hp.
Qed.

End EVPFacts.

(* ================================================================== *)
(** * Properties of library.c *)
(* ================================================================== *)

Import BytesFacts EVPFacts.

Section Padding.

Variable bs : nat.
Hypothesis Hbs : 0 < bs.

Lemma padding_length_aligned (len : nat) :
  len mod bs = 0 -> padding_length len bs = 0.
Proof.
  intros H. unfold padding_length. rewrite H, Nat.sub_0_r.
  apply Nat.Div0.mod_same.
Qed.

Lemma padding_length_unaligned (len : nat) :
  len mod bs <> 0 -> padding_length len bs = bs - len mod bs.
Proof.
  intros H. unfold padding_length. apply Nat.mod_small.
  pose proof (Nat.mod_upper_bound len bs). lia.
Qed.

(** [padded_length len bs] is the least multiple of [bs] from [len] on. *)
Lemma padded_length_spec (len : nat) :
  padded_length len bs mod bs = 0
  /\ len <= padded_length len bs < len + bs.
Proof.
  unfold padded_length.
  destruct (Nat.eq_dec (len mod bs) 0) as [E|E].
  - rewrite padding_length_aligned by assumption. rewrite Nat.add_0_r. lia.
  - rewrite padding_length_unaligned by assumption.
    pose proof (Nat.mod_upper_bound len bs ltac:(lia)) as Hlt.
    split; [|lia].
    rewrite (Nat.div_mod_eq len bs) at 1.
    replace (bs * (len / bs) + len mod bs + (bs - len mod bs))
      with ((1 + len / bs) * bs) by lia.
    apply Nat.Div0.mod_mul.
Qed.

Lemma padded_buffer_length (data : list byte) (dlen : nat) :
  padded_length dlen bs <= length data ->
  length (padded_buffer data dlen bs) = length data.
Proof.
  intros H. pose proof (padded_length_spec dlen) as [_ Hp].
  unfold padded_buffer, pad_to_block.
  rewrite !length_app, repeat_length, length_skipn, !length_firstn.
  rewrite Nat.min_l by lia. unfold padded_length in *. lia.
Qed.

Lemma firstn_padded_buffer (data : list byte) (dlen : nat) :
  padded_length dlen bs <= length data ->
  firstn (padded_length dlen bs) (padded_buffer data dlen bs)
  = pad_to_block bs (firstn dlen data).
Proof.
  intros H. pose proof (padded_length_spec dlen) as [_ Hp].
  unfold padded_buffer. rewrite firstn_app.
  assert (E : length (pad_to_block bs (firstn dlen data)) = padded_length dlen bs).
  { unfold pad_to_block. rewrite length_app, repeat_length, length_firstn.
    rewrite Nat.min_l by lia. reflexivity. }
  rewrite E, Nat.sub_diag, firstn_O, app_nil_r.
  apply firstn_all2. lia.
Qed.

(** The macro pads the datagram in place. *)
Lemma CRYPTO_DATA_PADDING_ok (data : list byte) (dlen : nat) :
  padded_length dlen bs <= length data ->
  CRYPTO_DATA_PADDING data dlen bs
  = Ok (padded_buffer data dlen bs, padded_length dlen bs).
Proof.
  intros H. pose proof (padded_length_spec dlen) as [_ Hp].
  unfold CRYPTO_DATA_PADDING, padded_buffer, pad_to_block, padded_length in *.
  rewrite (proj2 (Nat.eqb_neq bs 0)) by lia.
  rewrite length_firstn, Nat.min_l by lia.
  destruct (Nat.eqb_spec (dlen mod bs) 0) as [E|E]; cbn [negb].
  - rewrite padding_length_aligned by assumption.
    cbn [repeat]. now rewrite app_nil_r, Nat.add_0_r, firstn_skipn.
  - rewrite padding_length_unaligned in * by assumption.
    unfold Buffer.memset, Buffer.write. rewrite repeat_length.
    rewrite (proj2 (Nat.leb_le _ _)) by lia.
    cbn [bind]. now rewrite app_assoc.
Qed.

End Padding.

Lemma effective_iv_length_pos (c : EVP_CIPHER) : 0 < effective_iv_length c.
Proof. destruct c; cbn; lia. Qed.

Lemma iv_length_le_effective (c : EVP_CIPHER) :
  EVP_CIPHER_iv_length c <= effective_iv_length c <= 16.
Proof. destruct c; cbn; lia. Qed.

(** A datagram padded to the IV length is made of whole cipher blocks. *)
Lemma padded_length_blocks (c : EVP_CIPHER) (dlen : nat) :
  padded_length dlen (effective_iv_length c) mod EVP_CIPHER_block_size c = 0.
Proof.
  pose proof (padded_length_spec _ (effective_iv_length_pos c) dlen) as [H _].
  destruct c; unfold effective_iv_length in *;
    cbn [EVP_CIPHER_iv_length EVP_CIPHER_block_size Nat.eqb] in *;
    try assumption. apply Nat.mod_1_r.
Qed.

Lemma memcpy_iv (junk : nat -> byte) (c : EVP_CIPHER) :
  Buffer.memcpy (uninitialised junk CRYPTO_MAX_KEY_SIZE) 0
                crypto_ivec_initdata (effective_iv_length c)
  = Ok (iv_array junk c).
Proof. destruct c; reflexivity. Qed.

Lemma iv_array_length (junk : nat -> byte) (c : EVP_CIPHER) :
  length (iv_array junk c) = CRYPTO_MAX_KEY_SIZE.
Proof. destruct c; reflexivity. Qed.

Lemma firstn_iv_array (junk : nat -> byte) (c : EVP_CIPHER) :
  firstn (EVP_CIPHER_iv_length c) (iv_array junk c)
  = firstn (EVP_CIPHER_iv_length c) crypto_ivec_initdata.
Proof. destruct c; reflexivity. Qed.

Lemma ready_ctx_iv_array (junk : nat -> byte) (c : EVP_CIPHER) (key : list byte)
      (enc : bool) :
  ready_ctx c key (iv_array junk c) enc = ready_ctx c key crypto_ivec_initdata enc.
Proof. unfold ready_ctx. now rewrite firstn_iv_array. Qed.

Lemma EVP_CipherInit_ex_ok (c : EVP_CIPHER) (key v : list byte) (enc : bool) :
  EVP_CIPHER_key_length c <= length key ->
  EVP_CIPHER_iv_length c <= length v ->
  exists ctx,
    EVP_CipherInit_ex EVP_CIPHER_CTX_init c key v enc = Ok (1%Z, ctx)
    /\ EVP_CIPHER_CTX_set_padding ctx 0 = ready_ctx c key v enc.
Proof.
  intros Hk Hv. unfold EVP_CipherInit_ex, Buffer.read.
  cbn [Nat.add skipn].
  rewrite (proj2 (Nat.leb_le _ _) Hk), (proj2 (Nat.leb_le _ _) Hv).
  cbn [bind]. eexists. split; reflexivity.
Qed.

Lemma int_of_size_t_small (n : nat) :
  (Z.of_nat n <= INT_MAX)%Z -> int_of_size_t n = Z.of_nat n.
Proof.
  unfold int_of_size_t, INT_MAX. intros H.
  rewrite Z.mod_small by lia. now rewrite (proj2 (Z.leb_le _ _)) by exact H.
Qed.

Lemma size_t_of_int_small (n : nat) :
  (Z.of_nat n <= INT_MAX)%Z -> size_t_of_int (Z.of_nat n + 0) = n.
Proof.
  unfold size_t_of_int, INT_MAX. intros H.
  rewrite Z.add_0_r, Z.mod_small by lia. apply Nat2Z.id.
Qed.

Lemma write_nothing (buf : list byte) (off : nat) :
  off <= length buf -> Buffer.write buf off [] = Ok buf.
Proof.
  intros H. unfold Buffer.write. cbn [length app]. rewrite Nat.add_0_r.
  rewrite (proj2 (Nat.leb_le _ _) H). now rewrite firstn_skipn.
Qed.

Lemma write_front (buf src : list byte) :
  length src <= length buf ->
  Buffer.write buf 0 src = Ok (src ++ skipn (length src) buf).
Proof.
  intros H. unfold Buffer.write. cbn [Nat.add firstn app].
  now rewrite (proj2 (Nat.leb_le _ _) H).
Qed.

Section Engine.

Variables (junk : nat -> byte) (key : list byte) (c : EVP_CIPHER).
Variables (in_ out : list byte) (dlen : nat).
Hypothesis Hpre : engine_pre key c in_ out dlen.

Let bs := effective_iv_length c.
Let n := padded_length dlen bs.

Lemma engine_output_length (enc : bool) :
  length (engine_output c key enc in_ dlen) = n.
Proof.
  destruct Hpre as [Hk Hi Ho Hz]. unfold engine_output, n, bs in *.
  pose proof (padded_length_spec _ (effective_iv_length_pos c) dlen) as [_ Hp].
  assert (E : length (pad_to_block (effective_iv_length c) (firstn dlen in_))
              = padded_length dlen (effective_iv_length c)).
  { unfold pad_to_block. rewrite length_app, repeat_length, length_firstn.
    rewrite Nat.min_l by lia. reflexivity. }
  rewrite do_cipher_length; auto.
  - cbn. pose proof (iv_length_le_effective c). lia.
  - rewrite E. apply padded_length_blocks.
Qed.

(** The run of [datagram_encrypt] on arguments that meet its
    requirements. *)
Lemma datagram_encrypt_ok :
  datagram_encrypt junk key c in_ out dlen
  = Ok (padded_buffer in_ dlen bs,
        engine_output c key true in_ dlen ++ skipn n out, n).
Proof.
  pose proof (engine_output_length true) as Hlen.
  destruct Hpre as [Hk Hi Ho Hz]. unfold n, bs in *.
  unfold datagram_encrypt.
  change (if EVP_CIPHER_iv_length c =? 0 then 16 else EVP_CIPHER_iv_length c)
    with (effective_iv_length c).
  rewrite memcpy_iv. cbn [bind].
  rewrite (CRYPTO_DATA_PADDING_ok _ (effective_iv_length_pos c)) by exact Hi.
  cbn [bind].
  destruct (EVP_CipherInit_ex_ok c key (iv_array junk c) true Hk) as (ctx & E1 & E2).
  { rewrite iv_array_length. pose proof (iv_length_le_effective c).
    unfold CRYPTO_MAX_KEY_SIZE. lia. }
  unfold EVP_EncryptInit_ex. rewrite E1. cbn [bind Z.eqb negb assert].
  rewrite E2, ready_ctx_iv_array, int_of_size_t_small by exact Hz.
  rewrite EVP_EncryptUpdate_ready;
    [|apply padded_length_blocks
     |rewrite (padded_buffer_length _ (effective_iv_length_pos c)); auto].
  cbn [bind].
  rewrite (firstn_padded_buffer _ (effective_iv_length_pos c)) by exact Hi.
  fold (engine_output c key true in_ dlen).
  rewrite write_front by lia. cbn [bind Z.eqb negb assert].
  rewrite (EVP_EncryptFinal_flushed c)
    by apply do_cipher_flushed, ready_ctx_flushed.
  cbn [bind]. rewrite Nat2Z.id.
  rewrite write_nothing by (rewrite length_app, length_skipn; lia).
  cbn [bind Z.eqb negb assert].
  rewrite size_t_of_int_small by exact Hz. now rewrite Hlen.
Qed.

(** The run of [datagram_decrypt] on arguments that meet its
    requirements. *)
Lemma datagram_decrypt_ok :
  datagram_decrypt junk key c in_ out dlen
  = Ok (padded_buffer in_ dlen bs,
        engine_output c key false in_ dlen ++ skipn n out, n).
Proof.
  pose proof (engine_output_length false) as Hlen.
  destruct Hpre as [Hk Hi Ho Hz]. unfold n, bs in *.
  unfold datagram_decrypt.
  change (if EVP_CIPHER_iv_length c =? 0 then 16 else EVP_CIPHER_iv_length c)
    with (effective_iv_length c).
  rewrite memcpy_iv. cbn [bind].
  rewrite (CRYPTO_DATA_PADDING_ok _ (effective_iv_length_pos c)) by exact Hi.
  cbn [bind].
  destruct (EVP_CipherInit_ex_ok c key (iv_array junk c) false Hk) as (ctx & E1 & E2).
  { rewrite iv_array_length. pose proof (iv_length_le_effective c).
    unfold CRYPTO_MAX_KEY_SIZE. lia. }
  unfold EVP_DecryptInit_ex. rewrite E1. cbn [bind Z.eqb negb assert].
  rewrite E2, ready_ctx_iv_array, int_of_size_t_small by exact Hz.
  rewrite EVP_DecryptUpdate_ready;
    [|apply padded_length_blocks
     |rewrite (padded_buffer_length _ (effective_iv_length_pos c)); auto].
  cbn [bind].
  rewrite (firstn_padded_buffer _ (effective_iv_length_pos c)) by exact Hi.
  fold (engine_output c key false in_ dlen).
  rewrite write_front by lia. cbn [bind Z.eqb negb assert].
  rewrite (EVP_DecryptFinal_flushed c)
    by apply do_cipher_flushed, ready_ctx_flushed.
  cbn [bind]. rewrite Nat2Z.id.
  rewrite write_nothing by (rewrite length_app, length_skipn; lia).
  cbn [bind Z.eqb negb assert].
  rewrite size_t_of_int_small by exact Hz. now rewrite Hlen.
Qed.

End Engine.

Lemma md5_length (msg : list byte) : length (MD5.md5 msg) = 16.
Proof.
  unfold MD5.md5.
  destruct (fold_left MD5.process_block _ MD5.init_buffer) as [[[a b] c] d].
  reflexivity.
Qed.

Lemma nth_concat_repeat (d : list byte) (k i : nat) :
  length d = 16 -> i < 16 * k ->
  nth i (concat (repeat d k)) Byte.x00 = nth (i mod 16) d Byte.x00.
Proof.
  intros Hd. revert i. induction k as [|k IH]; intros i Hi; [lia|].
  cbn [repeat concat]. destruct (Nat.lt_ge_cases i 16) as [Hlt|Hge].
  - rewrite app_nth1 by lia. now rewrite Nat.mod_small.
  - rewrite app_nth2, Hd by lia. rewrite IH by lia. f_equal.
    replace i with (i - 16 + 1 * 16) at 2 by lia.
    now rewrite Nat.Div0.mod_add.
Qed.

Lemma tiled_length (d : list byte) (n : nat) :
  length d = 16 -> length (tiled d n) = n.
Proof.
  intros Hd. unfold tiled. rewrite length_firstn. apply Nat.min_l.
  rewrite (concat_length_blocks 16) by (apply Forall_forall; intros x Hx;
    apply repeat_spec in Hx; now subst).
  rewrite repeat_length. pose proof (Nat.div_mod_eq n 16).
  pose proof (Nat.mod_upper_bound n 16). lia.
Qed.

Lemma nth_tiled (d : list byte) (n i : nat) :
  length d = 16 -> i < n ->
  nth i (tiled d n) Byte.x00 = nth (i mod 16) d Byte.x00.
Proof.
  intros Hd Hi. unfold tiled. rewrite nth_firstn.
  rewrite (proj2 (Nat.ltb_lt _ _) Hi). apply nth_concat_repeat; auto.
  pose proof (Nat.div_mod_eq n 16). pose proof (Nat.mod_upper_bound n 16). lia.
Qed.

Lemma tiled_short (d : list byte) (n : nat) :
  n <= 16 -> length d = 16 -> tiled d n = firstn n d.
Proof.
  intros Hn Hd. unfold tiled. cbn [repeat concat].
  rewrite firstn_app. replace (n - length d) with 0 by lia.
  now rewrite firstn_O, app_nil_r.
Qed.

(** The loop copies the first 16 bytes of [out] over [outp .. oute). *)
Lemma fill_loop_ok (out : list byte) (outp oute : nat) :
  16 <= outp -> outp mod 16 = 0 -> (outp < oute -> oute <= length out) ->
  exists out',
    fill_loop out outp oute = Ok out'
    /\ length out' = length out
    /\ forall i, nth i out' Byte.x00 =
                 if (outp <=? i) && (i <? oute)
                 then nth (i mod 16) out Byte.x00 else nth i out Byte.x00.
Proof.
  funelim (fill_loop out outp oute); intros H16 Hmod Hcap.
  - exists out. repeat split. intros i.
    destruct (Nat.leb_spec outp i), (Nat.ltb_spec i oute); cbn; auto; lia.
  - clear Heqcall. specialize (Hcap l).
    unfold Buffer.memcpy, Buffer.read, Buffer.write in Heq.
    set (bs := if 16 <=? oute - outp then 16 else oute - outp) in *.
    assert (Hbs : bs = Nat.min 16 (oute - outp)).
    { subst bs. destruct (Nat.leb_spec 16 (oute - outp)); lia. }
    clearbody bs.
    rewrite (proj2 (Nat.leb_le (0 + bs) (length out))) in Heq by lia.
    cbn [bind skipn] in Heq.
    rewrite length_firstn, Nat.min_l in Heq by lia.
    rewrite (proj2 (Nat.leb_le (outp + bs) (length out))) in Heq by lia.
    injection Heq as <-.
    set (out1 := firstn outp out ++ firstn bs out ++ skipn (outp + bs) out) in *.
    assert (L1 : length out1 = length out).
    { subst out1. rewrite !length_app, !length_firstn, length_skipn. lia. }
    assert (N1 : forall i, nth i out1 Byte.x00 =
                           if (outp <=? i) && (i <? outp + bs)
                           then nth (i mod 16) out Byte.x00
                           else nth i out Byte.x00).
    { intros i. subst out1.
      destruct (Nat.leb_spec outp i), (Nat.ltb_spec i (outp + bs));
        cbn [andb].
      - rewrite app_nth2; rewrite length_firstn, Nat.min_l; try lia.
        rewrite app_nth1 by (rewrite length_firstn; lia).
        rewrite nth_firstn, (proj2 (Nat.ltb_lt _ _)) by lia.
        f_equal. apply Nat.Div0.div_exact in Hmod.
        replace i with (i - outp + (outp / 16) * 16) at 2 by lia.
        rewrite Nat.Div0.mod_add. symmetry. apply Nat.mod_small. lia.
      - rewrite app_nth2; rewrite length_firstn, Nat.min_l; try lia.
        rewrite app_nth2; rewrite length_firstn, Nat.min_l; try lia.
        rewrite nth_skipn. f_equal. lia.
      - rewrite app_nth1 by (rewrite length_firstn; lia).
        rewrite nth_firstn, (proj2 (Nat.ltb_lt _ _)) by lia. reflexivity.
      - lia. }
    destruct H as (out' & E & L & N).
    + lia.
    + apply Nat.Div0.div_exact in Hmod.
      replace (outp + 16) with ((1 + outp / 16) * 16) by lia.
      apply Nat.Div0.mod_mul.
    + rewrite L1. lia.
    + exists out'. split; [exact E|]. split; [congruence|].
      intros i. rewrite N, !N1.
      assert (M : i mod 16 < 16) by (apply Nat.mod_upper_bound; lia).
      destruct (Nat.leb_spec (outp + 16) i), (Nat.ltb_spec i oute),
        (Nat.leb_spec outp i), (Nat.ltb_spec i (outp + bs)),
        (Nat.leb_spec outp (i mod 16)); cbn [andb]; try reflexivity; try lia.
  - exfalso. unfold Buffer.memcpy, Buffer.read, Buffer.write in Heq.
    destruct (_ <=? _) in Heq; cbn [bind] in Heq; [|discriminate].
    destruct (_ <=? _) in Heq; discriminate.
  - exfalso. specialize (Hcap l).
    unfold Buffer.memcpy, Buffer.read, Buffer.write in Heq.
    set (bs := if 16 <=? oute - outp then 16 else oute - outp) in *.
    assert (Hbs : bs <= 16 /\ outp + bs <= oute).
    { subst bs. destruct (Nat.leb_spec 16 (oute - outp)); lia. }
    rewrite (proj2 (Nat.leb_le (0 + bs) (length out))) in Heq by lia.
    cbn [bind skipn] in Heq.
    rewrite length_firstn, Nat.min_l in Heq by lia.
    rewrite (proj2 (Nat.leb_le (outp + bs) (length out))) in Heq by lia.
    discriminate.
Qed.

(** The run of [fill_with_string_md5sum] on a buffer that holds the
    digest and the [outlen] bytes asked for. *)
Lemma fill_with_string_md5sum_ok (pass : string) (out : list byte) (outlen : nat) :
  16 <= length out -> outlen <= length out ->
  exists key,
    fill_with_string_md5sum pass out outlen = Ok key
    /\ length key = length out
    /\ firstn outlen key = tiled (MD5.md5 (Libc.bytes_of_c_string pass)) outlen
    /\ firstn 16 key = MD5.md5 (Libc.bytes_of_c_string pass)
    /\ skipn (Nat.max 16 outlen) key = skipn (Nat.max 16 outlen) out.
Proof.
  intros H16 Hn. unfold fill_with_string_md5sum.
  unfold MD5.MD5_Final, MD5.MD5_Update, MD5.MD5_Init. cbn [app Nat.add].
  set (d := MD5.md5 (Libc.bytes_of_c_string pass)).
  assert (Hd : length d = 16) by apply md5_length.
  rewrite write_front by lia. cbn [bind]. rewrite Hd.
  set (out1 := d ++ skipn 16 out).
  assert (L1 : length out1 = length out).
  { subst out1. rewrite length_app, length_skipn. lia. }
  destruct (fill_loop_ok out1 16 outlen) as (key & E & L & N); try lia.
  { reflexivity. }
  assert (D : forall j, j < 16 -> nth j out1 Byte.x00 = nth j d Byte.x00).
  { intros j Hj. subst out1. apply app_nth1. lia. }
  exists key. split; [exact E|]. split; [congruence|].
  assert (M : forall i, i mod 16 < 16) by (intros; apply Nat.mod_upper_bound; lia).
  repeat split.
  - apply nth_ext with (d := Byte.x00) (d' := Byte.x00).
    + rewrite tiled_length, length_firstn by assumption. lia.
    + intros i Hi. rewrite length_firstn in Hi.
      rewrite nth_firstn, (proj2 (Nat.ltb_lt i outlen)) by lia.
      rewrite nth_tiled, N by (auto; lia).
      destruct (Nat.leb_spec 16 i), (Nat.ltb_spec i outlen); cbn [andb];
        try lia; rewrite ?D by auto; auto.
      now rewrite Nat.mod_small by lia.
  - apply nth_ext with (d := Byte.x00) (d' := Byte.x00).
    + rewrite length_firstn. lia.
    + intros i Hi. rewrite length_firstn in Hi.
      rewrite nth_firstn, (proj2 (Nat.ltb_lt i 16)) by lia.
      rewrite N. rewrite (proj2 (Nat.leb_gt 16 i)) by lia.
      cbn [andb]. apply D. lia.
  - apply nth_ext with (d := Byte.x00) (d' := Byte.x00).
    + rewrite !length_skipn. lia.
    + intros i Hi. rewrite !nth_skipn, N.
      rewrite (proj2 (Nat.ltb_ge _ outlen)) by lia.
      rewrite andb_false_r. subst out1.
      rewrite app_nth2, nth_skipn by lia. f_equal. lia.
Qed.

Module LibcFacts.
Import Libc.

Local Open Scope Z_scope.

Lemma tolower_lower_char (a : ascii) :
  tolower (Z.of_N (N_of_ascii a)) = Z.of_N (N_of_ascii (lower_char a)).
Proof. destruct a as [[] [] [] [] [] [] [] []]; reflexivity. Qed.

Lemma lower_char_nul (a : ascii) :
  N_of_ascii (lower_char a) = 0%N <-> N_of_ascii a = 0%N.
Proof. destruct a as [[] [] [] [] [] [] [] []]; cbn; split; congruence. Qed.

Lemma N_of_ascii_inj (a b : ascii) : N_of_ascii a = N_of_ascii b -> a = b.
Proof.
  intros H. rewrite <- (ascii_N_embedding a), <- (ascii_N_embedding b).
  now rewrite H.
Qed.

(** [strcasecmp] returns 0 exactly on two C strings that are equal once
    lowered. *)
Lemma strcasecmp_0 (s1 s2 : string) :
  strcasecmp s1 s2 = 0 <-> lower_c_string s1 = lower_c_string s2.
Proof.
  revert s2. induction s1 as [|a t1 IH]; intros [|b t2];
    cbn [strcasecmp lower_c_string char_at].
  - tauto.
  - rewrite tolower_lower_char. change (tolower 0) with 0.
    destruct (Z.eqb_spec 0 (Z.of_N (N_of_ascii (lower_char b)))) as [E|E].
    + assert (B0 : N_of_ascii b = 0%N) by (apply lower_char_nul; lia).
      rewrite B0. cbn. tauto.
    + assert (B0 : N_of_ascii b <> 0%N)
        by (intros F; apply lower_char_nul in F; lia).
      rewrite (proj2 (N.eqb_neq _ _) B0). split; [lia|discriminate].
  - rewrite tolower_lower_char. change (tolower 0) with 0.
    destruct (Z.eqb_spec (Z.of_N (N_of_ascii (lower_char a))) 0) as [E|E].
    + assert (A0 : N_of_ascii a = 0%N) by (apply lower_char_nul; lia).
      rewrite A0. cbn. tauto.
    + assert (A0 : N_of_ascii a <> 0%N)
        by (intros F; apply lower_char_nul in F; lia).
      rewrite (proj2 (N.eqb_neq _ _) A0). split; [lia|discriminate].
  - rewrite !tolower_lower_char.
    destruct (Z.eqb_spec (Z.of_N (N_of_ascii (lower_char a)))
                         (Z.of_N (N_of_ascii (lower_char b)))) as [E|E].
    + apply N2Z.inj in E.
      destruct (Z.eqb_spec (Z.of_N (N_of_ascii (lower_char a))) 0) as [Z0|Z0].
      * assert (A0 : N_of_ascii a = 0%N) by (apply lower_char_nul; lia).
        assert (B0 : N_of_ascii b = 0%N) by (apply lower_char_nul; lia).
        rewrite A0, B0. cbn. tauto.
      * assert (A0 : N_of_ascii a <> 0%N)
          by (intros F; apply lower_char_nul in F; lia).
        assert (B0 : N_of_ascii b <> 0%N)
          by (intros F; apply lower_char_nul in F; lia).
        rewrite (proj2 (N.eqb_neq _ _) A0), (proj2 (N.eqb_neq _ _) B0), IH.
        apply N_of_ascii_inj in E. rewrite E.
        split; [intros ->; reflexivity|intros H; now injection H].
    + split; [lia|]. intros H. exfalso.
      destruct (N.eqb_spec (N_of_ascii a) 0) as [A0|A0],
               (N.eqb_spec (N_of_ascii b) 0) as [B0|B0]; try discriminate.
      * assert (a = b) by (apply N_of_ascii_inj; congruence). subst. now apply E.
      * injection H as H _. apply E. now rewrite H.
Qed.

End LibcFacts.

(** The registry looks the lowered name up in its table. *)
Lemma find_cipher_registry (nm : string) :
  find_cipher cipher_pairs nm = registry (lower_c_string nm).
Proof.
  unfold cipher_pairs, registry. cbn [find_cipher name cipher].
  repeat match goal with
  | |- context [(Libc.strcasecmp ?s nm =? 0)%Z] =>
      let E := fresh in
      pose proof (LibcFacts.strcasecmp_0 s nm) as E;
      change (lower_c_string s) with s in E;
      destruct (Z.eqb_spec (Libc.strcasecmp s nm) 0) as [F|F];
      [ apply E in F; rewrite <- F; reflexivity
      | destruct (String.eqb_spec (lower_c_string nm) s) as [G|G];
        [ exfalso; apply F, E; now rewrite G | clear E F G ] ]
  end.
  reflexivity.
Qed.

Lemma get_crypto_type_registry (nm : string) :
  get_crypto_type nm = Ok (registry (lower_c_string nm)).
Proof.
  unfold get_crypto_type. rewrite find_cipher_registry.
  destruct (registry (lower_c_string nm)) as [[]|]; reflexivity.
Qed.

(** Conversely, a call of [datagram_encrypt] on a datagram whose padded
    length fits an [int] only returns when its requirements are met. *)
Lemma datagram_encrypt_returns (junk : nat -> byte) (key : list byte)
      (c : EVP_CIPHER) (in_ out : list byte) (dlen : nat)
      (r : list byte * list byte * nat) :
  (Z.of_nat (padded_length dlen (effective_iv_length c)) <= INT_MAX)%Z ->
  datagram_encrypt junk key c in_ out dlen = Ok r ->
  engine_pre key c in_ out dlen.
Proof.
  intros Hint E.
  pose proof (effective_iv_length_pos c) as Hpos.
  pose proof (iv_length_le_effective c) as Hiv.
  assert (Hivlen : EVP_CIPHER_iv_length c <= length (iv_array junk c))
    by (rewrite iv_array_length; unfold CRYPTO_MAX_KEY_SIZE; lia).
  unfold datagram_encrypt in E.
  change (if EVP_CIPHER_iv_length c =? 0 then 16 else EVP_CIPHER_iv_length c)
    with (effective_iv_length c) in E.
  rewrite memcpy_iv in E. cbn [bind] in E.
  (* the key must be there, whatever the padding does *)
  assert (Hk : EVP_CIPHER_key_length c <= length key).
  { destruct (le_lt_dec (EVP_CIPHER_key_length c) (length key)) as [|Hk]; auto.
    exfalso.
    destruct (CRYPTO_DATA_PADDING in_ dlen (effective_iv_length c))
      as [[in' dlen']| |]; cbn [bind] in E; try discriminate E.
    unfold EVP_EncryptInit_ex, EVP_CipherInit_ex, Buffer.read in E.
    cbn [Nat.add skipn] in E.
    rewrite (proj2 (Nat.leb_le _ _) Hivlen) in E. cbn [bind] in E.
    rewrite (proj2 (Nat.leb_gt _ _) Hk) in E. discriminate E. }
  destruct (EVP_CipherInit_ex_ok c key (iv_array junk c) true Hk Hivlen)
    as (ctx & E1 & E2).
  unfold EVP_EncryptInit_ex in E.
  (* room for the padded datagram in [in] *)
  assert (Hin : padded_length dlen (effective_iv_length c) <= length in_).
  { destruct (le_lt_dec (padded_length dlen (effective_iv_length c)) (length in_))
      as [|Hin]; auto.
    exfalso. unfold CRYPTO_DATA_PADDING in E.
    rewrite (proj2 (Nat.eqb_neq _ 0)) in E by lia.
    destruct (Nat.eqb_spec (dlen mod effective_iv_length c) 0) as [Em|Em];
      cbn [negb] in E.
    - unfold padded_length in *.
      rewrite padding_length_aligned, Nat.add_0_r in * by assumption.
      cbn [bind] in E. rewrite E1 in E. cbn [bind Z.eqb negb assert] in E.
      rewrite E2, int_of_size_t_small in E by exact Hint.
      unfold EVP_EncryptUpdate, ready_ctx in E. cbn [ctx_cipher] in E.
      rewrite (proj2 (Z.leb_gt _ _)) in E by lia.
      unfold Buffer.read in E. rewrite Nat2Z.id in E.
      rewrite (proj2 (Nat.leb_gt _ _)) in E by lia. discriminate E.
    - unfold padded_length in *.
      rewrite padding_length_unaligned in * by assumption.
      unfold Buffer.memset, Buffer.write in E. rewrite repeat_length in E.
      rewrite (proj2 (Nat.leb_gt _ _)) in E by lia. discriminate E. }
  constructor; auto.
  (* room for the ciphertext in [out] *)
  destruct (le_lt_dec (padded_length dlen (effective_iv_length c)) (length out))
    as [|Hout]; auto.
  exfalso.
  rewrite (CRYPTO_DATA_PADDING_ok _ Hpos) in E by exact Hin. cbn [bind] in E.
  rewrite E1 in E. cbn [bind Z.eqb negb assert] in E.
  rewrite E2, ready_ctx_iv_array, int_of_size_t_small in E by exact Hint.
  rewrite EVP_EncryptUpdate_ready in E;
    [|apply padded_length_blocks
     |rewrite (padded_buffer_length _ Hpos); auto].
  cbn [bind] in E. unfold Buffer.write at 1 in E.
  rewrite do_cipher_length in E; auto; try lia.
  - rewrite length_firstn, (padded_buffer_length _ Hpos), Nat.min_l in E by lia.
    rewrite (proj2 (Nat.leb_gt _ _)) in E by lia. discriminate E.
  - cbn. lia.
  - rewrite length_firstn, (padded_buffer_length _ Hpos), Nat.min_l by lia.
    apply padded_length_blocks.
Qed.

(** Likewise, a call of [datagram_decrypt] on a datagram whose padded
    length fits an [int] only returns when its requirements are met. *)
Lemma datagram_decrypt_returns (junk : nat -> byte) (key : list byte)
      (c : EVP_CIPHER) (in_ out : list byte) (dlen : nat)
      (r : list byte * list byte * nat) :
  (Z.of_nat (padded_length dlen (effective_iv_length c)) <= INT_MAX)%Z ->
  datagram_decrypt junk key c in_ out dlen = Ok r ->
  engine_pre key c in_ out dlen.
Proof.
  intros Hint E.
  pose proof (effective_iv_length_pos c) as Hpos.
  pose proof (iv_length_le_effective c) as Hiv.
  assert (Hivlen : EVP_CIPHER_iv_length c <= length (iv_array junk c))
    by (rewrite iv_array_length; unfold CRYPTO_MAX_KEY_SIZE; lia).
  unfold datagram_decrypt in E.
  change (if EVP_CIPHER_iv_length c =? 0 then 16 else EVP_CIPHER_iv_length c)
    with (effective_iv_length c) in E.
  rewrite memcpy_iv in E. cbn [bind] in E.
  (* the key must be there, whatever the padding does *)
  assert (Hk : EVP_CIPHER_key_length c <= length key).
  { destruct (le_lt_dec (EVP_CIPHER_key_length c) (length key)) as [|Hk]; auto.
    exfalso.
    destruct (CRYPTO_DATA_PADDING in_ dlen (effective_iv_length c))
      as [[in' dlen']| |]; cbn [bind] in E; try discriminate E.
    unfold EVP_DecryptInit_ex, EVP_CipherInit_ex, Buffer.read in E.
    cbn [Nat.add skipn] in E.
    rewrite (proj2 (Nat.leb_le _ _) Hivlen) in E. cbn [bind] in E.
    rewrite (proj2 (Nat.leb_gt _ _) Hk) in E. discriminate E. }
  destruct (EVP_CipherInit_ex_ok c key (iv_array junk c) false Hk Hivlen)
    as (ctx & E1 & E2).
  unfold EVP_DecryptInit_ex in E.
  (* room for the padded datagram in [in] *)
  assert (Hin : padded_length dlen (effective_iv_length c) <= length in_).
  { destruct (le_lt_dec (padded_length dlen (effective_iv_length c)) (length in_))
      as [|Hin]; auto.
    exfalso. unfold CRYPTO_DATA_PADDING in E.
    rewrite (proj2 (Nat.eqb_neq _ 0)) in E by lia.
    destruct (Nat.eqb_spec (dlen mod effective_iv_length c) 0) as [Em|Em];
      cbn [negb] in E.
    - unfold padded_length in *.
      rewrite padding_length_aligned, Nat.add_0_r in * by assumption.
      cbn [bind] in E. rewrite E1 in E. cbn [bind Z.eqb negb assert] in E.
      rewrite E2, int_of_size_t_small in E by exact Hint.
      unfold EVP_DecryptUpdate, ready_ctx in E. cbn [ctx_cipher] in E.
      rewrite (proj2 (Z.leb_gt _ _)) in E by lia.
      cbn [no_padding] in E. unfold EVP_EncryptUpdate in E. cbn [ctx_cipher] in E.
      rewrite (proj2 (Z.leb_gt _ _)) in E by lia.
      unfold Buffer.read in E. rewrite Nat2Z.id in E.
      rewrite (proj2 (Nat.leb_gt _ _)) in E by lia. discriminate E.
    - unfold padded_length in *.
      rewrite padding_length_unaligned in * by assumption.
      unfold Buffer.memset, Buffer.write in E. rewrite repeat_length in E.
      rewrite (proj2 (Nat.leb_gt _ _)) in E by lia. discriminate E. }
  constructor; auto.
  (* room for the ciphertext in [out] *)
  destruct (le_lt_dec (padded_length dlen (effective_iv_length c)) (length out))
    as [|Hout]; auto.
  exfalso.
  rewrite (CRYPTO_DATA_PADDING_ok _ Hpos) in E by exact Hin. cbn [bind] in E.
  rewrite E1 in E. cbn [bind Z.eqb negb assert] in E.
  rewrite E2, ready_ctx_iv_array, int_of_size_t_small in E by exact Hint.
  rewrite EVP_DecryptUpdate_ready in E;
    [|apply padded_length_blocks
     |rewrite (padded_buffer_length _ Hpos); auto].
  cbn [bind] in E. unfold Buffer.write at 1 in E.
  rewrite do_cipher_length in E; auto; try lia.
  - rewrite length_firstn, (padded_buffer_length _ Hpos), Nat.min_l in E by lia.
    rewrite (proj2 (Nat.leb_gt _ _)) in E by lia. discriminate E.
  - cbn. lia.
  - rewrite length_firstn, (padded_buffer_length _ Hpos), Nat.min_l by lia.
    apply padded_length_blocks.
Qed.

Lemma fill_loop_returns (out : list byte) (outp oute : nat) (r : list byte) :
  fill_loop out outp oute = Ok r -> outp < oute -> oute <= length out.
Proof.
  funelim (fill_loop out outp oute); intros E Hlt; try lia; try discriminate E.
  clear Heqcall.
  unfold Buffer.memcpy, Buffer.read, Buffer.write in Heq.
  set (bs := if 16 <=? oute - outp then 16 else oute - outp) in *.
  assert (Hbs : bs = Nat.min 16 (oute - outp)).
  { subst bs. destruct (Nat.leb_spec 16 (oute - outp)); lia. }
  clearbody bs.
  destruct (Nat.leb_spec (0 + bs) (length out)) as [Hb|Hb];
    cbn [bind] in Heq; [|discriminate Heq].
  rewrite length_firstn in Heq. cbn [skipn] in Heq.
  rewrite Nat.min_l in Heq by lia.
  destruct (Nat.leb_spec (outp + bs) (length out)) as [Hw|Hw];
    [|discriminate Heq].
  injection Heq as <-.
  destruct (Nat.lt_ge_cases (outp + 16) oute) as [Hmore|Hlast]; [|lia].
  specialize (H r E Hmore).
  rewrite !length_app, !length_firstn, length_skipn in H. lia.
Qed.

(** Conversely, [fill_with_string_md5sum] only returns on a buffer that
    holds the digest and the bytes asked for. *)
Lemma fill_with_string_md5sum_returns (pass : string) (out : list byte)
      (outlen : nat) (key : list byte) :
  fill_with_string_md5sum pass out outlen = Ok key ->
  16 <= length out /\ outlen <= length out.
Proof.
  unfold fill_with_string_md5sum. cbn [Nat.add]. intros E.
  destruct (Nat.lt_ge_cases (length out) 16) as [Hs|H16].
  - exfalso. unfold Buffer.write in E. cbn [Nat.add] in E.
    rewrite md5_length, (proj2 (Nat.leb_gt _ _) Hs) in E. discriminate E.
  - split; [exact H16|].
    rewrite write_front in E by (rewrite md5_length; lia). cbn [bind] in E.
    destruct (Nat.lt_ge_cases 16 outlen) as [Hlt|Hge]; [|lia].
    apply fill_loop_returns in E; auto.
    rewrite length_app, length_skipn, !md5_length in E. lia.
Qed.

(* ================================================================== *)
(** * The claims of the specification *)
(* ================================================================== *)

Lemma padded_length_idem (bs len : nat) :
  0 < bs -> padded_length (padded_length len bs) bs = padded_length len bs.
Proof.
  intros Hbs. destruct (padded_length_spec bs Hbs len) as [H _].
  unfold padded_length at 1. rewrite padding_length_aligned by assumption. lia.
Qed.

Lemma pad_to_block_aligned (bs : nat) (P : list byte) :
  0 < bs -> length P mod bs = 0 -> pad_to_block bs P = P.
Proof.
  intros Hbs H. unfold pad_to_block.
  rewrite padding_length_aligned by assumption. apply app_nil_r.
Qed.

Lemma pad_to_block_length (bs : nat) (P : list byte) :
  length (pad_to_block bs P) = padded_length (length P) bs.
Proof. unfold pad_to_block. now rewrite length_app, repeat_length. Qed.

(** ** Datagrams whose length does not fit an [int] *)

(** The [int] that [EVP_EncryptUpdate] is given when the padded length
    does not fit: the length modulo 2^32. *)
Lemma int_of_size_t_nonneg (n k : nat) :
  int_of_size_t n = Z.of_nat k ->
  k <= n /\ (Z.of_nat k <= INT_MAX)%Z
  /\ (Z.of_nat k = Z.of_nat n mod 2 ^ 32)%Z.
Proof.
  unfold int_of_size_t, INT_MAX. intros H.
  pose proof (Z.mod_pos_bound (Z.of_nat n) (2 ^ 32) ltac:(lia)) as B.
  pose proof (Z.mod_le (Z.of_nat n) (2 ^ 32) ltac:(lia) ltac:(lia)) as L.
  destruct (Z.leb_spec (Z.of_nat n mod 2 ^ 32) 2147483647); lia.
Qed.

(** The run of [datagram_encrypt] when the key and the buffers have the
    room that the C code needs, whatever the length: libcrypto is
    given the padded length as an [int], [k] here, and only so many
    bytes are encrypted and reported. *)
Lemma datagram_encrypt_int (junk : nat -> byte) (key : list byte)
      (c : EVP_CIPHER) (in_ out : list byte) (dlen k : nat) :
  EVP_CIPHER_key_length c <= length key ->
  padded_length dlen (effective_iv_length c) <= length in_ ->
  int_of_size_t (padded_length dlen (effective_iv_length c)) = Z.of_nat k ->
  k mod EVP_CIPHER_block_size c = 0 -> k <= length out ->
  exists ct,
    datagram_encrypt junk key c in_ out dlen
    = Ok (padded_buffer in_ dlen (effective_iv_length c), ct ++ skipn k out, k)
    /\ length ct = k.
Proof.
  intros Hk Hi Hz Hm Ho.
  pose proof (effective_iv_length_pos c) as Hpos.
  destruct (int_of_size_t_nonneg _ _ Hz) as (Hle & Hmax & _).
  unfold datagram_encrypt.
  change (if EVP_CIPHER_iv_length c =? 0 then 16 else EVP_CIPHER_iv_length c)
    with (effective_iv_length c).
  rewrite memcpy_iv. cbn [bind].
  rewrite (CRYPTO_DATA_PADDING_ok _ Hpos) by exact Hi. cbn [bind].
  destruct (EVP_CipherInit_ex_ok c key (iv_array junk c) true Hk) as (ctx & E1 & E2).
  { rewrite iv_array_length. pose proof (iv_length_le_effective c).
    unfold CRYPTO_MAX_KEY_SIZE. lia. }
  unfold EVP_EncryptInit_ex. rewrite E1. cbn [bind Z.eqb negb assert].
  rewrite E2, ready_ctx_iv_array, Hz.
  rewrite EVP_EncryptUpdate_ready;
    [|exact Hm|rewrite (padded_buffer_length _ Hpos); auto; lia].
  cbn [bind].
  set (ct := snd (do_cipher (ready_ctx c key crypto_ivec_initdata true)
                    (firstn k (padded_buffer in_ dlen (effective_iv_length c))))).
  assert (L : length ct = k).
  { unfold ct. rewrite do_cipher_length; auto.
    - rewrite length_firstn, (padded_buffer_length _ Hpos) by exact Hi. lia.
    - cbn. pose proof (iv_length_le_effective c). lia.
    - rewrite length_firstn, (padded_buffer_length _ Hpos), Nat.min_l
        by (exact Hi || lia).
      exact Hm. }
  exists ct. split; [|exact L].
  rewrite write_front by lia. cbn [bind Z.eqb negb assert].
  rewrite (EVP_EncryptFinal_flushed c)
    by apply do_cipher_flushed, ready_ctx_flushed.
  cbn [bind]. rewrite Nat2Z.id.
  rewrite write_nothing by (rewrite length_app, length_skipn; lia).
  cbn [bind Z.eqb negb assert].
  rewrite size_t_of_int_small by exact Hmax. now rewrite L.
Qed.

(** A datagram of 2^32 + 16 bytes is the length 16 to libcrypto. *)
Lemma wrapping_length (d : nat) (c : EVP_CIPHER) :
  Z.of_nat d = (2 ^ 32 + 16)%Z ->
  padded_length d (effective_iv_length c) = d
  /\ int_of_size_t (padded_length d (effective_iv_length c)) = Z.of_nat 16
  /\ 16 mod EVP_CIPHER_block_size c = 0 /\ 16 < d.
Proof.
  intros Hd.
  assert (Hm : d mod effective_iv_length c = 0).
  { apply Nat2Z.inj. rewrite Nat2Z.inj_mod, Hd. now destruct c. }
  assert (E : padded_length d (effective_iv_length c) = d).
  { unfold padded_length.
    rewrite padding_length_aligned by exact Hm. lia. }
  rewrite E. repeat split.
  - unfold int_of_size_t. rewrite Hd. reflexivity.
  - now destruct c.
  - lia.
Qed.

(** At 2^32 + 16 bytes, with room for all of them in every buffer,
    [datagram_encrypt] returns and reports 16 bytes. *)
Lemma datagram_encrypt_wraps (junk : nat -> byte) (key : list byte)
      (c : EVP_CIPHER) (in_ out : list byte) (d : nat) :
  Z.of_nat d = (2 ^ 32 + 16)%Z ->
  EVP_CIPHER_key_length c <= length key ->
  d <= length in_ -> d <= length out ->
  exists in' out',
    datagram_encrypt junk key c in_ out d = Ok (in', out', 16)
    /\ padded_length d (effective_iv_length c) = d /\ 16 < d.
Proof.
  intros Hd Hk Hi Ho.
  destruct (wrapping_length d c Hd) as (E & Hz & Hm & Hlt).
  destruct (datagram_encrypt_int junk key c in_ out d 16) as (ct & R & _);
    auto; try lia.
  eauto 6.
Qed.

(** From 2^31 bytes on the [int] can be negative: libcrypto refuses it
    and the engine fails its assertion. *)
Lemma datagram_encrypt_negative (junk : nat -> byte) (key : list byte)
      (c : EVP_CIPHER) (in_ out : list byte) (dlen : nat) :
  EVP_CIPHER_key_length c <= length key ->
  padded_length dlen (effective_iv_length c) <= length in_ ->
  (int_of_size_t (padded_length dlen (effective_iv_length c)) < 0)%Z ->
  datagram_encrypt junk key c in_ out dlen = Abort.
Proof.
  intros Hk Hi Hz.
  pose proof (effective_iv_length_pos c) as Hpos.
  unfold datagram_encrypt.
  change (if EVP_CIPHER_iv_length c =? 0 then 16 else EVP_CIPHER_iv_length c)
    with (effective_iv_length c).
  rewrite memcpy_iv. cbn [bind].
  rewrite (CRYPTO_DATA_PADDING_ok _ Hpos) by exact Hi. cbn [bind].
  destruct (EVP_CipherInit_ex_ok c key (iv_array junk c) true Hk) as (ctx & E1 & E2).
  { rewrite iv_array_length. pose proof (iv_length_le_effective c).
    unfold CRYPTO_MAX_KEY_SIZE. lia. }
  unfold EVP_EncryptInit_ex. rewrite E1. cbn [bind Z.eqb negb assert].
  rewrite E2. unfold EVP_EncryptUpdate, ready_ctx. cbn [ctx_cipher].
  rewrite (proj2 (Z.leb_le _ 0)) by lia.
  rewrite (proj2 (Z.eqb_neq _ 0)) by lia.
  cbn [bind]. rewrite write_nothing by lia. reflexivity.
Qed.

(** A datagram of 2^31 bytes is a negative length to libcrypto. *)
Lemma datagram_encrypt_aborts (junk : nat -> byte) (key : list byte)
      (c : EVP_CIPHER) (in_ out : list byte) (d : nat) :
  Z.of_nat d = (2 ^ 31)%Z ->
  EVP_CIPHER_key_length c <= length key -> d <= length in_ ->
  datagram_encrypt junk key c in_ out d = Abort.
Proof.
  intros Hd Hk Hi.
  assert (Hm : d mod effective_iv_length c = 0).
  { apply Nat2Z.inj. rewrite Nat2Z.inj_mod, Hd. now destruct c. }
  assert (E : padded_length d (effective_iv_length c) = d).
  { unfold padded_length. rewrite padding_length_aligned by exact Hm. lia. }
  apply datagram_encrypt_negative; rewrite ?E; auto.
  unfold int_of_size_t. rewrite Hd. reflexivity.
Qed.

(** C1, as stated, fails: the round trip is claimed for every plaintext,
    but a plaintext of 2^32 + 16 bytes, in buffers with room for it, is
    the length 16 to libcrypto; [datagram_encrypt] returns and reports
    16 bytes, not the padded length. *)
Lemma C1_counterexample : ~ round_trip_as_stated.
Proof.
  intros H.
  set (d := Z.to_nat (2 ^ 32 + 16)).
  assert (Hd : Z.of_nat d = (2 ^ 32 + 16)%Z) by (apply Z2Nat.id; lia).
  clearbody d.
  destruct (wrapping_length d aes_128_cbc Hd) as (E & _ & _ & Hlt).
  destruct (H (fun _ => Byte.x00) (fun _ => Byte.x00) "aes-128"%string
              "secret"%string aes_128_cbc (repeat Byte.x00 32)
              (repeat Byte.x00 d) (repeat Byte.x00 d) (repeat Byte.x00 d) d)
    as (key & in' & ct & ct' & pt & Ek & Ee & _);
    rewrite ?E, ?repeat_length; auto; try (cbn; lia).
  rewrite E in Ee.
  destruct (fill_with_string_md5sum_ok "secret" (repeat Byte.x00 32) 16)
    as (key' & Ek' & Lk & _); rewrite ?repeat_length; try lia.
  change (EVP_CIPHER_key_length aes_128_cbc) with 16 in Ek.
  rewrite Ek in Ek'. injection Ek' as <-. rewrite repeat_length in Lk.
  destruct (datagram_encrypt_wraps (fun _ => Byte.x00) key aes_128_cbc
              (repeat Byte.x00 d) (repeat Byte.x00 d) d Hd)
    as (in2 & out2 & R & _);
    rewrite ?repeat_length; auto; try (cbn; lia).
  rewrite R in Ee. injection Ee as _ _ Ee. lia.
Qed.

(** C1, amended. For every plaintext (the first [dlen] bytes of [in_])
    whose padded length fits an [int], and every cipher name and
    passphrase that the registry and the deriver accept,
    [datagram_encrypt] followed by [datagram_decrypt] on the ciphertext,
    with the same key and cipher, returns the plaintext followed by zero
    bytes up to the next multiple of the IV length the engines work
    with, and reports that padded length. *)
Theorem C1_round_trip (junk junk' : nat -> byte) (nm pass : string)
        (c : EVP_CIPHER) (keybuf in_ out out2 : list byte) (dlen : nat) :
  get_crypto_type nm = Ok (Some c) ->
  16 <= length keybuf -> EVP_CIPHER_key_length c <= length keybuf ->
  let n := padded_length dlen (effective_iv_length c) in
  n <= length in_ -> n <= length out -> n <= length out2 ->
  (Z.of_nat n <= INT_MAX)%Z ->
  exists key in' ct ct' pt,
    fill_with_string_md5sum pass keybuf (EVP_CIPHER_key_length c) = Ok key
    /\ datagram_encrypt junk key c in_ out dlen = Ok (in', ct, n)
    /\ datagram_decrypt junk' key c ct out2 n = Ok (ct', pt, n)
    /\ firstn n pt = pad_to_block (effective_iv_length c) (firstn dlen in_).
Proof.
  intros _ Hk16 Hk n Hin Hout Hout2 Hint.
  destruct (fill_with_string_md5sum_ok pass keybuf _ Hk16 Hk)
    as (key & Ekey & Lkey & _).
  pose proof (effective_iv_length_pos c) as Hpos.
  assert (Hpre : engine_pre key c in_ out dlen)
    by (constructor; auto; lia).
  pose proof (engine_output_length _ _ _ _ _ Hpre true) as Lct.
  set (ct := engine_output c key true in_ dlen ++ skipn n out).
  assert (Hn : padded_length n (effective_iv_length c) = n)
    by (apply padded_length_idem; assumption).
  assert (Hpre' : engine_pre key c ct out2 n).
  { constructor; rewrite ?Hn; auto; try lia.
    subst ct. rewrite length_app. fold n in Lct. lia. }
  exists key, (padded_buffer in_ dlen (effective_iv_length c)), ct.
  exists (padded_buffer ct n (effective_iv_length c)).
  exists (engine_output c key false ct n ++ skipn n out2).
  split; [exact Ekey|]. split; [apply datagram_encrypt_ok; assumption|].
  split.
  { rewrite (datagram_decrypt_ok junk' _ _ _ _ _ Hpre'). now rewrite Hn. }
  pose proof (engine_output_length _ _ _ _ _ Hpre' false) as Lpt.
  rewrite Hn in Lpt.
  rewrite firstn_app, Lpt, Nat.sub_diag, firstn_O, app_nil_r.
  rewrite firstn_all2 by lia.
  assert (Ect : firstn n ct = engine_output c key true in_ dlen).
  { subst ct. fold n in Lct.
    rewrite firstn_app, Lct, Nat.sub_diag, firstn_O, app_nil_r.
    apply firstn_all2. lia. }
  unfold engine_output at 1. rewrite Ect.
  destruct (padded_length_spec _ Hpos dlen) as [Hal Hrange]. fold n in Hal, Hrange.
  rewrite pad_to_block_aligned by (auto; fold n in Lct; rewrite Lct; exact Hal).
  unfold engine_output. apply do_cipher_roundtrip.
  - lia.
  - pose proof (iv_length_le_effective c). cbn. lia.
  - rewrite pad_to_block_length, length_firstn, Nat.min_l by lia.
    apply padded_length_blocks.
Qed.

Lemma C1_round_trip_witness :
  let in_ := list_byte_of_string "hello" ++ repeat Byte.xff 11 in
  let z := repeat Byte.x00 in
  get_crypto_type "aes-128" = Ok (Some aes_128_cbc)
  /\ exists key in' ct ct' pt,
    fill_with_string_md5sum "secret" (z 32) 16 = Ok key
    /\ datagram_encrypt (fun _ => Byte.x00) key aes_128_cbc in_ (z 16) 5
       = Ok (in', ct, 16)
    /\ datagram_decrypt (fun _ => Byte.xff) key aes_128_cbc ct (z 16) 16
       = Ok (ct', pt, 16)
    /\ firstn 16 pt = list_byte_of_string "hello" ++ z 11.
Proof.
  split; [reflexivity|].
  apply (C1_round_trip (fun _ => Byte.x00) (fun _ => Byte.xff)
           "aes-128" "secret" aes_128_cbc (repeat Byte.x00 32)
           (list_byte_of_string "hello" ++ repeat Byte.xff 11)
           (repeat Byte.x00 16) (repeat Byte.x00 16) 5);
    try reflexivity; cbn; unfold INT_MAX; lia.
Defined.

(** C2. For every passphrase and key length [n], the derived key (the
    first [n] bytes that [fill_with_string_md5sum] leaves in the buffer)
    is the MD5 digest of the passphrase repeated to fill [n] bytes, the
    last copy cut short; for [n <= 16] it is the first [n] bytes of the
    digest.  The call returns on every buffer that holds the digest and
    the key.  For "secret" and n = 32 bytes 16..31 equal bytes 0..15,
    and for n = 10 the key is the first 10 bytes of the digest of
    "secret". *)
Theorem C2_key_derivation :
  (forall (pass : string) (out : list byte) (n : nat) (key : list byte),
      fill_with_string_md5sum pass out n = Ok key ->
      firstn n key = tiled (MD5.md5 (Libc.bytes_of_c_string pass)) n
      /\ (n <= 16 ->
          firstn n key = firstn n (MD5.md5 (Libc.bytes_of_c_string pass))))
  /\ (forall (pass : string) (out : list byte) (n : nat),
         16 <= length out -> n <= length out ->
         exists key, fill_with_string_md5sum pass out n = Ok key)
  /\ (forall out : list byte,
         32 <= length out ->
         exists key,
           fill_with_string_md5sum "secret" out 32 = Ok key
           /\ firstn 16 (skipn 16 key) = firstn 16 key)
  /\ (forall out : list byte,
         16 <= length out ->
         exists key,
           fill_with_string_md5sum "secret" out 10 = Ok key
           /\ firstn 10 key
              = firstn 10 (MD5.md5 (list_byte_of_string "secret"))).
Proof.
  assert (G : forall (pass : string) (out : list byte) (n : nat) (key : list byte),
      fill_with_string_md5sum pass out n = Ok key ->
      firstn n key = tiled (MD5.md5 (Libc.bytes_of_c_string pass)) n
      /\ (n <= 16 ->
          firstn n key = firstn n (MD5.md5 (Libc.bytes_of_c_string pass)))).
  { intros pass out n key E.
    destruct (fill_with_string_md5sum_returns _ _ _ _ E) as [H16 Hn].
    destruct (fill_with_string_md5sum_ok pass out n H16 Hn)
      as (key' & E' & _ & T & _).
    assert (key' = key) by congruence. subst key'.
    split; [exact T|].
    intros Hs. rewrite T. apply tiled_short; auto. apply md5_length. }
  assert (X : forall (pass : string) (out : list byte) (n : nat),
         16 <= length out -> n <= length out ->
         exists key, fill_with_string_md5sum pass out n = Ok key).
  { intros pass out n H16 Hn.
    destruct (fill_with_string_md5sum_ok pass out n H16 Hn) as (key & E & _).
    now exists key. }
  split; [exact G|]. split; [exact X|]. split.
  - intros out H. destruct (X "secret"%string out 32) as (key & E); try lia.
    destruct (G _ _ _ _ E) as [T _].
    exists key. split; [exact E|].
    rewrite firstn_skipn_comm. cbn [Nat.add].
    change 16 with (Nat.min 16 32) at 3. rewrite <- firstn_firstn, T.
    pose proof (md5_length (Libc.bytes_of_c_string "secret")) as Hd.
    destruct (MD5.md5 (Libc.bytes_of_c_string "secret")) as [|b0 d];
      [discriminate Hd|].
    do 15 (destruct d as [|? d]; [discriminate Hd|]).
    destruct d; [reflexivity|discriminate Hd].
  - intros out H. destruct (X "secret"%string out 10) as (key & E); try lia.
    destruct (G _ _ _ _ E) as [_ T].
    exists key. split; [exact E|]. apply T. lia.
Qed.

Lemma C2_key_derivation_witness :
  let key := bytes_of_hex "5ebe2294ecd0e0f08eab7690d2a6ee69"
             ++ bytes_of_hex "5ebe2294ecd0e0f08eab7690" ++ repeat Byte.x00 4 in
  fill_with_string_md5sum "secret" (repeat Byte.x00 32) 28 = Ok key
  /\ firstn 28 key = tiled (MD5.md5 (list_byte_of_string "secret")) 28
  /\ (28 <= 16 -> firstn 28 key = firstn 28 (MD5.md5 (list_byte_of_string "secret"))).
Proof.
  assert (E : fill_with_string_md5sum "secret" (repeat Byte.x00 32) 28
              = Ok (bytes_of_hex "5ebe2294ecd0e0f08eab7690d2a6ee69"
                    ++ bytes_of_hex "5ebe2294ecd0e0f08eab7690" ++ repeat Byte.x00 4))
    by (vm_compute; reflexivity).
  split; [exact E|].
  exact (proj1 C2_key_derivation "secret"%string (repeat Byte.x00 32) 28 _ E).
Defined.

(** C3, as stated, fails: a buffer of 15 bytes is one byte short of the
    boundary 16 and gains one zero byte, not 16 - 1. *)
Lemma C3_counterexample : ~ padding_boundary_as_stated.
Proof.
  intros H.
  destruct (H (repeat Byte.x01 15 ++ [Byte.xff]) 15 16) as (d & n & E & _ & _ & F).
  - lia.
  - cbn. lia.
  - specialize (F eq_refl). vm_compute in E. injection E as _ E. lia.
Qed.

(** C3, amended. For every buffer with room for the padding and every
    block size [bs > 0]: when the length is a multiple of [bs] the
    buffer and the length are unchanged; otherwise [bs - len mod bs]
    zero bytes are written behind the datagram and the length grows by
    that amount.  A buffer one byte short of a boundary gains exactly
    one zero byte, and a buffer one byte past a boundary gains exactly
    [bs - 1]. *)
Theorem C3_padding (data : list byte) (dlen bs : nat) :
  0 < bs -> padded_length dlen bs <= length data ->
  exists data' dlen',
    CRYPTO_DATA_PADDING data dlen bs = Ok (data', dlen')
    /\ (dlen mod bs = 0 -> data' = data /\ dlen' = dlen)
    /\ (dlen mod bs <> 0 ->
        dlen' = dlen + (bs - dlen mod bs)
        /\ data' = firstn dlen data ++ repeat Byte.x00 (bs - dlen mod bs)
                   ++ skipn dlen' data)
    /\ ((dlen + 1) mod bs = 0 -> 1 < bs -> dlen' = dlen + 1)
    /\ (dlen mod bs = 1 -> dlen' = dlen + (bs - 1)).
Proof.
  intros Hbs Hcap.
  pose proof (padded_length_spec bs Hbs dlen) as [_ Hr].
  exists (padded_buffer data dlen bs), (padded_length dlen bs).
  split; [now apply CRYPTO_DATA_PADDING_ok|].
  unfold padded_buffer, pad_to_block, padded_length in *.
  rewrite length_firstn, Nat.min_l by lia.
  repeat split.
  - rewrite padding_length_aligned by assumption. cbn [repeat].
    now rewrite app_nil_r, Nat.add_0_r, firstn_skipn.
  - rewrite padding_length_aligned by assumption. lia.
  - now rewrite padding_length_unaligned.
  - rewrite padding_length_unaligned by assumption. now rewrite <- app_assoc.
  - intros Hs H1.
    assert (Hm : dlen mod bs = bs - 1).
    { pose proof (Nat.mod_upper_bound dlen bs ltac:(lia)) as Hlt.
      rewrite Nat.Div0.add_mod, (Nat.mod_small 1 bs) in Hs by lia.
      destruct (Nat.eq_dec (dlen mod bs + 1) bs) as [He|Hne]; [lia|].
      rewrite Nat.mod_small in Hs by lia. lia. }
    rewrite padding_length_unaligned by lia. lia.
  - intros H1. rewrite padding_length_unaligned by lia. lia.
Qed.

Lemma C3_padding_witness :
  let data := repeat Byte.x01 15 ++ [Byte.xff] in
  0 < 16 /\ padded_length 15 16 <= length data
  /\ exists data' dlen',
    CRYPTO_DATA_PADDING data 15 16 = Ok (data', dlen')
    /\ (15 mod 16 = 0 -> data' = data /\ dlen' = 15)
    /\ (15 mod 16 <> 0 ->
        dlen' = 15 + (16 - 15 mod 16)
        /\ data' = firstn 15 data ++ repeat Byte.x00 (16 - 15 mod 16)
                   ++ skipn dlen' data)
    /\ ((15 + 1) mod 16 = 0 -> 1 < 16 -> dlen' = 15 + 1)
    /\ (15 mod 16 = 1 -> dlen' = 15 + (16 - 1)).
Proof.
  split; [lia|]. split; [cbn; lia|].
  apply (C3_padding (repeat Byte.x01 15 ++ [Byte.xff]) 15 16); cbn; lia.
Defined.

(** C4. [get_crypto_type] looks the name up without regard to case in
    the table aes-128, aes-256, des, desx, rc4: the result is the
    registry entry of the lowered name.  The names of the table are
    distinct, a descriptor is returned exactly for the names of the
    table, every other name gives NULL, "blowfish" among them. *)
Theorem C4_registry :
  (forall nm : string, get_crypto_type nm = Ok (registry (lower_c_string nm)))
  /\ map name cipher_pairs = ["aes-128"; "aes-256"; "des"; "desx"; "rc4"]%string
  /\ NoDup (map name cipher_pairs)
  /\ (forall (nm : string) (c : EVP_CIPHER),
         get_crypto_type nm = Ok (Some c) <->
         exists p, In p cipher_pairs /\ name p = lower_c_string nm
                   /\ cipher p tt = c)
  /\ (forall nm : string,
         (forall p, In p cipher_pairs -> name p <> lower_c_string nm) ->
         get_crypto_type nm = Ok None)
  /\ get_crypto_type "blowfish" = Ok None.
Proof.
  assert (R : forall s c, registry s = Some c <->
                          exists p, In p cipher_pairs /\ name p = s
                                    /\ cipher p tt = c).
  { intros s c. unfold registry, cipher_pairs. split.
    - repeat match goal with
             | |- context [String.eqb s ?t] =>
                 destruct (String.eqb_spec s t) as [->|]
             end; intros H; try discriminate H; injection H as <-;
        first [ exists (mkPair "aes-128" EVP_aes_128_cbc); cbn; now intuition
              | exists (mkPair "aes-256" EVP_aes_256_cbc); cbn; now intuition
              | exists (mkPair "des" EVP_des_cbc); cbn; now intuition
              | exists (mkPair "desx" EVP_desx_cbc); cbn; now intuition
              | exists (mkPair "rc4" EVP_rc4); cbn; now intuition ].
    - intros (p & Hin & <- & <-).
      cbn in Hin. decompose [or] Hin; subst; try reflexivity; contradiction. }
  split; [exact get_crypto_type_registry|].
  split; [reflexivity|]. split.
  { cbn. repeat constructor; cbn; intuition discriminate. }
  split; [|split].
  - intros nm c. rewrite get_crypto_type_registry, <- R.
    split; [now intros [= ->]|now intros ->].
  - intros nm H. rewrite get_crypto_type_registry.
    destruct (registry (lower_c_string nm)) as [c|] eqn:E; [|reflexivity].
    apply R in E. destruct E as (p & Hin & Hn & _). now apply H in Hin.
  - reflexivity.
Qed.

Lemma firstn_engine_output (c : EVP_CIPHER) (key : list byte) (enc : bool)
      (in_ out rest : list byte) (dlen : nat) :
  engine_pre key c in_ out dlen ->
  firstn (padded_length dlen (effective_iv_length c))
         (engine_output c key enc in_ dlen ++ rest)
  = engine_output c key enc in_ dlen.
Proof.
  intros Hpre. pose proof (engine_output_length _ _ _ _ _ Hpre enc) as L.
  rewrite firstn_app, L, Nat.sub_diag, firstn_O, app_nil_r.
  apply firstn_all2. lia.
Qed.



(** C6, as stated, fails: on a datagram of 2^32 + 16 bytes, in buffers
    with room for it, [datagram_encrypt] returns and reports 16 bytes,
    the padded length taken modulo 2^32. *)
Lemma C6_counterexample : ~ output_length_as_stated.
Proof.
  intros H.
  set (d := Z.to_nat (2 ^ 32 + 16)).
  assert (Hd : Z.of_nat d = (2 ^ 32 + 16)%Z) by (apply Z2Nat.id; lia).
  clearbody d.
  destruct (datagram_encrypt_wraps (fun _ => Byte.x00) (repeat Byte.x00 16)
              aes_128_cbc (repeat Byte.x00 d) (repeat Byte.x00 d) d Hd)
    as (in' & out' & R & E & Hlt);
    rewrite ?repeat_length; auto.
  apply H in R. rewrite E in R. lia.
Qed.

(** C6, amended. For every call of [datagram_encrypt], the padded length fitting
    an [int], that returns, the length reported through [*dlen] is the
    input length rounded up to the next multiple of the IV length the
    engine works with, and that many bytes of ciphertext are written at
    [out]: as many as the padded plaintext has.  The call returns
    whenever the buffers have room for the padded datagram and the
    key. *)
Theorem C6_output_length (junk : nat -> byte) (key : list byte)
        (c : EVP_CIPHER) (in_ out : list byte) (dlen : nat) :
  let l := effective_iv_length c in
  let n := padded_length dlen l in
  (Z.of_nat n <= INT_MAX)%Z ->
  (forall (in' out' : list byte) (m : nat),
      datagram_encrypt junk key c in_ out dlen = Ok (in', out', m) ->
      m = n
      /\ n = length (pad_to_block l (firstn dlen in_))
      /\ exists ct, out' = ct ++ skipn n out /\ length ct = n)
  /\ (EVP_CIPHER_key_length c <= length key ->
      n <= length in_ -> n <= length out ->
      exists in' out', datagram_encrypt junk key c in_ out dlen = Ok (in', out', n))
  /\ n mod l = 0 /\ dlen <= n < dlen + l.
Proof.
  intros l n Hint. subst n l.
  pose proof (padded_length_spec _ (effective_iv_length_pos c) dlen) as [Ha Hr].
  split; [|split; [|split; assumption]].
  - intros in' out' m E.
    pose proof (datagram_encrypt_returns _ _ _ _ _ _ _ Hint E) as Hpre.
    rewrite (datagram_encrypt_ok junk _ _ _ _ _ Hpre) in E.
    injection E as _ <- <-. split; [reflexivity|]. split.
    + rewrite pad_to_block_length, length_firstn, Nat.min_l; [reflexivity|].
      pose proof (pre_in _ _ _ _ _ Hpre). lia.
    + eexists. split; [reflexivity|].
      now apply engine_output_length with (out := out).
  - intros Hk Hi Ho. do 2 eexists.
    apply datagram_encrypt_ok. constructor; assumption.
Qed.

Lemma C6_output_length_witness :
  let key := bytes_of_hex "5ebe2294ecd0e0f08eab7690d2a6ee69" in
  let in_ := list_byte_of_string "seventeen bytes.." ++ repeat Byte.xff 15 in
  let out := repeat Byte.x00 40 in
  (Z.of_nat (padded_length 17 8) <= INT_MAX)%Z
  /\ (forall (in' out' : list byte) (m : nat),
         datagram_encrypt (fun _ => Byte.x00) key des_cbc in_ out 17
         = Ok (in', out', m) ->
         m = 24
         /\ 24 = length (pad_to_block 8 (firstn 17 in_))
         /\ exists ct, out' = ct ++ skipn 24 out /\ length ct = 24)
  /\ (EVP_CIPHER_key_length des_cbc <= length key ->
      24 <= length in_ -> 24 <= length out ->
      exists in' out',
        datagram_encrypt (fun _ => Byte.x00) key des_cbc in_ out 17
        = Ok (in', out', 24))
  /\ 24 mod 8 = 0 /\ 17 <= 24 < 17 + 8.
Proof.
  assert (H : (Z.of_nat (padded_length 17 8) <= INT_MAX)%Z)
    by (cbn; unfold INT_MAX; lia).
  split; [exact H|].
  exact (C6_output_length (fun _ => Byte.x00)
           (bytes_of_hex "5ebe2294ecd0e0f08eab7690d2a6ee69") des_cbc
           (list_byte_of_string "seventeen bytes.." ++ repeat Byte.xff 15)
           (repeat Byte.x00 40) 17 H).
Defined.

Lemma engine_output_ext (c : EVP_CIPHER) (key1 key2 : list byte) (enc : bool)
      (in1 in2 : list byte) (dlen : nat) :
  firstn (EVP_CIPHER_key_length c) key1 = firstn (EVP_CIPHER_key_length c) key2 ->
  firstn dlen in1 = firstn dlen in2 ->
  engine_output c key1 enc in1 dlen = engine_output c key2 enc in2 dlen.
Proof. intros Hk Hi. unfold engine_output, ready_ctx. now rewrite Hk, Hi. Qed.

(** C7. Key derivation and encryption are deterministic.  Two calls of
    [fill_with_string_md5sum] with the same passphrase and length that
    return leave the same key, whatever the buffers held before.  Two
    calls of [datagram_encrypt] with the same key bytes, the same cipher
    and the same plaintext that return report the same length and leave
    the same ciphertext, whatever the uninitialised IV bytes and the
    bytes of the buffers behind the key, the plaintext and the
    ciphertext are. *)
Theorem C7_determinism :
  (forall (pass : string) (n : nat) (out1 out2 k1 k2 : list byte),
      fill_with_string_md5sum pass out1 n = Ok k1 ->
      fill_with_string_md5sum pass out2 n = Ok k2 ->
      firstn n k1 = firstn n k2)
  /\ (forall (junk1 junk2 : nat -> byte) (key1 key2 : list byte)
             (c : EVP_CIPHER) (in1 in2 out1 out2 : list byte) (dlen : nat)
             (i1 o1 i2 o2 : list byte) (n1 n2 : nat),
         (Z.of_nat (padded_length dlen (effective_iv_length c)) <= INT_MAX)%Z ->
         firstn (EVP_CIPHER_key_length c) key1
         = firstn (EVP_CIPHER_key_length c) key2 ->
         firstn dlen in1 = firstn dlen in2 ->
         datagram_encrypt junk1 key1 c in1 out1 dlen = Ok (i1, o1, n1) ->
         datagram_encrypt junk2 key2 c in2 out2 dlen = Ok (i2, o2, n2) ->
         n1 = n2 /\ firstn n1 o1 = firstn n2 o2).
Proof.
  split.
  - intros pass n out1 out2 k1 k2 E1 E2.
    destruct (fill_with_string_md5sum_returns _ _ _ _ E1) as [H1 H2].
    destruct (fill_with_string_md5sum_returns _ _ _ _ E2) as [H3 H4].
    destruct (fill_with_string_md5sum_ok pass out1 n H1 H2) as (k1' & E1' & _ & T1 & _).
    destruct (fill_with_string_md5sum_ok pass out2 n H3 H4) as (k2' & E2' & _ & T2 & _).
    assert (k1' = k1) by congruence. assert (k2' = k2) by congruence.
    subst. congruence.
  - intros junk1 junk2 key1 key2 c in1 in2 out1 out2 dlen i1 o1 i2 o2 n1 n2
           Hint Hk Hi E1 E2.
    pose proof (datagram_encrypt_returns _ _ _ _ _ _ _ Hint E1) as P1.
    pose proof (datagram_encrypt_returns _ _ _ _ _ _ _ Hint E2) as P2.
    rewrite (datagram_encrypt_ok junk1 _ _ _ _ _ P1) in E1.
    rewrite (datagram_encrypt_ok junk2 _ _ _ _ _ P2) in E2.
    injection E1 as _ <- <-. injection E2 as _ <- <-.
    split; [reflexivity|].
    rewrite (firstn_engine_output _ _ _ _ out1) by assumption.
    rewrite (firstn_engine_output _ _ _ _ out2) by assumption.
    now apply engine_output_ext.
Qed.

Lemma C7_determinism_witness :
  let k1 := bytes_of_hex "5ebe2294ecd0e0f08eab7690d2a6ee69" ++ repeat Byte.x00 4 in
  let k2 := bytes_of_hex "5ebe2294ecd0e0f08eab7690d2a6ee69" ++ repeat Byte.xff 16 in
  fill_with_string_md5sum "secret" (repeat Byte.x00 20) 15 = Ok k1
  /\ fill_with_string_md5sum "secret" (repeat Byte.xff 32) 15 = Ok k2
  /\ firstn 15 k1 = firstn 15 k2.
Proof.
  assert (E1 : fill_with_string_md5sum "secret" (repeat Byte.x00 20) 15
               = Ok (bytes_of_hex "5ebe2294ecd0e0f08eab7690d2a6ee69"
                     ++ repeat Byte.x00 4)) by (vm_compute; reflexivity).
  assert (E2 : fill_with_string_md5sum "secret" (repeat Byte.xff 32) 15
               = Ok (bytes_of_hex "5ebe2294ecd0e0f08eab7690d2a6ee69"
                     ++ repeat Byte.xff 16)) by (vm_compute; reflexivity).
  split; [exact E1|]. split; [exact E2|].
  exact (proj1 C7_determinism _ _ _ _ _ _ E1 E2).
Defined.

(** C8, as stated, fails: under aes-128 and aes-256 the plaintext
    "hello" gives two ciphertexts of the same length, 16. *)
Lemma C8_counterexample : ~ cross_cipher_as_stated.
Proof.
  intros H.
  destruct (H "secret"%string (list_byte_of_string "hello"))
    as (ct1 & n1 & ct2 & n2 & E1 & E2 & Hn & _).
  vm_compute in E1, E2.
  injection E1 as _ <-. injection E2 as _ <-. now apply Hn.
Qed.

Lemma encrypt_with_ok (nm pass : string) (c : EVP_CIPHER) (P : list byte) :
  get_crypto_type nm = Ok (Some c) ->
  (Z.of_nat (padded_length (length P) (effective_iv_length c)) <= INT_MAX)%Z ->
  exists ct,
    encrypt_with nm pass P
    = Ok (ct, padded_length (length P) (effective_iv_length c))
    /\ length ct = padded_length (length P) (effective_iv_length c).
Proof.
  intros Hc Hint. unfold encrypt_with. rewrite Hc. cbn [bind].
  destruct (fill_with_string_md5sum_ok pass (repeat Byte.x00 CRYPTO_MAX_KEY_SIZE)
              (EVP_CIPHER_key_length c)) as (key & E & L & _).
  { rewrite repeat_length. unfold CRYPTO_MAX_KEY_SIZE. lia. }
  { rewrite repeat_length. unfold CRYPTO_MAX_KEY_SIZE. destruct c; cbn; lia. }
  rewrite E. cbn [bind].
  pose proof (padded_length_spec _ (effective_iv_length_pos c) (length P)) as [_ Hr].
  pose proof (iv_length_le_effective c) as Hl.
  assert (Hpre : engine_pre key c (P ++ repeat Byte.x00 16)
                   (repeat Byte.x00 (length P + 16)) (length P)).
  { constructor; auto.
    - rewrite L, repeat_length. unfold CRYPTO_MAX_KEY_SIZE. destruct c; cbn; lia.
    - rewrite length_app, repeat_length. lia.
    - rewrite repeat_length. lia. }
  rewrite (datagram_encrypt_ok _ _ _ _ _ _ Hpre). cbn [bind].
  rewrite (firstn_engine_output _ _ _ _ _ _ _ Hpre).
  eexists. split; [reflexivity|].
  now apply engine_output_length with (out := repeat Byte.x00 (length P + 16)).
Qed.

Lemma tiled_16 (d : list byte) : length d = 16 -> tiled d 16 = d.
Proof.
  intros H. rewrite tiled_short by (lia || assumption).
  apply firstn_all2. lia.
Qed.

Lemma tiled_32 (d : list byte) : length d = 16 -> tiled d 32 = d ++ d.
Proof.
  intros H. unfold tiled. change (S (32 / 16)) with 3.
  cbn [repeat concat]. rewrite app_nil_r, app_assoc, firstn_app.
  rewrite firstn_all2 by (rewrite length_app; lia).
  rewrite length_app, H. cbn [Nat.add Nat.sub firstn]. now rewrite app_nil_r.
Qed.

(** What [encrypt_with] returns: the padded plaintext run through the
    cipher under the tiled digest of the passphrase. *)
Lemma encrypt_with_content (nm pass : string) (c : EVP_CIPHER) (P : list byte) :
  get_crypto_type nm = Ok (Some c) ->
  (Z.of_nat (padded_length (length P) (effective_iv_length c)) <= INT_MAX)%Z ->
  let key := tiled (MD5.md5 (Libc.bytes_of_c_string pass)) (EVP_CIPHER_key_length c) in
  let ct := snd (do_cipher (ready_ctx c key crypto_ivec_initdata true)
                           (pad_to_block (effective_iv_length c) P)) in
  encrypt_with nm pass P
  = Ok (ct, padded_length (length P) (effective_iv_length c))
  /\ length ct = padded_length (length P) (effective_iv_length c).
Proof.
  intros Hc Hint key ct. unfold encrypt_with. rewrite Hc. cbn [bind].
  destruct (fill_with_string_md5sum_ok pass (repeat Byte.x00 CRYPTO_MAX_KEY_SIZE)
              (EVP_CIPHER_key_length c)) as (k & E & L & T & _).
  { rewrite repeat_length. unfold CRYPTO_MAX_KEY_SIZE. lia. }
  { rewrite repeat_length. unfold CRYPTO_MAX_KEY_SIZE. destruct c; cbn; lia. }
  rewrite E. cbn [bind].
  pose proof (padded_length_spec _ (effective_iv_length_pos c) (length P)) as [_ Hr].
  pose proof (iv_length_le_effective c) as Hl.
  assert (Hpre : engine_pre k c (P ++ repeat Byte.x00 16)
                   (repeat Byte.x00 (length P + 16)) (length P)).
  { constructor; auto.
    - rewrite L, repeat_length. unfold CRYPTO_MAX_KEY_SIZE. destruct c; cbn; lia.
    - rewrite length_app, repeat_length. lia.
    - rewrite repeat_length. lia. }
  rewrite (datagram_encrypt_ok _ _ _ _ _ _ Hpre). cbn [bind].
  rewrite (firstn_engine_output _ _ _ _ _ _ _ Hpre).
  assert (Ect : engine_output c k true (P ++ repeat Byte.x00 16) (length P) = ct).
  { unfold engine_output, ct, ready_ctx.
    rewrite firstn_app, Nat.sub_diag, firstn_O, app_nil_r, firstn_all.
    rewrite T. unfold key.
    rewrite (firstn_all2 (n := EVP_CIPHER_key_length c)
               (tiled _ (EVP_CIPHER_key_length c)))
      by (rewrite tiled_length; [lia|apply md5_length]).
    reflexivity. }
  rewrite <- Ect. split; [reflexivity|].
  now apply engine_output_length with (out := repeat Byte.x00 (length P + 16)).
Qed.

(** C8, amended. For every passphrase and every plaintext whose padded
    length fits an [int], encryption under aes-128 and under aes-256,
    with keys derived from the same passphrase, gives two ciphertexts of
    the same length: the plaintext length rounded up to a multiple of
    16, which is the block size of both ciphers.  Their content is that
    of two different encryptions of the padded plaintext under the same
    IV, AES-128 keyed with the digest of the passphrase and AES-256
    keyed with the digest twice; it differs for the plaintext "hello"
    under "secret", but not in every case: for the empty plaintext both
    ciphertexts are empty. *)
Theorem C8_cross_cipher :
  (forall (pass : string) (P : list byte),
      (Z.of_nat (padded_length (length P) 16) <= INT_MAX)%Z ->
      let n := padded_length (length P) 16 in
      let d := MD5.md5 (Libc.bytes_of_c_string pass) in
      let ct1 := snd (do_cipher (ready_ctx aes_128_cbc d crypto_ivec_initdata true)
                                (pad_to_block 16 P)) in
      let ct2 := snd (do_cipher (ready_ctx aes_256_cbc (d ++ d)
                                           crypto_ivec_initdata true)
                                (pad_to_block 16 P)) in
      encrypt_with "aes-128" pass P = Ok (ct1, n)
      /\ encrypt_with "aes-256" pass P = Ok (ct2, n)
      /\ length ct1 = n /\ length ct2 = n
      /\ n mod EVP_CIPHER_block_size aes_128_cbc = 0
      /\ n mod EVP_CIPHER_block_size aes_256_cbc = 0
      /\ (P = [] -> ct1 = [] /\ ct2 = []))
  /\ (exists ct1 ct2,
         encrypt_with "aes-128" "secret" (list_byte_of_string "hello")
         = Ok (ct1, 16)
         /\ encrypt_with "aes-256" "secret" (list_byte_of_string "hello")
            = Ok (ct2, 16)
         /\ ct1 <> ct2).
Proof.
  split.
  - intros pass P Hint n d ct1 ct2.
    destruct (encrypt_with_content "aes-128" pass aes_128_cbc P eq_refl Hint)
      as (E1 & L1).
    destruct (encrypt_with_content "aes-256" pass aes_256_cbc P eq_refl Hint)
      as (E2 & L2).
    change (effective_iv_length aes_128_cbc) with 16 in *.
    change (effective_iv_length aes_256_cbc) with 16 in *.
    change (EVP_CIPHER_key_length aes_128_cbc) with 16 in *.
    change (EVP_CIPHER_key_length aes_256_cbc) with 32 in *.
    rewrite (tiled_16 _ (md5_length _)) in E1, L1.
    rewrite (tiled_32 _ (md5_length _)) in E2, L2.
    fold d in E1, L1, E2, L2. fold ct1 in E1, L1. fold ct2 in E2, L2.
    fold n in E1, E2, L1, L2.
    destruct (padded_length_spec 16 ltac:(lia) (length P)) as [Ha _]. fold n in Ha.
    do 6 (split; [assumption|]).
    clearbody ct1 ct2. intros ->. subst n. cbn in L1, L2.
    destruct ct1; [|discriminate L1]. destruct ct2; [|discriminate L2]. now split.
  - eexists. eexists.
    split; [vm_compute; reflexivity|].
    split; [vm_compute; reflexivity|].
    intros E. discriminate E.
Qed.

Lemma C8_cross_cipher_witness :
  let P := list_byte_of_string "hello" in
  let d := MD5.md5 (Libc.bytes_of_c_string "secret") in
  let ct1 := snd (do_cipher (ready_ctx aes_128_cbc d crypto_ivec_initdata true)
                            (pad_to_block 16 P)) in
  let ct2 := snd (do_cipher (ready_ctx aes_256_cbc (d ++ d)
                                       crypto_ivec_initdata true)
                            (pad_to_block 16 P)) in
  (Z.of_nat (padded_length (length P) 16) <= INT_MAX)%Z
  /\ encrypt_with "aes-128" "secret" P = Ok (ct1, 16)
  /\ encrypt_with "aes-256" "secret" P = Ok (ct2, 16)
  /\ length ct1 = 16 /\ length ct2 = 16
  /\ 16 mod EVP_CIPHER_block_size aes_128_cbc = 0
  /\ 16 mod EVP_CIPHER_block_size aes_256_cbc = 0
  /\ (P = [] -> ct1 = [] /\ ct2 = []).
Proof.
  assert (H : (Z.of_nat (padded_length (length (list_byte_of_string "hello")) 16)
               <= INT_MAX)%Z) by (cbn; unfold INT_MAX; lia).
  split; [exact H|].
  exact (proj1 C8_cross_cipher "secret"%string (list_byte_of_string "hello") H).
Defined.

(** [get_crypto_type] in terms of the registry: the two [assert] let a
    descriptor through when its key and IV lengths are within the
    bounds. *)
Lemma get_crypto_type_with_spec (K B : nat) (nm : string) :
  get_crypto_type_with K B nm
  = match registry (lower_c_string nm) with
    | Some c =>
        if (EVP_CIPHER_key_length c <=? K) && (EVP_CIPHER_iv_length c <=? B)
        then Ok (Some c) else Abort
    | None => Ok None
    end.
Proof.
  unfold get_crypto_type_with. rewrite find_cipher_registry.
  destruct (registry (lower_c_string nm)) as [c|]; [|reflexivity].
  destruct (EVP_CIPHER_key_length c <=? K); [|reflexivity].
  now destruct (EVP_CIPHER_iv_length c <=? B).
Qed.

(** C9. Whatever the values of CRYPTO_MAX_KEY_SIZE and
    CRYPTO_MAX_BLOCK_SIZE are, [get_crypto_type] checks them when it
    resolves a name: it returns a descriptor exactly when the name is in
    the registry and the key length of the descriptor is at most
    CRYPTO_MAX_KEY_SIZE and its IV length at most CRYPTO_MAX_BLOCK_SIZE
    (and then so is its block size, once CRYPTO_MAX_BLOCK_SIZE is not
    0); it fails an assertion exactly when the name is in the registry
    and one of the two bounds is exceeded, and returns NULL exactly for
    a name that is not in the registry.  Every descriptor of the table
    has a key length of at most 32 and an IV length and a block size of
    at most 16, so that the failure is out of reach exactly when
    CRYPTO_MAX_KEY_SIZE is at least 32 and CRYPTO_MAX_BLOCK_SIZE at
    least 16. *)
Theorem C9_descriptor_bounds (max_key_size max_block_size : nat) (nm : string) :
  let r := get_crypto_type_with max_key_size max_block_size nm in
  get_crypto_type nm
  = get_crypto_type_with CRYPTO_MAX_KEY_SIZE CRYPTO_MAX_BLOCK_SIZE nm
  /\ (forall c : EVP_CIPHER,
         r = Ok (Some c) <->
         registry (lower_c_string nm) = Some c
         /\ EVP_CIPHER_key_length c <= max_key_size
         /\ EVP_CIPHER_iv_length c <= max_block_size)
  /\ (r = Abort <->
      exists c, registry (lower_c_string nm) = Some c
                /\ (max_key_size < EVP_CIPHER_key_length c
                    \/ max_block_size < EVP_CIPHER_iv_length c))
  /\ (r = Ok None <-> registry (lower_c_string nm) = None)
  /\ (forall c : EVP_CIPHER,
         r = Ok (Some c) -> 1 <= max_block_size ->
         EVP_CIPHER_block_size c <= max_block_size)
  /\ Forall (fun p =>
               EVP_CIPHER_key_length (cipher p tt) <= 32
               /\ EVP_CIPHER_iv_length (cipher p tt) <= 16
               /\ EVP_CIPHER_block_size (cipher p tt) <= 16)
            cipher_pairs
  /\ ((forall nm' : string,
          get_crypto_type_with max_key_size max_block_size nm' <> Abort) <->
      32 <= max_key_size /\ 16 <= max_block_size).
Proof.
  intros r. subst r.
  split; [reflexivity|].
  assert (S : forall c,
             get_crypto_type_with max_key_size max_block_size nm = Ok (Some c) <->
             registry (lower_c_string nm) = Some c
             /\ EVP_CIPHER_key_length c <= max_key_size
             /\ EVP_CIPHER_iv_length c <= max_block_size).
  { intros c. rewrite get_crypto_type_with_spec.
    destruct (registry (lower_c_string nm)) as [c'|].
    - destruct (Nat.leb_spec (EVP_CIPHER_key_length c') max_key_size),
        (Nat.leb_spec (EVP_CIPHER_iv_length c') max_block_size); cbn [andb];
        split; try discriminate;
        try (intros E; injection E as <-; auto);
        intros (E & ? & ?); injection E as <-; try lia; reflexivity.
    - split; [discriminate|]. intros (E & _). discriminate E. }
  split; [exact S|]. split.
  { rewrite get_crypto_type_with_spec.
    destruct (registry (lower_c_string nm)) as [c'|].
    - destruct (Nat.leb_spec (EVP_CIPHER_key_length c') max_key_size),
        (Nat.leb_spec (EVP_CIPHER_iv_length c') max_block_size); cbn [andb];
        (split; [try discriminate; intros _; exists c'; split; auto; lia|]);
        try reflexivity; intros (c & E & ?); injection E as <-; lia.
    - split; [discriminate|]. intros (c & E & _). discriminate E. }
  split.
  { rewrite get_crypto_type_with_spec.
    destruct (registry (lower_c_string nm)) as [c'|].
    - destruct (_ && _); split; discriminate.
    - split; reflexivity. }
  split.
  { intros c E HB. apply S in E. destruct E as (_ & _ & E).
    destruct c; cbn in *; lia. }
  split.
  { unfold cipher_pairs. repeat constructor; cbn; lia. }
  split.
  - intros H.
    pose proof (H "aes-256"%string) as H1.
    pose proof (H "aes-128"%string) as H2.
    rewrite get_crypto_type_with_spec in H1, H2.
    change (registry (lower_c_string "aes-256")) with (Some aes_256_cbc) in H1.
    change (registry (lower_c_string "aes-128")) with (Some aes_128_cbc) in H2.
    cbn [EVP_CIPHER_key_length EVP_CIPHER_iv_length] in H1, H2.
    destruct (Nat.leb_spec 32 max_key_size); [|now cbn in H1].
    destruct (Nat.leb_spec 16 max_block_size); [lia|].
    destruct (16 <=? max_key_size); now cbn in H2.
  - intros [HK HB] nm'. rewrite get_crypto_type_with_spec.
    destruct (registry (lower_c_string nm')) as [c'|]; [|discriminate].
    rewrite (proj2 (Nat.leb_le _ _)), (proj2 (Nat.leb_le _ _));
      [discriminate| |]; destruct c'; cbn; lia.
Qed.

(** C10. [datagram_decrypt] itself pads its input in place: on an input
    whose length is not a multiple of the IV length the engine works
    with, it writes the zero bytes behind the datagram, as
    [CRYPTO_DATA_PADDING] and [datagram_encrypt] do on the same buffer,
    and what it leaves at [out] is the decryption of the extended
    buffer. *)
Theorem C10_decrypt_pads (junk : nat -> byte) (key : list byte)
        (c : EVP_CIPHER) (in_ out : list byte) (dlen : nat) :
  engine_pre key c in_ out dlen ->
  let l := effective_iv_length c in
  dlen mod l <> 0 ->
  exists in' out' n,
    datagram_decrypt junk key c in_ out dlen = Ok (in', out', n)
    /\ n = dlen + (l - dlen mod l)
    /\ in' = firstn dlen in_ ++ repeat Byte.x00 (l - dlen mod l) ++ skipn n in_
    /\ CRYPTO_DATA_PADDING in_ dlen l = Ok (in', n)
    /\ (exists out'', datagram_encrypt junk key c in_ out dlen = Ok (in', out'', n))
    /\ firstn n out'
       = snd (do_cipher (ready_ctx c key crypto_ivec_initdata false)
                        (firstn n in')).
Proof.
  intros Hpre l Hm.
  pose proof (effective_iv_length_pos c) as Hpos. fold l in Hpos.
  exists (padded_buffer in_ dlen l).
  exists (engine_output c key false in_ dlen ++ skipn (padded_length dlen l) out).
  exists (padded_length dlen l).
  split; [now apply datagram_decrypt_ok|].
  assert (E : padded_length dlen l = dlen + (l - dlen mod l)).
  { unfold padded_length. now rewrite padding_length_unaligned. }
  split; [exact E|]. split.
  { unfold padded_buffer, pad_to_block.
    rewrite length_firstn, Nat.min_l, padding_length_unaligned, <- app_assoc;
      auto.
    pose proof (pre_in _ _ _ _ _ Hpre). fold l in H. lia. }
  split; [apply CRYPTO_DATA_PADDING_ok; auto; apply Hpre|].
  split; [eexists; now apply datagram_encrypt_ok|].
  unfold l. rewrite (firstn_engine_output _ _ _ _ out) by assumption.
  rewrite firstn_padded_buffer by (auto; apply Hpre). reflexivity.
Qed.

Lemma C10_decrypt_pads_witness :
  let key := bytes_of_hex "5ebe2294ecd0e0f08eab7690d2a6ee69" in
  let in_ := bytes_of_hex "0102030405" ++ repeat Byte.xff 11 in
  let out := repeat Byte.x00 16 in
  engine_pre key aes_128_cbc in_ out 5 /\ 5 mod 16 <> 0
  /\ exists in' out' n,
      datagram_decrypt (fun _ => Byte.x00) key aes_128_cbc in_ out 5
      = Ok (in', out', n)
      /\ n = 5 + (16 - 5 mod 16)
      /\ in' = firstn 5 in_ ++ repeat Byte.x00 (16 - 5 mod 16) ++ skipn n in_
      /\ CRYPTO_DATA_PADDING in_ 5 16 = Ok (in', n)
      /\ (exists out'',
             datagram_encrypt (fun _ => Byte.x00) key aes_128_cbc in_ out 5
             = Ok (in', out'', n))
      /\ firstn n out'
         = snd (do_cipher (ready_ctx aes_128_cbc key crypto_ivec_initdata false)
                          (firstn n in')).
Proof.
  assert (H : engine_pre (bytes_of_hex "5ebe2294ecd0e0f08eab7690d2a6ee69")
                aes_128_cbc (bytes_of_hex "0102030405" ++ repeat Byte.xff 11)
                (repeat Byte.x00 16) 5)
    by (constructor; cbn; unfold INT_MAX; lia).
  assert (M : 5 mod 16 <> 0) by (cbn; lia).
  split; [exact H|]. split; [exact M|].
  exact (C10_decrypt_pads (fun _ => Byte.x00) _ aes_128_cbc _ _ 5 H M).
Defined.

(* ================================================================== *)
(** * Further properties of library.c *)
(* ================================================================== *)

(** ** The engines: outcomes and edge cases *)

Lemma CRYPTO_DATA_PADDING_outcome (data : list byte) (dlen bs : nat) :
  CRYPTO_DATA_PADDING data dlen bs <> Abort.
Proof.
  unfold CRYPTO_DATA_PADDING, Buffer.memset, Buffer.write.
  destruct (bs =? 0); [discriminate|].
  destruct (negb (dlen mod bs =? 0)); [|discriminate].
  destruct (_ <=? _); discriminate.
Qed.

(** A call of [datagram_encrypt] whose requirements are not met runs out
    of a buffer. *)
Lemma datagram_encrypt_undefined (junk : nat -> byte) (key : list byte)
      (c : EVP_CIPHER) (in_ out : list byte) (dlen : nat) :
  (Z.of_nat (padded_length dlen (effective_iv_length c)) <= INT_MAX)%Z ->
  ~ engine_pre key c in_ out dlen ->
  datagram_encrypt junk key c in_ out dlen = Undefined.
Proof.
  intros Hint Hno.
  pose proof (effective_iv_length_pos c) as Hpos.
  pose proof (iv_length_le_effective c) as Hiv.
  assert (Hivlen : EVP_CIPHER_iv_length c <= length (iv_array junk c))
    by (rewrite iv_array_length; unfold CRYPTO_MAX_KEY_SIZE; lia).
  unfold datagram_encrypt.
  change (if EVP_CIPHER_iv_length c =? 0 then 16 else EVP_CIPHER_iv_length c)
    with (effective_iv_length c).
  rewrite memcpy_iv. cbn [bind].
  destruct (le_lt_dec (EVP_CIPHER_key_length c) (length key)) as [Hk|Hk].
  2:{ pose proof (CRYPTO_DATA_PADDING_outcome in_ dlen (effective_iv_length c)) as Hp.
      destruct (CRYPTO_DATA_PADDING in_ dlen (effective_iv_length c))
        as [[in' dlen']| |]; cbn [bind]; try congruence.
      unfold EVP_EncryptInit_ex, EVP_CipherInit_ex, Buffer.read.
      cbn [Nat.add skipn].
      rewrite (proj2 (Nat.leb_le _ _) Hivlen). cbn [bind].
      now rewrite (proj2 (Nat.leb_gt _ _) Hk). }
  destruct (EVP_CipherInit_ex_ok c key (iv_array junk c) true Hk Hivlen)
    as (ctx & E1 & E2).
  unfold EVP_EncryptInit_ex.
  destruct (le_lt_dec (padded_length dlen (effective_iv_length c)) (length in_))
    as [Hin|Hin].
  2:{ unfold CRYPTO_DATA_PADDING.
      rewrite (proj2 (Nat.eqb_neq _ 0)) by lia.
      destruct (Nat.eqb_spec (dlen mod effective_iv_length c) 0) as [Em|Em];
        cbn [negb].
      - unfold padded_length in *.
        rewrite padding_length_aligned, Nat.add_0_r in * by assumption.
        cbn [bind]. rewrite E1. cbn [bind Z.eqb negb assert].
        rewrite E2, int_of_size_t_small by exact Hint.
        unfold EVP_EncryptUpdate, ready_ctx. cbn [ctx_cipher].
        rewrite (proj2 (Z.leb_gt _ _)) by lia.
        unfold Buffer.read. rewrite Nat2Z.id.
        now rewrite (proj2 (Nat.leb_gt _ _)) by lia.
      - unfold padded_length in *.
        rewrite padding_length_unaligned in * by assumption.
        unfold Buffer.memset, Buffer.write. rewrite repeat_length.
        now rewrite (proj2 (Nat.leb_gt _ _)) by lia. }
  destruct (le_lt_dec (padded_length dlen (effective_iv_length c)) (length out))
    as [Hout|Hout].
  { exfalso. apply Hno. constructor; assumption. }
  rewrite (CRYPTO_DATA_PADDING_ok _ Hpos) by exact Hin. cbn [bind].
  rewrite E1. cbn [bind Z.eqb negb assert].
  rewrite E2, ready_ctx_iv_array, int_of_size_t_small by exact Hint.
  rewrite EVP_EncryptUpdate_ready;
    [|apply padded_length_blocks
     |rewrite (padded_buffer_length _ Hpos); auto].
  cbn [bind]. unfold Buffer.write at 1.
  rewrite do_cipher_length; auto; try lia.
  - rewrite length_firstn, (padded_buffer_length _ Hpos), Nat.min_l by lia.
    now rewrite (proj2 (Nat.leb_gt _ _)) by lia.
  - cbn. lia.
  - rewrite length_firstn, (padded_buffer_length _ Hpos), Nat.min_l by lia.
    apply padded_length_blocks.
Qed.

Lemma datagram_decrypt_undefined (junk : nat -> byte) (key : list byte)
      (c : EVP_CIPHER) (in_ out : list byte) (dlen : nat) :
  (Z.of_nat (padded_length dlen (effective_iv_length c)) <= INT_MAX)%Z ->
  ~ engine_pre key c in_ out dlen ->
  datagram_decrypt junk key c in_ out dlen = Undefined.
Proof.
  intros Hint Hno.
  pose proof (effective_iv_length_pos c) as Hpos.
  pose proof (iv_length_le_effective c) as Hiv.
  assert (Hivlen : EVP_CIPHER_iv_length c <= length (iv_array junk c))
    by (rewrite iv_array_length; unfold CRYPTO_MAX_KEY_SIZE; lia).
  unfold datagram_decrypt.
  change (if EVP_CIPHER_iv_length c =? 0 then 16 else EVP_CIPHER_iv_length c)
    with (effective_iv_length c).
  rewrite memcpy_iv. cbn [bind].
  destruct (le_lt_dec (EVP_CIPHER_key_length c) (length key)) as [Hk|Hk].
  2:{ pose proof (CRYPTO_DATA_PADDING_outcome in_ dlen (effective_iv_length c)) as Hp.
      destruct (CRYPTO_DATA_PADDING in_ dlen (effective_iv_length c))
        as [[in' dlen']| |]; cbn [bind]; try congruence.
      unfold EVP_DecryptInit_ex, EVP_CipherInit_ex, Buffer.read.
      cbn [Nat.add skipn].
      rewrite (proj2 (Nat.leb_le _ _) Hivlen). cbn [bind].
      now rewrite (proj2 (Nat.leb_gt _ _) Hk). }
  destruct (EVP_CipherInit_ex_ok c key (iv_array junk c) false Hk Hivlen)
    as (ctx & E1 & E2).
  unfold EVP_DecryptInit_ex.
  destruct (le_lt_dec (padded_length dlen (effective_iv_length c)) (length in_))
    as [Hin|Hin].
  2:{ unfold CRYPTO_DATA_PADDING.
      rewrite (proj2 (Nat.eqb_neq _ 0)) by lia.
      destruct (Nat.eqb_spec (dlen mod effective_iv_length c) 0) as [Em|Em];
        cbn [negb].
      - unfold padded_length in *.
        rewrite padding_length_aligned, Nat.add_0_r in * by assumption.
        cbn [bind]. rewrite E1. cbn [bind Z.eqb negb assert].
        rewrite E2, int_of_size_t_small by exact Hint.
        unfold EVP_DecryptUpdate, ready_ctx. cbn [ctx_cipher].
        rewrite (proj2 (Z.leb_gt _ _)) by lia.
        cbn [no_padding]. unfold EVP_EncryptUpdate. cbn [ctx_cipher].
        rewrite (proj2 (Z.leb_gt _ _)) by lia.
        unfold Buffer.read. rewrite Nat2Z.id.
        now rewrite (proj2 (Nat.leb_gt _ _)) by lia.
      - unfold padded_length in *.
        rewrite padding_length_unaligned in * by assumption.
        unfold Buffer.memset, Buffer.write. rewrite repeat_length.
        now rewrite (proj2 (Nat.leb_gt _ _)) by lia. }
  destruct (le_lt_dec (padded_length dlen (effective_iv_length c)) (length out))
    as [Hout|Hout].
  { exfalso. apply Hno. constructor; assumption. }
  rewrite (CRYPTO_DATA_PADDING_ok _ Hpos) by exact Hin. cbn [bind].
  rewrite E1. cbn [bind Z.eqb negb assert].
  rewrite E2, ready_ctx_iv_array, int_of_size_t_small by exact Hint.
  rewrite EVP_DecryptUpdate_ready;
    [|apply padded_length_blocks
     |rewrite (padded_buffer_length _ Hpos); auto].
  cbn [bind]. unfold Buffer.write at 1.
  rewrite do_cipher_length; auto; try lia.
  - rewrite length_firstn, (padded_buffer_length _ Hpos), Nat.min_l by lia.
    now rewrite (proj2 (Nat.leb_gt _ _)) by lia.
  - cbn. lia.
  - rewrite length_firstn, (padded_buffer_length _ Hpos), Nat.min_l by lia.
    apply padded_length_blocks.
Qed.

Lemma engine_pre_dec (key : list byte) (c : EVP_CIPHER) (in_ out : list byte)
      (dlen : nat) :
  (Z.of_nat (padded_length dlen (effective_iv_length c)) <= INT_MAX)%Z ->
  {engine_pre key c in_ out dlen} + {~ engine_pre key c in_ out dlen}.
Proof.
  intros Hint.
  destruct (le_lt_dec (EVP_CIPHER_key_length c) (length key)) as [Hk|Hk];
    [|right; intros [H _ _ _]; lia].
  destruct (le_lt_dec (padded_length dlen (effective_iv_length c)) (length in_))
    as [Hi|Hi]; [|right; intros [_ H _ _]; lia].
  destruct (le_lt_dec (padded_length dlen (effective_iv_length c)) (length out))
    as [Ho|Ho]; [|right; intros [_ _ H _]; lia].
  left. constructor; assumption.
Defined.

(** X1. Neither engine ever fails an assertion on a datagram whose padded
    length fits an [int]: whatever the key, the cipher and the bytes of
    the buffers are (a tampered ciphertext included), the call returns
    when the key buffer holds the key and [in] and [out] have room for
    the padded datagram, and otherwise it reads or writes outside a
    buffer.  No error is ever reported to the caller. *)
Theorem X1_engine_outcome (junk : nat -> byte) (key : list byte)
        (c : EVP_CIPHER) (in_ out : list byte) (dlen : nat) (enc : bool) :
  let n := padded_length dlen (effective_iv_length c) in
  let run := (if enc then datagram_encrypt else datagram_decrypt)
               junk key c in_ out dlen in
  (Z.of_nat n <= INT_MAX)%Z ->
  run <> Abort
  /\ ((exists r, run = Ok r) <->
      EVP_CIPHER_key_length c <= length key
      /\ n <= length in_ /\ n <= length out)
  /\ (~ (EVP_CIPHER_key_length c <= length key
         /\ n <= length in_ /\ n <= length out) -> run = Undefined).
Proof.
  intros n run Hint. subst n run.
  destruct (engine_pre_dec key c in_ out dlen Hint) as [Hpre|Hno].
  - assert (E : exists r, (if enc then datagram_encrypt else datagram_decrypt)
                            junk key c in_ out dlen = Ok r).
    { destruct enc; eexists;
        [now apply datagram_encrypt_ok|now apply datagram_decrypt_ok]. }
    destruct Hpre as [Hk Hi Ho _].
    split; [destruct E as [r ->]; discriminate|].
    split; [tauto|]. intros H. tauto.
  - assert (E : (if enc then datagram_encrypt else datagram_decrypt)
                  junk key c in_ out dlen = Undefined).
    { destruct enc;
        [now apply datagram_encrypt_undefined|now apply datagram_decrypt_undefined]. }
    rewrite E. split; [discriminate|]. split; [|reflexivity].
    split; [intros [r Hr]; discriminate Hr|].
    intros (Hk & Hi & Ho). exfalso. apply Hno. constructor; assumption.
Qed.

Lemma X1_engine_outcome_witness :
  let key := bytes_of_hex "5ebe2294ecd0e0f0" in
  let in_ := bytes_of_hex "ffffffffffffffffffff" in
  let out := repeat Byte.x00 8 in
  let run := datagram_decrypt (fun _ => Byte.x00) key des_cbc in_ out 10 in
  (Z.of_nat (padded_length 10 8) <= INT_MAX)%Z
  /\ run <> Abort
  /\ ((exists r, run = Ok r) <->
      EVP_CIPHER_key_length des_cbc <= length key
      /\ 16 <= length in_ /\ 16 <= length out)
  /\ (~ (EVP_CIPHER_key_length des_cbc <= length key
         /\ 16 <= length in_ /\ 16 <= length out) -> run = Undefined).
Proof.
  assert (H : (Z.of_nat (padded_length 10 8) <= INT_MAX)%Z)
    by (cbn; unfold INT_MAX; lia).
  split; [exact H|].
  exact (X1_engine_outcome (fun _ => Byte.x00) (bytes_of_hex "5ebe2294ecd0e0f0")
           des_cbc (bytes_of_hex "ffffffffffffffffffff") (repeat Byte.x00 8)
           10 false H).
Defined.

(** X2. On an empty datagram either engine does nothing: with a key
    buffer that holds the key, it returns with both buffers as they were
    (even empty ones) and [*dlen] still 0; no padding is added and
    nothing is written. *)
Theorem X2_empty_datagram (junk : nat -> byte) (key : list byte)
        (c : EVP_CIPHER) (in_ out : list byte) (enc : bool) :
  EVP_CIPHER_key_length c <= length key ->
  (if enc then datagram_encrypt else datagram_decrypt) junk key c in_ out 0
  = Ok (in_, out, 0).
Proof.
  intros Hk.
  pose proof (effective_iv_length_pos c) as Hpos.
  assert (E0 : padded_length 0 (effective_iv_length c) = 0).
  { unfold padded_length. rewrite padding_length_aligned; auto.
    now apply Nat.Div0.mod_0_l. }
  assert (Hpre : engine_pre key c in_ out 0).
  { constructor; rewrite ?E0; auto; try lia. unfold INT_MAX. lia. }
  pose proof (engine_output_length _ _ _ _ _ Hpre enc) as L. rewrite E0 in L.
  assert (B : padded_buffer in_ 0 (effective_iv_length c) = in_).
  { unfold padded_buffer, pad_to_block. rewrite E0. cbn [firstn length skipn app].
    rewrite padding_length_aligned; auto. now apply Nat.Div0.mod_0_l. }
  destruct (engine_output c key enc in_ 0) as [|b l] eqn:E; [|discriminate L].
  destruct enc.
  - rewrite (datagram_encrypt_ok junk _ _ _ _ _ Hpre), E0, B, E. reflexivity.
  - rewrite (datagram_decrypt_ok junk _ _ _ _ _ Hpre), E0, B, E. reflexivity.
Qed.

Lemma X2_empty_datagram_witness :
  EVP_CIPHER_key_length rc4 <= length (repeat Byte.x01 16)
  /\ datagram_encrypt (fun _ => Byte.x00) (repeat Byte.x01 16) rc4 [] [] 0
     = Ok ([], [], 0).
Proof.
  assert (H : EVP_CIPHER_key_length rc4 <= length (repeat Byte.x01 16))
    by (cbn; lia).
  split; [exact H|].
  exact (X2_empty_datagram (fun _ => Byte.x00) (repeat Byte.x01 16) rc4 [] [] true H).
Defined.

(** ** The engines: what the fixed IV and the zero padding give away *)

Lemma chunks_app_aligned {A} (n : nat) (a b : list A) :
  0 < n -> length a mod n = 0 ->
  chunks n (a ++ b) = chunks n a ++ chunks n b.
Proof.
  intros Hn Hm. apply Nat.Div0.div_exact in Hm.
  remember (length a / n) as k eqn:Ek. clear Ek. revert a Hm.
  induction k as [|k IH]; intros a Hm.
  - destruct a; [reflexivity|cbn in Hm; lia].
  - rewrite <- (firstn_skipn n a), <- app_assoc.
    assert (Hf : length (firstn n a) = n) by (rewrite length_firstn; lia).
    rewrite (ChunksFacts.chunks_app n (firstn n a) (skipn n a ++ b)) by auto.
    rewrite (ChunksFacts.chunks_app n (firstn n a) (skipn n a)) by auto.
    rewrite IH by (rewrite length_skipn; lia). reflexivity.
Qed.

Lemma cbc_encrypt_app (d : cipher_state) (v : list byte)
      (l1 l2 : list (list byte)) :
  fst (cbc_encrypt d v (l1 ++ l2))
  = fst (cbc_encrypt d v l1)
    ++ fst (cbc_encrypt d (snd (cbc_encrypt d v l1)) l2).
Proof.
  revert v. induction l1 as [|p l1 IH]; intros v; [reflexivity|].
  cbn [app cbc_encrypt]. specialize (IH (block_encrypt d (xor_bytes p v))).
  destruct (cbc_encrypt d _ (l1 ++ l2)) as [o1 v1].
  destruct (cbc_encrypt d _ l1) as [o2 v2]. cbn [fst snd] in *.
  now rewrite IH, app_assoc.
Qed.

Lemma cbc_decrypt_app (d : cipher_state) (v : list byte)
      (l1 l2 : list (list byte)) :
  fst (cbc_decrypt d v (l1 ++ l2))
  = fst (cbc_decrypt d v l1)
    ++ fst (cbc_decrypt d (snd (cbc_decrypt d v l1)) l2).
Proof.
  revert v. induction l1 as [|p l1 IH]; intros v; [reflexivity|].
  cbn [app cbc_decrypt]. specialize (IH p).
  destruct (cbc_decrypt d _ (l1 ++ l2)) as [o1 v1].
  destruct (cbc_decrypt d _ l1) as [o2 v2]. cbn [fst snd] in *.
  now rewrite IH, app_assoc.
Qed.

Lemma RC4_app (k : RC4.RC4_KEY) (a b : list byte) :
  snd (RC4.RC4 k (a ++ b))
  = snd (RC4.RC4 k a) ++ snd (RC4.RC4 (fst (RC4.RC4 k a)) b).
Proof.
  revert k. induction a as [|x a IH]; intros k; [reflexivity|].
  cbn [app RC4.RC4]. destruct (RC4.next k) as [k1 ks]. specialize (IH k1).
  destruct (RC4.RC4 k1 (a ++ b)) as [k2 o2].
  destruct (RC4.RC4 k1 a) as [k3 o3]. cbn [fst snd] in *.
  now rewrite IH.
Qed.

(** The output for the leading whole blocks of a buffer does not depend
    on what follows them. *)
Lemma do_cipher_prefix (c : EVP_CIPHER) (key v : list byte) (enc : bool)
      (a b : list byte) :
  length a mod EVP_CIPHER_block_size c = 0 ->
  exists t,
    snd (do_cipher (ready_ctx c key v enc) (a ++ b))
    = snd (do_cipher (ready_ctx c key v enc) a) ++ t.
Proof.
  intros Ha.
  destruct (EVP_CIPHER_eq_dec c rc4) as [->|Hc].
  - rewrite !do_cipher_stream, RC4_app. eauto.
  - rewrite !do_cipher_block by assumption.
    rewrite (chunks_app_aligned _ _ _ (block_size_pos c) Ha).
    destruct enc; [rewrite cbc_encrypt_app|rewrite cbc_decrypt_app]; eauto.
Qed.

Lemma engine_pre_length (key : list byte) (c : EVP_CIPHER)
      (in_ out : list byte) (dlen : nat) :
  engine_pre key c in_ out dlen -> dlen <= length in_.
Proof.
  intros [_ Hi _ _].
  pose proof (padded_length_spec _ (effective_iv_length_pos c) dlen). lia.
Qed.

(** X3. The IV is the same constant on every call, so the ciphertext
    gives away common beginnings: when two datagrams encrypted under the
    same key agree on their first [m] bytes, [m] a multiple of the
    cipher's block size (any [m] for rc4), the two ciphertexts agree on
    their first [m] bytes, whatever follows in the datagrams. *)
Theorem X3_common_prefix (junk1 junk2 : nat -> byte) (key : list byte)
        (c : EVP_CIPHER) (in1 out1 in2 out2 : list byte) (d1 d2 m : nat) :
  engine_pre key c in1 out1 d1 -> engine_pre key c in2 out2 d2 ->
  m mod EVP_CIPHER_block_size c = 0 -> m <= d1 -> m <= d2 ->
  firstn m in1 = firstn m in2 ->
  exists i1 o1 n1 i2 o2 n2,
    datagram_encrypt junk1 key c in1 out1 d1 = Ok (i1, o1, n1)
    /\ datagram_encrypt junk2 key c in2 out2 d2 = Ok (i2, o2, n2)
    /\ firstn m o1 = firstn m o2.
Proof.
  intros H1 H2 Hm Hd1 Hd2 He.
  do 6 eexists.
  split; [apply datagram_encrypt_ok; exact H1|].
  split; [apply datagram_encrypt_ok; exact H2|].
  assert (P : forall in_ out d,
             engine_pre key c in_ out d -> m <= d ->
             firstn m (engine_output c key true in_ d
                       ++ skipn (padded_length d (effective_iv_length c)) out)
             = snd (do_cipher (ready_ctx c key crypto_ivec_initdata true)
                              (firstn m in_))).
  { intros in_ out d Hpre Hd.
    pose proof (engine_pre_length _ _ _ _ _ Hpre) as Hl.
    unfold engine_output, pad_to_block.
    rewrite <- (firstn_skipn m (firstn d in_)), firstn_firstn, Nat.min_l by lia.
    rewrite <- app_assoc.
    assert (Lm : length (firstn m in_) = m) by (rewrite length_firstn; lia).
    destruct (do_cipher_prefix c key crypto_ivec_initdata true (firstn m in_)
                (skipn m (firstn d in_)
                 ++ repeat Byte.x00
                      (padding_length
                         (length (firstn m in_ ++ skipn m (firstn d in_)))
                         (effective_iv_length c))))
      as [t ->]; [now rewrite Lm|].
    rewrite <- app_assoc.
    assert (L : length (snd (do_cipher (ready_ctx c key crypto_ivec_initdata true)
                                       (firstn m in_))) = m).
    { rewrite do_cipher_length; auto.
      - apply Hpre.
      - pose proof (iv_length_le_effective c). destruct c; cbn; lia.
      - now rewrite Lm. }
    rewrite firstn_app, L, Nat.sub_diag, firstn_O, app_nil_r.
    apply firstn_all2. lia. }
  rewrite (P _ _ _ H1 Hd1), (P _ _ _ H2 Hd2), He. reflexivity.
Qed.

Lemma X3_common_prefix_witness :
  let key := bytes_of_hex "5ebe2294ecd0e0f08eab7690d2a6ee69" in
  let in1 := list_byte_of_string "GET /a/b" ++ list_byte_of_string "one"
             ++ repeat Byte.xff 5 in
  let in2 := list_byte_of_string "GET /a/b" ++ list_byte_of_string "another"
             ++ repeat Byte.xff 1 in
  let out := repeat Byte.x00 16 in
  engine_pre key des_cbc in1 out 11 /\ engine_pre key des_cbc in2 out 15
  /\ 8 mod EVP_CIPHER_block_size des_cbc = 0 /\ 8 <= 11 /\ 8 <= 15
  /\ firstn 8 in1 = firstn 8 in2
  /\ exists i1 o1 n1 i2 o2 n2,
      datagram_encrypt (fun _ => Byte.x00) key des_cbc in1 out 11 = Ok (i1, o1, n1)
      /\ datagram_encrypt (fun _ => Byte.xff) key des_cbc in2 out 15 = Ok (i2, o2, n2)
      /\ firstn 8 o1 = firstn 8 o2.
Proof.
  intros key in1 in2 out.
  assert (H1 : engine_pre key des_cbc in1 out 11)
    by (constructor; cbn; unfold INT_MAX; lia).
  assert (H2 : engine_pre key des_cbc in2 out 15)
    by (constructor; cbn; unfold INT_MAX; lia).
  assert (H3 : 8 mod EVP_CIPHER_block_size des_cbc = 0) by reflexivity.
  assert (H4 : 8 <= 11) by lia.
  assert (H5 : 8 <= 15) by lia.
  assert (H6 : firstn 8 in1 = firstn 8 in2) by reflexivity.
  repeat (split; [assumption|]).
  exact (X3_common_prefix (fun _ => Byte.x00) (fun _ => Byte.xff) key des_cbc
           in1 out in2 out 11 15 8 H1 H2 H3 H4 H5 H6).
Defined.

Lemma bits8_xor_reuse (k a b : bits8) :
  bits8_xor (bits8_xor k a) (bits8_xor k b) = bits8_xor a b.
Proof.
  destruct k as (k0 & k1 & k2 & k3 & k4 & k5 & k6 & k7).
  destruct a as (a0 & a1 & a2 & a3 & a4 & a5 & a6 & a7).
  destruct b as (b0 & b1 & b2 & b3 & b4 & b5 & b6 & b7).
  cbn. repeat (apply (f_equal2 pair); [btauto|]). btauto.
Qed.

Lemma byte_xor_reuse (k a b : byte) :
  byte_xor (byte_xor k a) (byte_xor k b) = byte_xor a b.
Proof.
  apply to_bits_inj. rewrite !to_bits_byte_xor. apply bits8_xor_reuse.
Qed.

(** Two runs of RC4 from the same state use the same key stream. *)
Lemma RC4_reuse (k : RC4.RC4_KEY) (p1 p2 : list byte) :
  xor_bytes (snd (RC4.RC4 k p1)) (snd (RC4.RC4 k p2)) = xor_bytes p1 p2.
Proof.
  revert k p2. induction p1 as [|a p1 IH]; intros k [|b p2]; try reflexivity.
  - cbn [RC4.RC4]. destruct (RC4.next k) as [k1 ks].
    destruct (RC4.RC4 k1 p1). reflexivity.
  - cbn [RC4.RC4]. destruct (RC4.next k) as [k1 ks]. specialize (IH k1 p2).
    destruct (RC4.RC4 k1 p1) as [k2 o1]. destruct (RC4.RC4 k1 p2) as [k3 o2].
    cbn [snd xor_bytes] in *. now rewrite IH, byte_xor_reuse.
Qed.

(** X4. With rc4 every datagram is encrypted under the same key stream:
    the xor of two ciphertexts made with the same key is the xor of the
    two padded plaintexts, over their common length, whatever the key
    is. *)
Theorem X4_rc4_key_stream_reuse (junk1 junk2 : nat -> byte) (key : list byte)
        (in1 out1 in2 out2 : list byte) (d1 d2 : nat) :
  engine_pre key rc4 in1 out1 d1 -> engine_pre key rc4 in2 out2 d2 ->
  exists i1 o1 n1 i2 o2 n2,
    datagram_encrypt junk1 key rc4 in1 out1 d1 = Ok (i1, o1, n1)
    /\ datagram_encrypt junk2 key rc4 in2 out2 d2 = Ok (i2, o2, n2)
    /\ xor_bytes (firstn n1 o1) (firstn n2 o2)
       = xor_bytes (pad_to_block 16 (firstn d1 in1))
                   (pad_to_block 16 (firstn d2 in2)).
Proof.
  intros H1 H2.
  do 6 eexists.
  split; [apply datagram_encrypt_ok; exact H1|].
  split; [apply datagram_encrypt_ok; exact H2|].
  pose proof (engine_output_length _ _ _ _ _ H1 true) as L1.
  pose proof (engine_output_length _ _ _ _ _ H2 true) as L2.
  rewrite !firstn_app, L1, L2, !Nat.sub_diag, !firstn_O, !app_nil_r.
  rewrite !firstn_all2 by lia.
  unfold engine_output. rewrite !do_cipher_stream. apply RC4_reuse.
Qed.

Lemma X4_rc4_key_stream_reuse_witness :
  let key := bytes_of_hex "5ebe2294ecd0e0f08eab7690d2a6ee69" in
  let in1 := list_byte_of_string "attack at dawn!!" in
  let in2 := list_byte_of_string "retreat at noon " in
  let out := repeat Byte.x00 16 in
  engine_pre key rc4 in1 out 16 /\ engine_pre key rc4 in2 out 16
  /\ exists i1 o1 n1 i2 o2 n2,
      datagram_encrypt (fun _ => Byte.x00) key rc4 in1 out 16 = Ok (i1, o1, n1)
      /\ datagram_encrypt (fun _ => Byte.x00) key rc4 in2 out 16 = Ok (i2, o2, n2)
      /\ xor_bytes (firstn n1 o1) (firstn n2 o2)
         = xor_bytes (pad_to_block 16 (firstn 16 in1))
                     (pad_to_block 16 (firstn 16 in2)).
Proof.
  intros key in1 in2 out.
  assert (H1 : engine_pre key rc4 in1 out 16)
    by (constructor; cbn; unfold INT_MAX; lia).
  assert (H2 : engine_pre key rc4 in2 out 16)
    by (constructor; cbn; unfold INT_MAX; lia).
  split; [exact H1|]. split; [exact H2|].
  exact (X4_rc4_key_stream_reuse (fun _ => Byte.x00) (fun _ => Byte.x00) key
           in1 out in2 out 16 16 H1 H2).
Defined.

Lemma padded_length_unique (bs a d : nat) :
  0 < bs -> a mod bs = 0 -> d <= a < d + bs -> padded_length d bs = a.
Proof.
  intros Hbs Ha Hr.
  destruct (padded_length_spec bs Hbs d) as [Hm Hd].
  apply Nat.Div0.div_exact in Ha, Hm.
  assert (a / bs = padded_length d bs / bs) by nia.
  congruence.
Qed.

(** X5. The ciphertext does not carry the length of the datagram: a
    datagram and the same datagram followed by zero bytes, up to the
    block boundary, are encrypted to the same ciphertext of the same
    reported length, so that the receiver cannot tell them apart. *)
Theorem X5_trailing_zeros (junk1 junk2 : nat -> byte) (key : list byte)
        (c : EVP_CIPHER) (in1 out1 in2 out2 : list byte) (d1 d2 : nat) :
  engine_pre key c in1 out1 d1 -> engine_pre key c in2 out2 d2 ->
  d1 <= d2 <= padded_length d1 (effective_iv_length c) ->
  firstn d2 in2 = firstn d1 in1 ++ repeat Byte.x00 (d2 - d1) ->
  exists i1 o1 i2 o2 n,
    datagram_encrypt junk1 key c in1 out1 d1 = Ok (i1, o1, n)
    /\ datagram_encrypt junk2 key c in2 out2 d2 = Ok (i2, o2, n)
    /\ firstn n o1 = firstn n o2.
Proof.
  intros H1 H2 Hd He.
  pose proof (effective_iv_length_pos c) as Hpos.
  destruct (padded_length_spec _ Hpos d1) as [Hm Hr].
  assert (En : padded_length d2 (effective_iv_length c)
               = padded_length d1 (effective_iv_length c))
    by (apply padded_length_unique; auto; lia).
  exists (padded_buffer in1 d1 (effective_iv_length c)).
  eexists.
  exists (padded_buffer in2 d2 (effective_iv_length c)).
  eexists. exists (padded_length d1 (effective_iv_length c)).
  split; [apply datagram_encrypt_ok; exact H1|].
  split; [rewrite <- En; apply datagram_encrypt_ok; exact H2|].
  pose proof (engine_output_length _ _ _ _ _ H1 true) as L1.
  pose proof (engine_output_length _ _ _ _ _ H2 true) as L2.
  rewrite En.
  rewrite !firstn_app, L1, L2, En, !Nat.sub_diag, !firstn_O, !app_nil_r.
  rewrite !firstn_all2 by lia.
  unfold engine_output. do 2 f_equal.
  pose proof (engine_pre_length _ _ _ _ _ H1) as Hl1.
  pose proof (engine_pre_length _ _ _ _ _ H2) as Hl2.
  unfold pad_to_block. rewrite He, <- app_assoc. f_equal.
  rewrite length_app, repeat_length, length_firstn, Nat.min_l by lia.
  rewrite <- repeat_app. f_equal.
  unfold padded_length in En.
  replace (d1 + (d2 - d1)) with d2 by lia. lia.
Qed.

Lemma X5_trailing_zeros_witness :
  let key := bytes_of_hex "5ebe2294ecd0e0f08eab7690d2a6ee69" in
  let in1 := list_byte_of_string "hello" ++ repeat Byte.xff 11 in
  let in2 := list_byte_of_string "hello" ++ repeat Byte.x00 3
             ++ repeat Byte.x01 8 in
  let out := repeat Byte.x00 16 in
  engine_pre key aes_128_cbc in1 out 5 /\ engine_pre key aes_128_cbc in2 out 8
  /\ 5 <= 8 <= padded_length 5 (effective_iv_length aes_128_cbc)
  /\ firstn 8 in2 = firstn 5 in1 ++ repeat Byte.x00 (8 - 5)
  /\ exists i1 o1 i2 o2 n,
      datagram_encrypt (fun _ => Byte.x00) key aes_128_cbc in1 out 5
      = Ok (i1, o1, n)
      /\ datagram_encrypt (fun _ => Byte.x00) key aes_128_cbc in2 out 8
         = Ok (i2, o2, n)
      /\ firstn n o1 = firstn n o2.
Proof.
  intros key in1 in2 out.
  assert (H1 : engine_pre key aes_128_cbc in1 out 5)
    by (constructor; cbn; unfold INT_MAX; lia).
  assert (H2 : engine_pre key aes_128_cbc in2 out 8)
    by (constructor; cbn; unfold INT_MAX; lia).
  assert (H3 : 5 <= 8 <= padded_length 5 (effective_iv_length aes_128_cbc))
    by (cbn; lia).
  assert (H4 : firstn 8 in2 = firstn 5 in1 ++ repeat Byte.x00 (8 - 5))
    by reflexivity.
  repeat (split; [assumption|]).
  exact (X5_trailing_zeros (fun _ => Byte.x00) (fun _ => Byte.x00) key
           aes_128_cbc in1 out in2 out 5 8 H1 H2 H3 H4).
Defined.

(** ** The padding macro *)

(** X6. When [CRYPTO_DATA_PADDING] is safe to use: never with a block
    size of 0 (the remainder is a division by zero); with a positive
    block size it never fails, it leaves a datagram of whole blocks alone
    without looking at the buffer, and for any other datagram it is
    defined exactly when the buffer has room for the padding behind the
    datagram: the macro writes there without any check. *)
Theorem X6_padding_bounds (data : list byte) (dlen bs : nat) :
  (bs = 0 -> CRYPTO_DATA_PADDING data dlen bs = Undefined)
  /\ CRYPTO_DATA_PADDING data dlen bs <> Abort
  /\ (0 < bs -> dlen mod bs = 0 ->
      CRYPTO_DATA_PADDING data dlen bs = Ok (data, dlen))
  /\ (0 < bs -> dlen mod bs <> 0 ->
      ((exists r, CRYPTO_DATA_PADDING data dlen bs = Ok r) <->
       dlen + (bs - dlen mod bs) <= length data)
      /\ (length data < dlen + (bs - dlen mod bs) ->
          CRYPTO_DATA_PADDING data dlen bs = Undefined)).
Proof.
  split; [intros ->; reflexivity|].
  split; [apply CRYPTO_DATA_PADDING_outcome|].
  split.
  - intros Hbs Hm. unfold CRYPTO_DATA_PADDING.
    rewrite (proj2 (Nat.eqb_neq bs 0)) by lia.
    now rewrite Hm.
  - intros Hbs Hm. unfold CRYPTO_DATA_PADDING, Buffer.memset, Buffer.write.
    rewrite (proj2 (Nat.eqb_neq bs 0)) by lia.
    rewrite (proj2 (Nat.eqb_neq _ 0) Hm). cbn [negb]. rewrite repeat_length.
    destruct (Nat.leb_spec (dlen + (bs - dlen mod bs)) (length data)) as [H|H];
      cbn [bind].
    + split; [|lia]. split; eauto.
    + split; [|reflexivity]. split; [intros [r Hr]; discriminate Hr|lia].
Qed.

Lemma CRYPTO_DATA_PADDING_returns (data : list byte) (dlen bs : nat)
      (data' : list byte) (n : nat) :
  CRYPTO_DATA_PADDING data dlen bs = Ok (data', n) ->
  0 < bs /\ n = padded_length dlen bs /\ length data' = length data.
Proof.
  unfold CRYPTO_DATA_PADDING, Buffer.memset, Buffer.write, padded_length.
  destruct (Nat.eqb_spec bs 0) as [|Hbs]; [discriminate|].
  destruct (Nat.eqb_spec (dlen mod bs) 0) as [Hm|Hm]; cbn [negb].
  - intros E. injection E as <- <-.
    rewrite padding_length_aligned by (lia || assumption). lia.
  - rewrite repeat_length.
    destruct (Nat.leb_spec (dlen + (bs - dlen mod bs)) (length data)) as [H|H];
      cbn [bind]; [|discriminate].
    intros E. injection E as <- <-.
    rewrite padding_length_unaligned by (lia || assumption).
    repeat split; try lia.
    rewrite !length_app, repeat_length, length_firstn, length_skipn. lia.
Qed.

(** X7. Padding is idempotent: once the macro has returned, applying it
    again to the buffer and the length it left changes neither.  The
    length it leaves is a multiple of the block size, and the buffer
    keeps its size. *)
Theorem X7_padding_idempotent (data : list byte) (dlen bs : nat)
        (data' : list byte) (n : nat) :
  CRYPTO_DATA_PADDING data dlen bs = Ok (data', n) ->
  CRYPTO_DATA_PADDING data' n bs = Ok (data', n)
  /\ n mod bs = 0 /\ dlen <= n < dlen + bs /\ length data' = length data.
Proof.
  intros E. destruct (CRYPTO_DATA_PADDING_returns _ _ _ _ _ E) as (Hbs & -> & L).
  destruct (padded_length_spec bs Hbs dlen) as [Hm Hr].
  repeat split; try lia; try assumption.
  unfold CRYPTO_DATA_PADDING.
  rewrite (proj2 (Nat.eqb_neq bs 0)) by lia.
  now rewrite Hm.
Qed.

Lemma X7_padding_idempotent_witness :
  let data := bytes_of_hex "0102030405ffffffffff" in
  let data' := bytes_of_hex "0102030405000000ffff" in
  CRYPTO_DATA_PADDING data 5 8 = Ok (data', 8)
  /\ CRYPTO_DATA_PADDING data' 8 8 = Ok (data', 8)
  /\ 8 mod 8 = 0 /\ 5 <= 8 < 5 + 8 /\ length data' = length data.
Proof.
  intros data data'.
  assert (E : CRYPTO_DATA_PADDING data 5 8 = Ok (data', 8)) by reflexivity.
  split; [exact E|].
  exact (X7_padding_idempotent data 5 8 data' 8 E).
Defined.

(** ** Key derivation: bounds, footprint and related keys *)

Lemma memcpy_outcome (dst : list byte) (off : nat) (src : list byte) (n : nat) :
  Buffer.memcpy dst off src n <> Abort.
Proof.
  unfold Buffer.memcpy, Buffer.read, Buffer.write.
  destruct (_ <=? _); cbn [bind]; [|discriminate].
  destruct (_ <=? _); discriminate.
Qed.

Lemma fill_loop_outcome (out : list byte) (outp oute : nat) :
  fill_loop out outp oute <> Abort.
Proof.
  funelim (fill_loop out outp oute); try discriminate; try assumption.
  exfalso. eapply memcpy_outcome. exact Heq.
Qed.

(** X8. [fill_with_string_md5sum] has no error return and checks nothing:
    it is defined exactly when the buffer holds the 16 bytes of the
    digest and the [outlen] bytes asked for.  With a buffer shorter than
    16 bytes it writes behind the buffer, even when fewer than 16 bytes
    of key are asked for. *)
Theorem X8_key_buffer_bounds (pass : string) (out : list byte) (outlen : nat) :
  fill_with_string_md5sum pass out outlen <> Abort
  /\ ((exists key, fill_with_string_md5sum pass out outlen = Ok key) <->
      16 <= length out /\ outlen <= length out)
  /\ (length out < 16 \/ length out < outlen ->
      fill_with_string_md5sum pass out outlen = Undefined).
Proof.
  assert (A : fill_with_string_md5sum pass out outlen <> Abort).
  { unfold fill_with_string_md5sum, Buffer.write.
    destruct (_ <=? _); cbn [bind]; [|discriminate].
    apply fill_loop_outcome. }
  assert (I : (exists key, fill_with_string_md5sum pass out outlen = Ok key) <->
              16 <= length out /\ outlen <= length out).
  { split.
    - intros [key E]. eapply fill_with_string_md5sum_returns; eauto.
    - intros [H1 H2].
      destruct (fill_with_string_md5sum_ok pass out outlen H1 H2) as (k & E & _).
      eauto. }
  repeat split; try apply I; auto.
  intros H.
  destruct (fill_with_string_md5sum pass out outlen) as [key| |] eqn:E;
    [|congruence|reflexivity].
  assert (16 <= length out /\ outlen <= length out) by (apply I; eauto). lia.
Qed.

(** X9. What a call that returns has written: the buffer keeps its size,
    its first 16 bytes are the whole digest of the passphrase (also when
    fewer than 16 bytes were asked for, so that the bytes from [outlen]
    to 16 are overwritten as well), and nothing behind the larger of 16
    and [outlen] is touched. *)
Theorem X9_key_footprint (pass : string) (out : list byte) (outlen : nat)
        (key : list byte) :
  fill_with_string_md5sum pass out outlen = Ok key ->
  length key = length out
  /\ firstn 16 key = MD5.md5 (Libc.bytes_of_c_string pass)
  /\ skipn (Nat.max 16 outlen) key = skipn (Nat.max 16 outlen) out.
Proof.
  intros E.
  destruct (fill_with_string_md5sum_returns _ _ _ _ E) as [H1 H2].
  destruct (fill_with_string_md5sum_ok pass out outlen H1 H2)
    as (k & E' & L & _ & F & S).
  rewrite E in E'. injection E' as <-. auto.
Qed.

Lemma X9_key_footprint_witness :
  let out := repeat Byte.xff 20 in
  let key := bytes_of_hex "5ebe2294ecd0e0f08eab7690d2a6ee69" ++ repeat Byte.xff 4 in
  fill_with_string_md5sum "secret" out 8 = Ok key
  /\ length key = length out
  /\ firstn 16 key = MD5.md5 (Libc.bytes_of_c_string "secret")
  /\ skipn (Nat.max 16 8) key = skipn (Nat.max 16 8) out.
Proof.
  intros out key.
  assert (E : fill_with_string_md5sum "secret" out 8 = Ok key)
    by (vm_compute; reflexivity).
  split; [exact E|].
  exact (X9_key_footprint "secret" out 8 key E).
Defined.

Lemma firstn_tiled (d : list byte) (n m : nat) :
  length d = 16 -> n <= m -> firstn n (tiled d m) = tiled d n.
Proof.
  intros Hd Hnm. unfold tiled.
  rewrite firstn_firstn, Nat.min_l by assumption.
  assert (Hq : n / 16 <= m / 16) by (apply Nat.Div0.div_le_mono; assumption).
  replace (S (m / 16)) with (S (n / 16) + (m / 16 - n / 16)) by lia.
  rewrite repeat_app, concat_app, firstn_app.
  assert (L : length (concat (repeat d (S (n / 16)))) = S (n / 16) * 16).
  { rewrite (concat_length_blocks 16), repeat_length; auto.
    apply Forall_forall. intros x Hx. apply repeat_spec in Hx. now subst. }
  rewrite L.
  pose proof (Nat.div_mod_eq n 16). pose proof (Nat.mod_upper_bound n 16).
  replace (n - S (n / 16) * 16) with 0 by lia.
  now rewrite firstn_O, app_nil_r.
Qed.

(** X10. Keys of different lengths derived from one passphrase are
    related: the shorter key is the beginning of the longer one.  So the
    des key is the first half of the aes-128 key, which is each half of
    the aes-256 key. *)
Theorem X10_related_keys (pass : string) (out1 out2 : list byte) (n m : nat)
        (k1 k2 : list byte) :
  fill_with_string_md5sum pass out1 n = Ok k1 ->
  fill_with_string_md5sum pass out2 m = Ok k2 ->
  n <= m ->
  firstn n k2 = firstn n k1.
Proof.
  intros E1 E2 Hnm.
  destruct (fill_with_string_md5sum_returns _ _ _ _ E1) as [A1 B1].
  destruct (fill_with_string_md5sum_returns _ _ _ _ E2) as [A2 B2].
  destruct (fill_with_string_md5sum_ok pass out1 n A1 B1) as (k & E & _ & T1 & _).
  rewrite E1 in E. injection E as <-.
  destruct (fill_with_string_md5sum_ok pass out2 m A2 B2) as (k & E & _ & T2 & _).
  rewrite E2 in E. injection E as <-.
  rewrite T1, <- (firstn_tiled _ n m (md5_length _) Hnm), <- T2.
  rewrite firstn_firstn, Nat.min_l by assumption. reflexivity.
Qed.

Lemma X10_related_keys_witness :
  let k1 := bytes_of_hex "5ebe2294ecd0e0f08eab7690d2a6ee69" ++ repeat Byte.x00 16 in
  let k2 := bytes_of_hex
              "5ebe2294ecd0e0f08eab7690d2a6ee695ebe2294ecd0e0f08eab7690d2a6ee69" in
  fill_with_string_md5sum "secret" (repeat Byte.x00 32)
                          (EVP_CIPHER_key_length des_cbc) = Ok k1
  /\ fill_with_string_md5sum "secret" (repeat Byte.xff 32)
                             (EVP_CIPHER_key_length aes_256_cbc) = Ok k2
  /\ EVP_CIPHER_key_length des_cbc <= EVP_CIPHER_key_length aes_256_cbc
  /\ firstn (EVP_CIPHER_key_length des_cbc) k2
     = firstn (EVP_CIPHER_key_length des_cbc) k1.
Proof.
  intros k1 k2.
  assert (E1 : fill_with_string_md5sum "secret" (repeat Byte.x00 32)
                 (EVP_CIPHER_key_length des_cbc) = Ok k1)
    by (vm_compute; reflexivity).
  assert (E2 : fill_with_string_md5sum "secret" (repeat Byte.xff 32)
                 (EVP_CIPHER_key_length aes_256_cbc) = Ok k2)
    by (vm_compute; reflexivity).
  assert (H : EVP_CIPHER_key_length des_cbc <= EVP_CIPHER_key_length aes_256_cbc)
    by (cbn; lia).
  split; [exact E1|]. split; [exact E2|]. split; [exact H|].
  exact (X10_related_keys "secret" _ _ _ _ k1 k2 E1 E2 H).
Defined.

(** ** The engines: encryption undoes decryption *)

Module InverseFacts.
Import AES DES AESFacts DESFacts.

Lemma sbox_inv_sbox (b : byte) : sbox (inv_sbox b) = b.
Proof. destruct b; vm_compute; reflexivity. Qed.

Lemma SubBytes_InvSubBytes (s : state) : SubBytes (InvSubBytes s) = s.
Proof.
  destruct s as [[[[[[a0 a1] a2] a3] [[[b0 b1] b2] b3]] [[[c0 c1] c2] c3]] [[[d0 d1] d2] d3]].
  unfold InvSubBytes, SubBytes, state_map, word_map.
  now rewrite !sbox_inv_sbox.
Qed.

Lemma ShiftRows_InvShiftRows (s : state) : ShiftRows (InvShiftRows s) = s.
Proof.
  destruct s as [[[[[[a0 a1] a2] a3] [[[b0 b1] b2] b3]] [[[c0 c1] c2] c3]] [[[d0 d1] d2] d3]].
  reflexivity.
Qed.

Lemma mix_column_inv_mix_column (w : word) : mix_column (inv_mix_column w) = w.
Proof.
  destruct w as [[[a0 a1] a2] a3].
  unfold inv_mix_column, mix_column.
  repeat (apply (f_equal2 pair)); apply to_bits_inj;
    unfold xor4, x3, x9, x11, x13, x14;
    repeat (rewrite ?to_bits_byte_xor, ?to_bits_xtime);
    destruct (Byte.to_bits a0) as (p0 & p1 & p2 & p3 & p4 & p5 & p6 & p7);
    destruct (Byte.to_bits a1) as (q0 & q1 & q2 & q3 & q4 & q5 & q6 & q7);
    destruct (Byte.to_bits a2) as (r0 & r1 & r2 & r3 & r4 & r5 & r6 & r7);
    destruct (Byte.to_bits a3) as (s0 & s1 & s2 & s3 & s4 & s5 & s6 & s7);
    cbn; repeat (apply (f_equal2 pair)); btauto.
Qed.

Lemma MixColumns_InvMixColumns (s : state) : MixColumns (InvMixColumns s) = s.
Proof.
  destruct s as [[[c0 c1] c2] c3]. unfold InvMixColumns, MixColumns, state_map.
  now rewrite !mix_column_inv_mix_column.
Qed.

Lemma enc_rounds_dec_rounds (ks : list state) (s : state) :
  enc_rounds ks (dec_rounds ks s) = s.
Proof.
  revert s. induction ks as [|k ks IH]; intros s; [reflexivity|].
  destruct ks as [|k' ks].
  - cbn [dec_rounds enc_rounds].
    now rewrite SubBytes_InvSubBytes, ShiftRows_InvShiftRows, AddRoundKey_involutive.
  - change (dec_rounds (k :: k' :: ks) s)
      with (InvSubBytes (InvShiftRows (InvMixColumns
              (AddRoundKey k (dec_rounds (k' :: ks) s))))).
    change (enc_rounds (k :: k' :: ks) ?c)
      with (enc_rounds (k' :: ks) (AddRoundKey k (MixColumns (ShiftRows (SubBytes c))))).
    rewrite SubBytes_InvSubBytes, ShiftRows_InvShiftRows, MixColumns_InvMixColumns,
      AddRoundKey_involutive.
    apply IH.
Qed.

Lemma Cipher_InvCipher (ks : list state) (s : state) :
  Cipher ks (InvCipher ks s) = s.
Proof.
  destruct ks as [|k0 ks]; [reflexivity|]. unfold InvCipher, Cipher.
  now rewrite AddRoundKey_involutive, enc_rounds_dec_rounds.
Qed.

Lemma AES_encrypt_decrypt (ks : AES_KEY) (b : list byte) :
  length b = 16 -> AES_encrypt ks (AES_decrypt ks b) = b.
Proof.
  intros H. unfold AES_decrypt, AES_encrypt.
  now rewrite state_of_bytes_of_state, Cipher_InvCipher, bytes_of_state_of_bytes.
Qed.

Lemma DES_encrypt_decrypt (ks : DES_key_schedule) (b : list byte) :
  length b = 8 -> DES_encrypt1 ks true (DES_encrypt1 ks false b) = b.
Proof.
  intros H. unfold DES_encrypt1.
  rewrite bits_of_bytes_of_bits_64 by apply crypt_bits_length.
  rewrite <- (rev_involutive ks) at 1.
  rewrite crypt_bits_rev by (rewrite bits_of_bytes_length; lia).
  apply bytes_of_bits_of_bytes.
Qed.

Lemma DESX_encrypt_decrypt (ks : DES_key_schedule) (inw outw b : list byte) :
  length inw = 8 -> length outw = 8 -> length b = 8 ->
  DESX_encrypt ks inw outw (DESX_decrypt ks inw outw b) = b.
Proof.
  intros Hi Ho Hb. unfold DESX_decrypt, DESX_encrypt.
  rewrite xor_bytes_involutive by (rewrite DES_encrypt1_length; lia).
  rewrite DES_encrypt_decrypt by (rewrite xor_bytes_length; lia).
  apply xor_bytes_involutive. lia.
Qed.

(** Block encryption undoes block decryption, for every key. *)
Lemma block_encrypt_decrypt (c : EVP_CIPHER) (key b : list byte) :
  c <> rc4 -> length key = EVP_CIPHER_key_length c ->
  length b = EVP_CIPHER_block_size c ->
  block_encrypt (init_key c key) (block_decrypt (init_key c key) b) = b.
Proof.
  intros Hc Hk Hb.
  destruct c; try congruence;
    cbn [init_key EVP_CIPHER_block_size EVP_CIPHER_key_length
         block_encrypt block_decrypt] in *.
  - now apply AES_encrypt_decrypt.
  - now apply AES_encrypt_decrypt.
  - now apply DES_encrypt_decrypt.
  - apply DESX_encrypt_decrypt; auto;
      rewrite length_firstn, length_skipn; lia.
Qed.

Lemma cbc_roundtrip_rev (d : cipher_state) (bs : nat) (v : list byte)
      (blocks : list (list byte)) :
  good_blocks d bs -> 0 < bs ->
  (forall b, length b = bs -> block_encrypt d (block_decrypt d b) = b) ->
  length v = bs -> Forall (fun c => length c = bs) blocks ->
  fst (cbc_encrypt d v (chunks bs (fst (cbc_decrypt d v blocks))))
  = concat blocks.
Proof.
  intros G Hbs Hinv. revert v.
  induction blocks as [|c rest IH]; intros v Hv Hb; [reflexivity|].
  apply Forall_cons_iff in Hb as [Hc Hrest].
  cbn [cbc_decrypt]. specialize (IH c Hc Hrest).
  destruct (cbc_decrypt d c rest) as [out v']. cbn [fst] in *.
  assert (Hp : length (xor_bytes (block_decrypt d c) v) = bs).
  { rewrite xor_bytes_length, (dec_length _ _ G), Hv. lia. }
  rewrite ChunksFacts.chunks_app by auto. cbn [cbc_encrypt].
  rewrite xor_bytes_involutive by (rewrite (dec_length _ _ G); lia).
  rewrite Hinv by assumption.
  destruct (cbc_encrypt d c (chunks bs out)) as [o2 v2]. cbn [fst concat] in *.
  now rewrite IH.
Qed.

(** Encryption undoes decryption under the same key and IV. *)
Lemma do_cipher_roundtrip_rev (c : EVP_CIPHER) (key v : list byte)
      (x : list byte) :
  EVP_CIPHER_key_length c <= length key ->
  EVP_CIPHER_iv_length c <= length v ->
  length x mod EVP_CIPHER_block_size c = 0 ->
  snd (do_cipher (ready_ctx c key v true)
         (snd (do_cipher (ready_ctx c key v false) x))) = x.
Proof.
  intros Hk Hv Hx.
  destruct (EVP_CIPHER_eq_dec c rc4) as [->|Hc].
  - rewrite !do_cipher_stream. apply RC4Facts.RC4_involutive.
  - rewrite !do_cipher_block by assumption.
    pose proof (init_key_good c _ Hc (crypto_key_length c key Hk)) as G.
    destruct (chunks_aligned _ x (block_size_pos c) Hx) as (H1 & H2 & H3).
    rewrite (cbc_roundtrip_rev _ (EVP_CIPHER_block_size c)); auto.
    + apply block_size_pos.
    + intros b Hb. apply block_encrypt_decrypt; auto.
      now apply crypto_key_length.
    + rewrite length_firstn, <- block_size_iv_length by assumption. lia.
Qed.

Lemma block_size_divides (c : EVP_CIPHER) (n : nat) :
  n mod effective_iv_length c = 0 -> n mod EVP_CIPHER_block_size c = 0.
Proof.
  destruct c; try (intros H; exact H). intros _. apply Nat.mod_1_r.
Qed.

End InverseFacts.

(** X11. Encryption undoes decryption: when a datagram of whole blocks,
    its length fitting an [int], is run through [datagram_decrypt] and
    the result through [datagram_encrypt] with the same key and cipher,
    the datagram comes back.  So decryption loses nothing, and every string of whole blocks
    is the ciphertext of some plaintext: the engines have no means to
    recognise a datagram that was not produced with the key. *)
Theorem X11_encrypt_after_decrypt (junk junk' : nat -> byte) (key : list byte)
        (c : EVP_CIPHER) (in_ out out2 : list byte) (dlen : nat) :
  engine_pre key c in_ out dlen ->
  dlen mod effective_iv_length c = 0 -> dlen <= length out2 ->
  exists in' pt pt' ct,
    datagram_decrypt junk key c in_ out dlen = Ok (in', pt, dlen)
    /\ datagram_encrypt junk' key c pt out2 dlen = Ok (pt', ct, dlen)
    /\ firstn dlen ct = firstn dlen in_.
Proof.
  intros Hpre Hm Hout2.
  pose proof (effective_iv_length_pos c) as Hpos.
  assert (En : padded_length dlen (effective_iv_length c) = dlen).
  { unfold padded_length. rewrite padding_length_aligned by assumption. lia. }
  pose proof (engine_output_length _ _ _ _ _ Hpre false) as L. rewrite En in L.
  pose proof (datagram_decrypt_ok junk _ _ _ _ _ Hpre) as E1. rewrite En in E1.
  set (pt := engine_output c key false in_ dlen ++ skipn dlen out) in *.
  assert (Hpre2 : engine_pre key c pt out2 dlen).
  { destruct Hpre as [Hk Hi Ho Hz]. rewrite En in *.
    constructor; rewrite ?En; auto.
    unfold pt. rewrite length_app, L, length_skipn. lia. }
  pose proof (datagram_encrypt_ok junk' _ _ _ _ _ Hpre2) as E2. rewrite En in E2.
  do 4 eexists. split; [exact E1|]. split; [exact E2|].
  pose proof (engine_output_length _ _ _ _ _ Hpre2 true) as L2. rewrite En in L2.
  rewrite firstn_app, L2, Nat.sub_diag, firstn_O, app_nil_r.
  rewrite firstn_all2 by lia.
  pose proof (engine_pre_length _ _ _ _ _ Hpre) as Hl.
  assert (Lf : length (firstn dlen in_) = dlen) by (rewrite length_firstn; lia).
  unfold engine_output at 1, pt.
  rewrite firstn_app, L, Nat.sub_diag, firstn_O, app_nil_r.
  rewrite (firstn_all2 (n := dlen)) by lia.
  rewrite (pad_to_block_aligned _ (engine_output c key false in_ dlen) Hpos)
    by (now rewrite L).
  unfold engine_output.
  rewrite (pad_to_block_aligned _ (firstn dlen in_) Hpos) by (now rewrite Lf).
  apply InverseFacts.do_cipher_roundtrip_rev.
  - apply Hpre.
  - pose proof (iv_length_le_effective c). destruct c; cbn; lia.
  - rewrite Lf. now apply InverseFacts.block_size_divides.
Qed.

Lemma X11_encrypt_after_decrypt_witness :
  let key := bytes_of_hex "5ebe2294ecd0e0f0" in
  let in_ := bytes_of_hex "00112233445566778899aabbccddeeff" in
  let out := repeat Byte.x00 16 in
  engine_pre key des_cbc in_ out 16
  /\ 16 mod effective_iv_length des_cbc = 0 /\ 16 <= length out
  /\ exists in' pt pt' ct,
      datagram_decrypt (fun _ => Byte.x00) key des_cbc in_ out 16
      = Ok (in', pt, 16)
      /\ datagram_encrypt (fun _ => Byte.x00) key des_cbc pt out 16
         = Ok (pt', ct, 16)
      /\ firstn 16 ct = firstn 16 in_.
Proof.
  intros key in_ out.
  assert (H1 : engine_pre key des_cbc in_ out 16)
    by (constructor; cbn; unfold INT_MAX; lia).
  assert (H2 : 16 mod effective_iv_length des_cbc = 0) by reflexivity.
  assert (H3 : 16 <= length out) by (cbn; lia).
  repeat (split; [assumption|]).
  exact (X11_encrypt_after_decrypt (fun _ => Byte.x00) (fun _ => Byte.x00) key
           des_cbc in_ out out 16 H1 H2 H3).
Defined.

(** ** The engines under rc4 *)

(** X12. Under rc4 the two engines are one and the same function: on
    every key, datagram and pair of buffers [datagram_decrypt] has the
    outcome of [datagram_encrypt], the same bytes in [out] and the same
    length when they return.  Encrypting a ciphertext once more gives
    the plaintext back. *)
Theorem X12_rc4_engines_coincide (junk junk' : nat -> byte) (key : list byte)
        (in_ out : list byte) (dlen : nat) :
  (Z.of_nat (padded_length dlen 16) <= INT_MAX)%Z ->
  datagram_decrypt junk' key rc4 in_ out dlen
  = datagram_encrypt junk key rc4 in_ out dlen.
Proof.
  intros Hint.
  destruct (engine_pre_dec key rc4 in_ out dlen Hint) as [Hpre|Hno].
  - rewrite (datagram_encrypt_ok junk _ _ _ _ _ Hpre).
    rewrite (datagram_decrypt_ok junk' _ _ _ _ _ Hpre).
    unfold engine_output. now rewrite !do_cipher_stream.
  - rewrite (datagram_encrypt_undefined junk key rc4 in_ out dlen Hint Hno).
    now rewrite (datagram_decrypt_undefined junk' key rc4 in_ out dlen Hint Hno).
Qed.

Lemma X12_rc4_engines_coincide_witness :
  let key := bytes_of_hex "5ebe2294ecd0e0f08eab7690d2a6ee69" in
  let in_ := list_byte_of_string "hello" ++ repeat Byte.xff 11 in
  let out := repeat Byte.x00 16 in
  (Z.of_nat (padded_length 5 16) <= INT_MAX)%Z
  /\ datagram_decrypt (fun _ => Byte.xff) key rc4 in_ out 5
     = datagram_encrypt (fun _ => Byte.x00) key rc4 in_ out 5.
Proof.
  assert (H : (Z.of_nat (padded_length 5 16) <= INT_MAX)%Z)
    by (cbn; unfold INT_MAX; lia).
  split; [exact H|].
  exact (X12_rc4_engines_coincide (fun _ => Byte.x00) (fun _ => Byte.xff)
           (bytes_of_hex "5ebe2294ecd0e0f08eab7690d2a6ee69")
           (list_byte_of_string "hello" ++ repeat Byte.xff 11)
           (repeat Byte.x00 16) 5 H).
Defined.

(** ** Addresses: [v4pair_to_sockaddr] *)

Module AddrFacts.
Import Libc.

Lemma byte_of_ascii_nul (c : ascii) :
  byte_of_ascii c = Byte.x00 -> N_of_ascii c = 0%N.
Proof.
  intros H. rewrite <- (ascii_of_byte_of_ascii c), H. reflexivity.
Qed.

Lemma bytes_of_c_string_no_nul (s : string) : no_nul (bytes_of_c_string s).
Proof.
  unfold bytes_of_c_string, no_nul.
  induction s as [|c t IH]; [constructor|].
  cbn [strlen char_at list_byte_of_string].
  destruct (Z.eqb_spec (Z.of_N (N_of_ascii c)) 0) as [E|E]; [constructor|].
  cbn [firstn]. constructor; [|exact IH].
  intros H. apply byte_of_ascii_nul in H. lia.
Qed.

Lemma no_nul_firstn (n : nat) (l : list byte) : no_nul l -> no_nul (firstn n l).
Proof.
  intros H. unfold no_nul in *. rewrite <- (firstn_skipn n l) in H.
  now apply Forall_app in H.
Qed.

Lemma eqb_neq (a b : byte) : a <> b -> Byte.eqb a b = false.
Proof.
  intros H. destruct (Byte.eqb a b) eqn:E; [|reflexivity].
  apply Byte.byte_dec_bl in E. contradiction.
Qed.

Lemma eqb_refl (a : byte) : Byte.eqb a a = true.
Proof. now apply Byte.byte_dec_lb. Qed.

Lemma strchr_from_found (h t : list byte) (i : nat) (c : byte) :
  no_nul h -> ~ In c h ->
  strchr_from (h ++ c :: t) i c = Ok (Some (i + length h)).
Proof.
  revert i. induction h as [|b h IH]; intros i Hn Hc; cbn [app strchr_from length].
  - rewrite eqb_refl. f_equal. f_equal. lia.
  - apply Forall_cons_iff in Hn as [Hb Hn].
    rewrite (eqb_neq b c) by (intros ->; apply Hc; now left).
    rewrite (eqb_neq b Byte.x00) by assumption.
    rewrite IH; auto; [|intros H; apply Hc; now right].
    f_equal. f_equal. lia.
Qed.

Lemma strchr_from_missing (h t : list byte) (i : nat) (c : byte) :
  c <> Byte.x00 -> no_nul h -> ~ In c h ->
  strchr_from (h ++ Byte.x00 :: t) i c = Ok None.
Proof.
  intros H0. revert i.
  induction h as [|b h IH]; intros i Hn Hc; cbn [app strchr_from].
  - rewrite (eqb_neq Byte.x00 c) by congruence. reflexivity.
  - apply Forall_cons_iff in Hn as [Hb Hn].
    rewrite (eqb_neq b c) by (intros ->; apply Hc; now left).
    rewrite (eqb_neq b Byte.x00) by assumption.
    apply IH; auto. intros H; apply Hc; now right.
Qed.

Lemma c_string_from_app (h t : list byte) :
  no_nul h -> c_string_from (h ++ Byte.x00 :: t) = Ok (string_of_list_byte h).
Proof.
  induction h as [|b h IH]; intros Hn; cbn [app c_string_from]; [reflexivity|].
  apply Forall_cons_iff in Hn as [Hb Hn].
  rewrite (eqb_neq b Byte.x00) by assumption.
  rewrite IH by assumption. reflexivity.
Qed.

Lemma strchr_outcome (buf : list byte) (off : nat) (c : byte) :
  strchr buf off c <> Abort.
Proof.
  unfold strchr. generalize (skipn off buf) as l. intros l. revert off.
  induction l as [|b l IH]; intros i; cbn [strchr_from]; [discriminate|].
  destruct (Byte.eqb b c); [discriminate|].
  destruct (Byte.eqb b Byte.x00); [discriminate|apply IH].
Qed.

Lemma c_string_at_outcome (buf : list byte) (off : nat) :
  c_string_at buf off <> Abort.
Proof.
  unfold c_string_at. generalize (skipn off buf) as l.
  induction l as [|b l IH]; cbn [c_string_from]; [discriminate|].
  destruct (Byte.eqb b Byte.x00); [discriminate|].
  destruct (c_string_from l); cbn [bind]; congruence.
Qed.

(** The first occurrence of a byte in a list. *)
Lemma in_split_first (c : byte) (l : list byte) :
  In c l -> exists h p, l = h ++ c :: p /\ ~ In c h.
Proof.
  induction l as [|b l IH]; intros H; [destruct H|].
  destruct (Byte.byte_eq_dec b c) as [->|Hne].
  - exists [], l. split; [reflexivity|intros []].
  - destruct H as [H|H]; [contradiction|].
    destruct (IH H) as (h & p & -> & Hh).
    exists (b :: h), p. split; [reflexivity|].
    intros [E|E]; [contradiction|auto].
Qed.

Lemma uninitialised_length (junk : nat -> byte) (n : nat) :
  length (uninitialised junk n) = n.
Proof. unfold uninitialised. now rewrite length_map, length_seq. Qed.

Lemma firstn_repeat_min {A} (a : A) (n m : nat) :
  firstn n (repeat a m) = repeat a (Nat.min n m).
Proof.
  revert m. induction n as [|n IH]; intros [|m]; cbn; auto. now rewrite IH.
Qed.

Lemma write_whole (buf src : list byte) :
  length src = length buf -> Buffer.write buf 0 src = Ok src.
Proof.
  intros H. unfold Buffer.write. cbn [Nat.add].
  rewrite (proj2 (Nat.leb_le _ _)) by lia.
  rewrite skipn_all2 by lia. cbn [firstn app]. now rewrite app_nil_r.
Qed.

Lemma write_last (buf : list byte) (n : nat) (b : byte) :
  length buf = S n -> Buffer.write buf n [b] = Ok (firstn n buf ++ [b]).
Proof.
  intros H. unfold Buffer.write. cbn [length].
  rewrite (proj2 (Nat.leb_le _ _)) by lia.
  rewrite skipn_all2 by lia. reflexivity.
Qed.

(** The array [host] once the name is copied and cut: the first 63
    bytes of the name, then NULs. *)
Lemma host_array (junk : nat -> byte) (s : string) :
  let h := host_part s in
  exists host,
    strncpy (uninitialised junk 64) s 64 = Ok host
    /\ Buffer.write host (64 - 1) [Byte.x00]
       = Ok (h ++ repeat Byte.x00 (64 - length h)).
Proof.
  intros h. unfold host_part in h. unfold strncpy.
  set (b := bytes_of_c_string s) in *.
  set (X := firstn 64 b ++ repeat Byte.x00 (64 - length b)).
  assert (L : length X = 64).
  { unfold X. rewrite length_app, length_firstn, repeat_length. lia. }
  exists X. split.
  { apply write_whole. now rewrite uninitialised_length. }
  change (64 - 1) with 63. rewrite write_last by exact L.
  f_equal. subst h X.
  destruct (Nat.le_gt_cases 63 (length b)) as [Hl|Hl].
  - rewrite firstn_app, length_firstn.
    replace (63 - Nat.min 64 (length b)) with 0 by lia.
    rewrite firstn_O, app_nil_r, firstn_firstn.
    change (Nat.min 63 64) with 63.
    rewrite length_firstn, Nat.min_l by lia. reflexivity.
  - rewrite (firstn_all2 (n := 64) b), (firstn_all2 (n := 63) b) by lia.
    rewrite firstn_app, (firstn_all2 (n := 63) b) by lia.
    rewrite firstn_repeat_min, <- app_assoc. f_equal.
    change [Byte.x00] with (repeat Byte.x00 1). rewrite <- repeat_app.
    f_equal. lia.
Qed.

End AddrFacts.

Module V4Facts.
Import Libc AddrFacts.

Lemma host_part_no_nul (s : string) : no_nul (host_part s).
Proof. apply no_nul_firstn, bytes_of_c_string_no_nul. Qed.

Lemma host_part_length (s : string) : length (host_part s) <= 63.
Proof. unfold host_part. rewrite length_firstn. lia. Qed.

(** Without the separator among its first 63 bytes the name is refused
    before the resolver is called. *)
Lemma v4pair_missing (getaddrinfo : resolver) (junk : nat -> byte)
      (s : string) (sep : byte) (addr : sockaddr_in) :
  sep <> Byte.x00 -> ~ In sep (host_part s) ->
  v4pair_to_sockaddr getaddrinfo junk (Some s) sep addr
  = Ok ((- EINVAL)%Z, addr).
Proof.
  intros H0 Hn. unfold v4pair_to_sockaddr.
  destruct (host_array junk s) as (host & E1 & E2). cbv zeta in E2.
  rewrite E1. cbn [bind]. rewrite E2. cbn [bind].
  pose proof (host_part_length s) as L.
  replace (64 - length (host_part s)) with (S (63 - length (host_part s))) by lia.
  cbn [repeat]. unfold strchr. cbn [skipn].
  rewrite strchr_from_missing; auto using host_part_no_nul.
Qed.

(** With the separator among its first 63 bytes the name is split at the
    first one, and the resolver decides. *)
Lemma v4pair_split (getaddrinfo : resolver) (junk : nat -> byte)
      (s : string) (sep : byte) (addr : sockaddr_in) (h p : list byte) :
  host_part s = h ++ sep :: p -> ~ In sep h ->
  v4pair_to_sockaddr getaddrinfo junk (Some s) sep addr
  = let '(rc, res) := getaddrinfo (string_of_list_byte h)
                                  (string_of_list_byte p) v4_hints in
    if (rc =? 0)%Z then
      match res with
      | ai :: _ =>
          match ai_addr ai with
          | Some a => Ok (0%Z, a)
          | None => Undefined
          end
      | [] => Undefined
      end
    else Ok ((- EAGAIN)%Z, addr).
Proof.
  intros Hs Hn. unfold v4pair_to_sockaddr.
  destruct (host_array junk s) as (host & E1 & E2). cbv zeta in E2.
  rewrite E1. cbn [bind]. rewrite E2. cbn [bind].
  pose proof (host_part_length s) as L.
  pose proof (host_part_no_nul s) as N.
  rewrite Hs in *. rewrite length_app in L. cbn [length] in L.
  apply Forall_app in N as [Nh N]. apply Forall_cons_iff in N as [_ Np].
  replace (64 - length (h ++ sep :: p))
    with (S (63 - length (h ++ sep :: p)))
    by (rewrite length_app; cbn [length]; lia).
  set (k := 63 - length (h ++ sep :: p)). cbn [repeat].
  rewrite <- app_assoc. cbn [app].
  unfold strchr. cbn [skipn].
  rewrite strchr_from_found by assumption. cbn [Nat.add bind].
  unfold Buffer.write. cbn [length].
  rewrite (proj2 (Nat.leb_le _ _))
    by (rewrite length_app; cbn [length]; lia).
  rewrite firstn_app, Nat.sub_diag, firstn_O, app_nil_r, firstn_all.
  rewrite skipn_app, skipn_all2 by lia.
  replace (length h + 1 - length h) with 1 by lia. cbn [skipn app].
  cbn [bind]. unfold c_string_at. cbn [skipn].
  rewrite c_string_from_app by assumption. cbn [bind].
  rewrite skipn_app, skipn_all2 by lia.
  replace (length h + 1 - length h) with 1 by lia. cbn [skipn app].
  rewrite c_string_from_app by assumption. cbn [bind].
  reflexivity.
Qed.

End V4Facts.

(** X13. A name is refused with [-EINVAL] exactly when the separator
    (not NUL) is not among its first 63 bytes: the array [host] keeps no
    more of the name, so that a separator further on is not seen.  The
    refusal leaves [*addr] as it was and does not depend on the
    resolver. *)
Theorem X13_missing_separator (getaddrinfo : resolver) (junk : nat -> byte)
        (s : string) (sep : byte) (addr : sockaddr_in) :
  sep <> Byte.x00 ->
  (~ In sep (host_part s) ->
   v4pair_to_sockaddr getaddrinfo junk (Some s) sep addr
   = Ok ((- EINVAL)%Z, addr))
  /\ (In sep (host_part s) ->
      forall a, v4pair_to_sockaddr getaddrinfo junk (Some s) sep addr
                <> Ok ((- EINVAL)%Z, a)).
Proof.
  intros H0. split; [now apply V4Facts.v4pair_missing|].
  intros Hin a.
  destruct (AddrFacts.in_split_first _ _ Hin) as (h & p & Hs & Hn).
  rewrite (V4Facts.v4pair_split getaddrinfo junk s sep addr h p Hs Hn).
  destruct (getaddrinfo _ _ _) as [rc res].
  destruct (rc =? 0)%Z; [|discriminate].
  destruct res as [|ai rest]; [discriminate|].
  destruct (ai_addr ai); discriminate.
Qed.

Lemma X13_missing_separator_witness :
  let g : resolver := fun _ _ _ => (0%Z, []) in
  let addr := mkAddr 0 0 0 (repeat Byte.x00 8) in
  let r := v4pair_to_sockaddr g (fun _ => Byte.xff) (Some "localhost"%string)
                              Byte.x3a addr in
  Byte.x3a <> Byte.x00
  /\ (~ In Byte.x3a (host_part "localhost") -> r = Ok ((- EINVAL)%Z, addr))
  /\ (In Byte.x3a (host_part "localhost") ->
      forall a, r <> Ok ((- EINVAL)%Z, a)).
Proof.
  intros g addr r.
  assert (H : Byte.x3a <> Byte.x00) by discriminate.
  split; [exact H|].
  exact (X13_missing_separator g (fun _ => Byte.xff) "localhost" Byte.x3a addr H).
Defined.

(** X14. A name with the separator among its first 63 bytes is split at
    the first separator: what stands before it goes to the resolver as
    the node, what stands behind it, up to byte 63 of the name, as the
    service, together with hints for a passive IPv4 stream socket.  When
    the resolver fails the call returns [-EAGAIN] and leaves [*addr] as
    it was, whatever the error of the resolver; otherwise it returns 0
    and [*addr] is the first address of the answer. *)
Theorem X14_pair_split (getaddrinfo : resolver) (junk : nat -> byte)
        (s : string) (sep : byte) (addr : sockaddr_in) (h p : list byte) :
  host_part s = h ++ sep :: p -> ~ In sep h ->
  let node := string_of_list_byte h in
  let service := string_of_list_byte p in
  let r := v4pair_to_sockaddr getaddrinfo junk (Some s) sep addr in
  v4_hints = mkInfo AI_PASSIVE AF_INET SOCK_STREAM 0 0 None None
  /\ (forall rc res,
         getaddrinfo node service v4_hints = (rc, res) -> rc <> 0%Z ->
         r = Ok ((- EAGAIN)%Z, addr))
  /\ (forall ai rest a,
         getaddrinfo node service v4_hints = (0%Z, ai :: rest) ->
         ai_addr ai = Some a ->
         r = Ok (0%Z, a)).
Proof.
  intros Hs Hn node service r. subst r.
  rewrite (V4Facts.v4pair_split getaddrinfo junk s sep addr h p Hs Hn).
  fold node service.
  split; [reflexivity|]. split.
  - intros rc res E Hrc. rewrite E.
    now rewrite (proj2 (Z.eqb_neq rc 0) Hrc).
  - intros ai rest a E Ha. rewrite E. cbn [Z.eqb]. now rewrite Ha.
Qed.

Lemma X14_pair_split_witness :
  let loopback := mkAddr AF_INET 20480 16777343 (repeat Byte.x00 8) in
  let g : resolver := fun node service hints =>
    if (String.eqb node "localhost" && String.eqb service "80")%bool
    then (0%Z, [mkInfo 0 AF_INET SOCK_STREAM 6 16 (Some loopback) None])
    else ((-2)%Z, []) in
  let addr := mkAddr 0 0 0 (repeat Byte.x00 8) in
  let h := list_byte_of_string "localhost" in
  let p := list_byte_of_string "80" in
  let r := v4pair_to_sockaddr g (fun _ => Byte.xff) (Some "localhost:80"%string)
                              Byte.x3a addr in
  host_part "localhost:80" = h ++ Byte.x3a :: p /\ ~ In Byte.x3a h
  /\ v4_hints = mkInfo AI_PASSIVE AF_INET SOCK_STREAM 0 0 None None
  /\ (forall rc res,
         g (string_of_list_byte h) (string_of_list_byte p) v4_hints = (rc, res) ->
         rc <> 0%Z -> r = Ok ((- EAGAIN)%Z, addr))
  /\ (forall ai rest a,
         g (string_of_list_byte h) (string_of_list_byte p) v4_hints
         = (0%Z, ai :: rest) ->
         ai_addr ai = Some a -> r = Ok (0%Z, a)).
Proof.
  intros loopback g addr h p r.
  assert (H1 : host_part "localhost:80" = h ++ Byte.x3a :: p) by reflexivity.
  assert (H2 : ~ In Byte.x3a h).
  { cbn. intros H. repeat (destruct H as [H|H]; [discriminate H|]). exact H. }
  split; [exact H1|]. split; [exact H2|].
  exact (X14_pair_split g (fun _ => Byte.xff) "localhost:80" Byte.x3a addr h p H1 H2).
Defined.

(** X15. Only the first 63 bytes of a name count: two names that agree
    on them are treated alike, whatever the separator, the resolver and
    the address passed are.  A longer name is cut without notice, a
    port that crosses byte 63 is shortened. *)
Theorem X15_pair_truncated (getaddrinfo : resolver) (junk1 junk2 : nat -> byte)
        (s1 s2 : string) (sep : byte) (addr : sockaddr_in) :
  host_part s1 = host_part s2 ->
  v4pair_to_sockaddr getaddrinfo junk1 (Some s1) sep addr
  = v4pair_to_sockaddr getaddrinfo junk2 (Some s2) sep addr.
Proof.
  intros H. unfold v4pair_to_sockaddr.
  destruct (AddrFacts.host_array junk1 s1) as (host1 & E1 & F1).
  destruct (AddrFacts.host_array junk2 s2) as (host2 & E2 & F2).
  cbv zeta in F1, F2.
  rewrite E1, E2. cbn [bind]. rewrite F1, F2, H. reflexivity.
Qed.

Lemma X15_pair_truncated_witness :
  let g : resolver := fun _ _ _ => (0%Z, []) in
  let addr := mkAddr 0 0 0 (repeat Byte.x00 8) in
  let s1 := "a-name-of-fifty-eight-bytes.that-ends-right.here.example.org:8080"%string in
  let s2 := "a-name-of-fifty-eight-bytes.that-ends-right.here.example.org:80"%string in
  host_part s1 = host_part s2
  /\ v4pair_to_sockaddr g (fun _ => Byte.x00) (Some s1) Byte.x3a addr
     = v4pair_to_sockaddr g (fun _ => Byte.xff) (Some s2) Byte.x3a addr.
Proof.
  intros g addr s1 s2.
  assert (H : host_part s1 = host_part s2) by reflexivity.
  split; [exact H|].
  exact (X15_pair_truncated g (fun _ => Byte.x00) (fun _ => Byte.xff) s1 s2
           Byte.x3a addr H).
Defined.

(** X16. What a caller of [v4pair_to_sockaddr] can get back.  The call
    never fails an assertion; it returns 0, [-EINVAL] or [-EAGAIN] and
    nothing else, and on the two errors [*addr] is as it was before the
    call.  Without a name (a NULL [pair]) it returns 0 with the IPv4
    wildcard address and port 0, leaving the padding of [*addr] alone,
    and the resolver has no part in it. *)
Theorem X16_address_outcomes (getaddrinfo : resolver) (junk : nat -> byte)
        (pair : option string) (sep : byte) (addr : sockaddr_in) :
  let r := v4pair_to_sockaddr getaddrinfo junk pair sep addr in
  r <> Abort
  /\ (forall rv a,
         r = Ok (rv, a) ->
         rv = 0%Z \/ (rv = (- EINVAL)%Z /\ a = addr)
         \/ (rv = (- EAGAIN)%Z /\ a = addr))
  /\ (pair = None -> r = Ok (0%Z, mkAddr AF_INET 0 0 (sin_zero addr))).
Proof.
  intros r. subst r.
  assert (P : forall x : result (Z * sockaddr_in),
             (x = Undefined \/ (exists a, x = Ok (0%Z, a))
              \/ x = Ok ((- EINVAL)%Z, addr) \/ x = Ok ((- EAGAIN)%Z, addr)) ->
             x <> Abort
             /\ forall rv a, x = Ok (rv, a) ->
                  rv = 0%Z \/ (rv = (- EINVAL)%Z /\ a = addr)
                  \/ (rv = (- EAGAIN)%Z /\ a = addr)).
  { intros x [->|[[a ->]|[->| ->]]]; (split; [discriminate|]);
      intros rv a' E; try discriminate E; injection E as <- <-; auto. }
  destruct pair as [s|].
  - assert (C : let x := v4pair_to_sockaddr getaddrinfo junk (Some s) sep addr in
                x = Undefined \/ (exists a, x = Ok (0%Z, a))
                \/ x = Ok ((- EINVAL)%Z, addr) \/ x = Ok ((- EAGAIN)%Z, addr)).
    { unfold v4pair_to_sockaddr, Libc.strncpy, Buffer.write.
      repeat match goal with
             | |- context [if ?b then _ else _] => destruct b; cbn [bind]
             | |- context [Libc.strchr ?a ?b ?c] =>
                 pose proof (AddrFacts.strchr_outcome a b c);
                 destruct (Libc.strchr a b c) as [[?|]| |];
                 try congruence; cbn [bind]
             | |- context [Libc.c_string_at ?a ?b] =>
                 pose proof (AddrFacts.c_string_at_outcome a b);
                 destruct (Libc.c_string_at a b); try congruence; cbn [bind]
             | |- context [getaddrinfo ?a ?b ?c] =>
                 destruct (getaddrinfo a b c) as [? [|? ?]]
             | |- context [ai_addr ?a] => destruct (ai_addr a)
             end; eauto 6. }
    destruct (P _ C) as [A B]. split; [exact A|]. split; [exact B|]. discriminate.
  - cbn. split; [discriminate|]. split; [|reflexivity].
    intros rv a E. injection E as <- <-. auto.
Qed.

(** ** The daemon: [do_daemonize] *)

Lemma fdtab_set_fd (p : process) (fd : nat) (f : option string) (n : nat) :
  fdtab (set_fd p fd f) n = if Nat.eqb n fd then f else fdtab p n.
Proof. reflexivity. Qed.

Lemma dup2_open (p : process) (oldfd newfd : nat) (f : string) :
  fdtab p oldfd = Some f -> dup2 p oldfd newfd = set_fd p newfd (Some f).
Proof. intros H. unfold dup2. now rewrite H. Qed.

(** [chdir] touches the working directory only. *)
Lemma chdir_keeps (sys : system) (p : process) (path : string) :
  fdtab (snd (chdir sys p path)) = fdtab p
  /\ session_leader (snd (chdir sys p path)) = session_leader p
  /\ stderr (snd (chdir sys p path)) = stderr p.
Proof. unfold chdir. destruct (chdir_result sys =? 0)%Z; cbn; auto. Qed.

Lemma dup2_session_leader (p : process) (oldfd newfd : nat) :
  session_leader (dup2 p oldfd newfd) = session_leader p.
Proof. unfold dup2. now destruct (fdtab p oldfd). Qed.

Lemma dup2_stderr (p : process) (oldfd newfd : nat) :
  stderr (dup2 p oldfd newfd) = stderr p.
Proof. unfold dup2. now destruct (fdtab p oldfd). Qed.

Lemma dup2_cwd (p : process) (oldfd newfd : nat) :
  cwd (dup2 p oldfd newfd) = cwd p.
Proof. unfold dup2. now destruct (fdtab p oldfd). Qed.

(** The three [dup2] of a descriptor that is open. *)
Lemma dup2_stdio (p : process) (fd : nat) (f : string) :
  fdtab p fd = Some f ->
  let p' := dup2 (dup2 (dup2 p fd 0) fd 1) fd 2 in
  (forall n, fdtab p' n
             = if (Nat.eqb n 0 || Nat.eqb n 1 || Nat.eqb n 2)%bool
               then Some f else fdtab p n)
  /\ session_leader p' = session_leader p /\ stderr p' = stderr p.
Proof.
  intros H.
  rewrite (dup2_open p fd 0 f H).
  assert (H1 : fdtab (set_fd p 0 (Some f)) fd = Some f).
  { rewrite fdtab_set_fd. now destruct (Nat.eqb fd 0). }
  rewrite (dup2_open _ fd 1 f H1).
  assert (H2 : fdtab (set_fd (set_fd p 0 (Some f)) 1 (Some f)) fd = Some f).
  { rewrite fdtab_set_fd. now destruct (Nat.eqb fd 1). }
  rewrite (dup2_open _ fd 2 f H2).
  cbv zeta. split; [|split; reflexivity].
  intros n. rewrite !fdtab_set_fd.
  destruct (Nat.eqb n 2), (Nat.eqb n 1), (Nat.eqb n 0); reflexivity.
Qed.

(** X17. In the child, when [/dev/null] can be opened, [do_daemonize]
    returns 0 with the descriptors 0, 1 and 2 open on [/dev/null] and
    every other descriptor as it was: the descriptor that [open] gave
    (one that was not open, as the system guarantees) is closed again
    unless it is 0, 1 or 2 itself, so that none is left behind.  The
    process leads a session of its own and has printed nothing. *)
Theorem X17_daemon_descriptors (sys : system) (p : process) (fd : nat) :
  fork_result sys = 0%Z -> open_result sys = Z.of_nat fd ->
  fdtab p fd = None ->
  exists p',
    do_daemonize sys p = Returned 0 p'
    /\ fdtab p' 0 = Some "/dev/null"%string
    /\ fdtab p' 1 = Some "/dev/null"%string
    /\ fdtab p' 2 = Some "/dev/null"%string
    /\ (forall n, 2 < n -> fdtab p' n = fdtab p n)
    /\ session_leader p' = true /\ stderr p' = stderr p.
Proof.
  intros Hf Ho Hfd. unfold do_daemonize. rewrite Hf. cbn [Z.ltb Z.compare].
  destruct (chdir_keeps sys (setsid p) "/tmp") as (Kt & Ks & Ke).
  destruct (chdir sys (setsid p) "/tmp") as [rc p1]. cbn [snd] in Kt, Ks, Ke.
  unfold open. rewrite Ho. cbv zeta.
  rewrite (proj2 (Z.leb_le 0 (Z.of_nat fd))) by lia. cbv beta iota.
  rewrite (proj2 (Z.leb_le 0 (Z.of_nat fd))) by lia.
  rewrite !Nat2Z.id.
  set (p2 := set_fd p1 fd (Some "/dev/null"%string)).
  assert (H2 : fdtab p2 fd = Some "/dev/null"%string)
    by (unfold p2; rewrite fdtab_set_fd, Nat.eqb_refl; reflexivity).
  destruct (dup2_stdio p2 fd _ H2) as (T & Ts & Te).
  set (p3 := dup2 (dup2 (dup2 p2 fd 0) fd 1) fd 2) in *.
  assert (R : forall n, 2 < n -> n <> fd -> fdtab p3 n = fdtab p n).
  { intros n Hn Hne. rewrite T.
    rewrite (proj2 (Nat.eqb_neq n 0)), (proj2 (Nat.eqb_neq n 1)),
      (proj2 (Nat.eqb_neq n 2)) by lia.
    cbn [orb]. unfold p2. rewrite fdtab_set_fd, Kt.
    now rewrite (proj2 (Nat.eqb_neq n fd)). }
  destruct (Z.ltb_spec 2 (Z.of_nat fd)) as [Hgt|Hle].
  - eexists. split; [reflexivity|].
    unfold close. rewrite !fdtab_set_fd.
    rewrite (proj2 (Nat.eqb_neq 0 fd)), (proj2 (Nat.eqb_neq 1 fd)),
      (proj2 (Nat.eqb_neq 2 fd)) by lia.
    rewrite !T. cbn [Nat.eqb orb].
    repeat split; auto.
    + intros n Hn. rewrite fdtab_set_fd.
      destruct (Nat.eqb_spec n fd) as [->|Hne]; [now rewrite Hfd|auto].
    + cbn [session_leader set_fd]. rewrite Ts. unfold p2.
      cbn [session_leader set_fd]. now rewrite Ks.
    + cbn [stderr set_fd]. rewrite Te. unfold p2.
      cbn [stderr set_fd]. now rewrite Ke.
  - eexists. split; [reflexivity|].
    rewrite !T. cbn [Nat.eqb orb].
    repeat split; auto.
    + intros n Hn. apply R; lia.
    + rewrite Ts. unfold p2. cbn [session_leader set_fd]. now rewrite Ks.
    + rewrite Te. unfold p2. cbn [stderr set_fd]. now rewrite Ke.
Qed.

Lemma X17_daemon_descriptors_witness :
  let sys := mkSys 0 "" 0 3 in
  let p := mkProc (fun n => if Nat.leb n 2 then Some "/dev/pts/0"%string else None)
                  "/home" false [] in
  fork_result sys = 0%Z /\ open_result sys = Z.of_nat 3 /\ fdtab p 3 = None
  /\ exists p',
      do_daemonize sys p = Returned 0 p'
      /\ fdtab p' 0 = Some "/dev/null"%string
      /\ fdtab p' 1 = Some "/dev/null"%string
      /\ fdtab p' 2 = Some "/dev/null"%string
      /\ (forall n, 2 < n -> fdtab p' n = fdtab p n)
      /\ session_leader p' = true /\ stderr p' = stderr p.
Proof.
  intros sys p.
  assert (H1 : fork_result sys = 0%Z) by reflexivity.
  assert (H2 : open_result sys = Z.of_nat 3) by reflexivity.
  assert (H3 : fdtab p 3 = None) by reflexivity.
  repeat (split; [assumption|]).
  exact (X17_daemon_descriptors sys p 3 H1 H2 H3).
Defined.

(** X18. What the outcome of [do_daemonize] tells.  It returns -1 only
    when [fork] failed, and has then printed one line on [stderr] and
    changed nothing else; the parent never returns, it exits with
    status 0; in the child the call returns 0 whatever [chdir] and
    [open] answer: their failures are not reported, and when [open]
    fails the descriptors are left as they were. *)
Theorem X18_daemon_outcomes (sys : system) (p : process) :
  ((fork_result sys < 0)%Z ->
   exists line,
     do_daemonize sys p
     = Returned (-1) (mkProc (fdtab p) (cwd p) (session_leader p)
                             (stderr p ++ [line])))
  /\ ((0 < fork_result sys)%Z -> do_daemonize sys p = Exited 0 p)
  /\ (fork_result sys = 0%Z ->
      exists p',
        do_daemonize sys p = Returned 0 p'
        /\ session_leader p' = true /\ stderr p' = stderr p
        /\ cwd p' = (if (chdir_result sys =? 0)%Z then "/tmp"%string else cwd p)
        /\ ((open_result sys < 0)%Z -> forall n, fdtab p' n = fdtab p n))
  /\ (forall rv p', do_daemonize sys p = Returned rv p' ->
        (rv = (-1)%Z /\ (fork_result sys < 0)%Z)
        \/ (rv = 0%Z /\ fork_result sys = 0%Z))
  /\ (forall st p', do_daemonize sys p = Exited st p' ->
        st = 0%Z /\ p' = p /\ (0 < fork_result sys)%Z).
Proof.
  assert (C : fork_result sys = 0%Z ->
              exists p',
                do_daemonize sys p = Returned 0 p'
                /\ session_leader p' = true /\ stderr p' = stderr p
                /\ cwd p' = (if (chdir_result sys =? 0)%Z then "/tmp"%string
                             else cwd p)
                /\ ((open_result sys < 0)%Z -> forall n, fdtab p' n = fdtab p n)).
  { intros Hf. unfold do_daemonize. rewrite Hf. cbn [Z.ltb Z.compare].
    assert (Kc : cwd (snd (chdir sys (setsid p) "/tmp"))
                 = if (chdir_result sys =? 0)%Z then "/tmp"%string else cwd p).
    { unfold chdir. now destruct (chdir_result sys =? 0)%Z. }
    destruct (chdir_keeps sys (setsid p) "/tmp") as (Kt & Ks & Ke).
    destruct (chdir sys (setsid p) "/tmp") as [rc p1].
    cbn [snd] in Kt, Ks, Ke, Kc.
    unfold open. cbv zeta.
    destruct (Z.leb_spec 0 (open_result sys)) as [Ho|Ho].
    - cbv beta iota. rewrite (proj2 (Z.leb_le _ _) Ho).
      eexists. split; [reflexivity|].
      destruct (2 <? open_result sys)%Z; unfold close;
        cbn [session_leader stderr cwd set_fd];
        rewrite !dup2_session_leader, !dup2_stderr, !dup2_cwd;
        cbn [session_leader stderr cwd set_fd];
        rewrite Ks, Ke, Kc; repeat split; auto; intros; lia.
    - cbv beta iota. rewrite (proj2 (Z.leb_gt _ _) Ho).
      eexists. split; [reflexivity|].
      rewrite Ks, Ke, Kc. repeat split; auto.
      intros _ n. now rewrite Kt. }
  split.
  { intros Hf. unfold do_daemonize.
    rewrite (proj2 (Z.ltb_lt _ _) Hf). eexists. reflexivity. }
  split.
  { intros Hf. unfold do_daemonize.
    rewrite (proj2 (Z.ltb_ge _ _)) by lia.
    now rewrite (proj2 (Z.ltb_lt _ _) Hf). }
  split; [exact C|].
  destruct (Z.lt_trichotomy (fork_result sys) 0) as [Hf|[Hf|Hf]].
  - split; intros ? ? E; unfold do_daemonize in E;
      rewrite (proj2 (Z.ltb_lt _ _) Hf) in E; [|discriminate E].
    injection E as <- _. auto.
  - destruct (C Hf) as (q & E & _). rewrite E.
    split; intros ? ? E'; [|discriminate E'].
    injection E' as <- _. auto.
  - split; intros ? ? E; unfold do_daemonize in E;
      rewrite (proj2 (Z.ltb_ge _ _)) in E by lia;
      rewrite (proj2 (Z.ltb_lt _ _) Hf) in E; [discriminate E|].
    injection E as <- <-. auto.
Qed.
